(** * A shallow embedding of the configuration store and the promise helpers

    The development follows [src/utils/configManager.ts] (the schema and
    [FileConfigManager]), [src/utils/ChalkLogger.ts] (the level filter),
    [src/commands/config/] (the commands [current], [use], [list], [delete]
    and [create]; their prompts are parameters), [src/utils/version.ts]
    ([getVersion]) and [src/utils/timeout.ts] ([retry] and [withTimeout]).

    - JavaScript strings are [string]s: one [ascii] stands for one code unit,
      so [String.length] is the [length] the schema checks look at.
    - JSON documents are values of [json]; their numbers are the safe
      integers. A file holds the text of a JSON value or a text [JSON.parse]
      rejects, and parsing the text written for a value gives the value
      back. Turning a value into a string can throw, as it does in
      JavaScript for an object with a [toString] key.
    - Paths are POSIX paths, kept normalised as the list of their segments;
      [join] resolves [.], [..] and empty segments as [path.join] does.
    - The file system is a finite map from paths to nodes (a file with its
      content, or a directory). Every [node:fs] call the store makes is a
      function on it that returns or throws; a name with a NUL byte cannot
      be created; permissions, links and concurrent processes are not
      modelled.
    - Store operations run in a state-and-exception monad over the [world]
      (files, logger level, console), with [try ... catch] as a combinator.
    - The numbers [retry] and [withTimeout] receive are JavaScript numbers:
      finite values (rationals, standing for doubles), the two infinities
      and [NaN], with the overflow of [2 ** n] and of a product.
    - [retry] threads the state its operation and callback act on and records
      what it does (invocations, callbacks, delays) in a trace; the loop is
      followed for a given number of iterations, since it need not end.
    - [withTimeout] sees a promise as the time at which it settles and how;
      the timer is a promise of the same kind and [Promise.race] picks the
      first of the two. *)

From Stdlib Require Import String Ascii ZArith QArith Qround Qpower List Bool Lia
  Lqa DecimalString.
From stdpp Require Import base option list gmap strings.

Local Open Scope string_scope.
Local Open Scope Z_scope.

Set Warnings "-register-all".

(** ** JavaScript strings *)

Module JsString.

(** [s.endsWith(suffix)] *)
Fixpoint endsWith (s suffix : string) : bool :=
  if String.eqb s suffix then true
  else match s with
       | EmptyString => false
       | String _ rest => endsWith rest suffix
       end.

(** [s.startsWith(p)] *)
Fixpoint startsWith (s p : string) : bool :=
  match p, s with
  | EmptyString, _ => true
  | String c p', String d s' => Ascii.eqb c d && startsWith s' p'
  | String _ _, EmptyString => false
  end.

(** [s] without its first [n] code units. *)
Fixpoint drop (n : nat) (s : string) : string :=
  match n, s with
  | O, _ => s
  | S n', String _ rest => drop n' rest
  | S _, EmptyString => EmptyString
  end.

(** [s.replace(pat, by)] with a string pattern: only the first occurrence
    is replaced. *)
Fixpoint replace (s pat by_ : string) : string :=
  if startsWith s pat then by_ ++ drop (String.length pat) s
  else match s with
       | EmptyString => EmptyString
       | String c rest => String c (replace rest pat by_)
       end.

(** [s.split(sep)] for a one-character separator. *)
Fixpoint split (sep : ascii) (s : string) : list string :=
  match s with
  | EmptyString => [EmptyString]
  | String c rest =>
      if Ascii.eqb c sep then EmptyString :: split sep rest
      else match split sep rest with
           | [] => [String c EmptyString]
           | seg :: segs => String c seg :: segs
           end
  end.

(** [s.includes(c)] for a one-character string. *)
Fixpoint includes (s : string) (c : ascii) : bool :=
  match s with
  | EmptyString => false
  | String d rest => Ascii.eqb d c || includes rest c
  end.

(** [String(n)] for an integer below [10^21] in magnitude, which is printed
    in plain decimal. *)
Definition of_Z (n : Z) : string := NilZero.string_of_int (Z.to_int n).

(** White space, as [trim] sees it, among the code units below 256: TAB, LF,
    VT, FF, CR, space and the no-break space. *)
Definition is_space (c : ascii) : bool :=
  let n := nat_of_ascii c in
  ((9 <=? n)%nat && (n <=? 13)%nat) || (n =? 32)%nat || (n =? 160)%nat.

(** [s.trimStart()] *)
Fixpoint trimStart (s : string) : string :=
  match s with
  | EmptyString => EmptyString
  | String c rest => if is_space c then trimStart rest else s
  end.

(** [s.trimEnd()] *)
Fixpoint trimEnd (s : string) : string :=
  match s with
  | EmptyString => EmptyString
  | String c rest =>
      match trimEnd rest with
      | EmptyString => if is_space c then EmptyString else String c EmptyString
      | kept => String c kept
      end
  end.

(** [s.trim()] *)
Definition trim (s : string) : string := trimEnd (trimStart s).

End JsString.

(** ** JSON values *)

Module Json.

(** The numbers of the model: the safe integers (below 2^53 in magnitude),
    which a JavaScript number holds exactly and prints in plain decimal. *)
Record SafeInteger : Type := mkSafeInteger {
  integer_value : Z;
  in_range : (Z.abs integer_value <? 9007199254740992) = true
}.

Inductive json : Type :=
| JNull
| JBool (b : bool)
| JNum (n : SafeInteger)
| JStr (s : string)
| JArr (items : list json)
| JObj (fields : list (string * json)).

(** Own property [k] of an object literal. *)
Fixpoint field (k : string) (fields : list (string * json)) : option json :=
  match fields with
  | [] => None
  | (k', v) :: rest => if String.eqb k k' then Some v else field k rest
  end.

(** JavaScript truthiness: [null], [false], [0] and [""] are falsy. *)
Definition truthy (v : json) : bool :=
  match v with
  | JNull => false
  | JBool b => b
  | JNum n => negb (integer_value n =? 0)
  | JStr s => negb (String.eqb s "")
  | JArr _ | JObj _ => true
  end.

(** [String(v)], the coercion a template literal applies; [None] when it
    throws a [TypeError]. An array is joined with commas, [null] items as
    empty strings. An object parsed from JSON inherits [toString] unless it
    has a key of that name, whose value is never a function: then neither it
    nor [valueOf] gives a primitive, and the conversion throws. *)
Fixpoint to_string (v : json) : option string :=
  match v with
  | JNull => Some "null"
  | JBool true => Some "true"
  | JBool false => Some "false"
  | JNum n => Some (JsString.of_Z (integer_value n))
  | JStr s => Some s
  | JArr items =>
      (fix join (l : list json) : option string :=
         match l with
         | [] => Some ""
         | x :: rest =>
             match match x with JNull => Some "" | _ => to_string x end,
                   join rest with
             | Some first, Some others =>
                 Some match rest with
                      | [] => first
                      | _ => first ++ "," ++ others
                      end
             | _, _ => None
             end
         end) items
  | JObj fields =>
      match field "toString" fields with
      | Some _ => None
      | None => Some "[object Object]"
      end
  end.

(** [a === b] of a value read from JSON against a string. *)
Definition strict_eq_string (v : json) (s : string) : bool :=
  match v with
  | JStr s' => String.eqb s' s
  | _ => false
  end.

End Json.
Export Json.

(** ** The schema [AppConfigSchema] (zod) *)

Module Schema.

(** One entry of [error.issues]: where it was raised and which check failed. *)
Inductive issue : Type :=
| InvalidType (at_ : list string)
| TooSmall (at_ : list string) (message : string)
| TooBig (at_ : list string) (message : string).

Inductive SafeParseResult : Type :=
| ParseSuccess (data : json)
| ParseFailure (issues : list issue).

Definition success (r : SafeParseResult) : bool :=
  match r with ParseSuccess _ => true | ParseFailure _ => false end.

(** [z.string().min(1, "Configuration name is required").max(50, "Name too long")]
    on a string. *)
Definition name_issues (s : string) : list issue :=
  ((if (String.length s <? 1)%nat
    then [TooSmall ["name"] "Configuration name is required"] else [])
   ++ (if (50 <? String.length s)%nat
       then [TooBig ["name"] "Name too long"] else []))%list.

(** The [name] key: a required string with the two length checks. *)
Definition check_name (v : option json) : list issue :=
  match v with
  | Some (JStr s) => name_issues s
  | _ => [InvalidType ["name"]]
  end.

(** The [description] key: [z.string().optional()]. *)
Definition check_description (v : option json) : list issue :=
  match v with
  | None | Some (JStr _) => []
  | Some _ => [InvalidType ["description"]]
  end.

(** The parsed output of [z.object]: the declared keys only. *)
Definition strip (fields : list (string * json)) : json :=
  JObj ((match field "name" fields with Some n => [("name", n)] | None => [] end)
        ++ (match field "description" fields with
            | Some d => [("description", d)] | None => [] end))%list.

(** [AppConfigSchema.safeParse(v)] *)
Definition safeParse (v : json) : SafeParseResult :=
  match v with
  | JObj fields =>
      match (check_name (field "name" fields)
             ++ check_description (field "description" fields))%list with
      | [] => ParseSuccess (strip fields)
      | issues => ParseFailure issues
      end
  | _ => ParseFailure [InvalidType []]
  end.

(** The record [{ name, description? }] of type [AppConfig]. *)
Definition AppConfig (name : string) (description : option string) : json :=
  JObj (("name", JStr name)
        :: match description with
           | Some d => [("description", JStr d)]
           | None => []
           end).

End Schema.
Export Schema.

(** ** Paths ([node:path], POSIX) *)

Module Path.

(** A normalised absolute path: its segments from the root. *)
Abbreviation path := (list string).

(** One segment of a path applied to the segments before it, as
    [path.normalize] does: empty and [.] segments vanish, [..] drops the
    last segment (and stays at the root). *)
Definition push_segment (acc : path) (seg : string) : path :=
  if String.eqb seg "" || String.eqb seg "." then acc
  else if String.eqb seg ".." then removelast acc
  else (acc ++ [seg])%list.

(** [join(base, rel)] for an absolute, normalised [base]. *)
Definition join (base : path) (rel : string) : path :=
  fold_left push_segment (JsString.split "/" rel) base.

(** The directory that holds [p]. *)
Definition dirname (p : path) : path := removelast p.

(** The last segment of [p]. *)
Definition basename (p : path) : string := List.last p "".

End Path.
Export Path.

(** ** The file system ([node:fs]) and [JSON] *)

Module Fs.

(** What a file holds, seen through [JSON.parse]: the text
    [JSON.stringify(v, null, indent)] of a value, or a text the parser
    rejects. *)
Inductive content : Type :=
| JsonText (indent : nat) (v : json)
| RawText (raw : string).

Inductive node : Type :=
| File (c : content)
| Dir.

(** What the calls throw. *)
Inductive exn : Type :=
| ENOENT (p : path)
| EISDIR (p : path)
| ENOTDIR (p : path)
| EEXIST (p : path)
| ERR_INVALID_ARG_VALUE (p : path)
| SyntaxError (raw : string)
| TypeError (message : string).

(** A path with a NUL byte in one of its segments: [node:fs] refuses to
    create it, and no disk holds an entry of that name. *)
Definition has_nul (p : path) : bool :=
  existsb (fun seg => JsString.includes seg "000") p.

(** The root is always a directory; below it the map decides. *)
Definition is_dir (m : gmap path node) (p : path) : bool :=
  match p with
  | [] => true
  | _ => match m !! p with Some Dir => true | _ => false end
  end.

(** [existsSync(p)]: never throws. *)
Definition existsSync (m : gmap path node) (p : path) : bool :=
  match p with
  | [] => true
  | _ => match m !! p with Some _ => true | None => false end
  end.

(** [readFileSync(p, "utf-8")] *)
Definition readFileSync (m : gmap path node) (p : path) : exn + content :=
  match p with
  | [] => inl (EISDIR p)
  | _ => match m !! p with
         | Some (File c) => inr c
         | Some Dir => inl (EISDIR p)
         | None => inl (ENOENT p)
         end
  end.

(** [writeFileSync(p, c, "utf-8")]: an existing file is overwritten, a new
    file needs a name without NUL and its directory; nothing is created on
    the way. *)
Definition writeFileSync (m : gmap path node) (p : path) (c : content)
  : exn + gmap path node :=
  match p with
  | [] => inl (EISDIR p)
  | _ => match m !! p with
         | Some (File _) => inr (<[p := File c]> m)
         | Some Dir => inl (EISDIR p)
         | None =>
             if has_nul p then inl (ERR_INVALID_ARG_VALUE p)
             else if is_dir m (dirname p) then inr (<[p := File c]> m)
             else if existsSync m (dirname p) then inl (ENOTDIR p)
             else inl (ENOENT p)
         end
  end.

(** [unlinkSync(p)] *)
Definition unlinkSync (m : gmap path node) (p : path) : exn + gmap path node :=
  match p with
  | [] => inl (EISDIR p)
  | _ => match m !! p with
         | Some (File _) => inr (delete p m)
         | Some Dir => inl (EISDIR p)
         | None => inl (ENOENT p)
         end
  end.

(** The names directly inside directory [d]. *)
Definition entries (m : gmap path node) (d : path) : list string :=
  omap (fun e : path * node =>
          match fst e with
          | [] => None
          | p => if decide (dirname p = d) then Some (basename p) else None
          end)
       (map_to_list m).

(** [readdirSync(d)] *)
Definition readdirSync (m : gmap path node) (d : path) : exn + list string :=
  if is_dir m d then inr (entries m d)
  else if existsSync m d then inl (ENOTDIR d)
  else inl (ENOENT d).

(** [mkdirSync(p, { recursive: true })]: every missing directory on the way
    to [p] is created; a file on the way makes it throw, and so does a NUL
    byte in [p]. *)
Fixpoint mkdir_from (m : gmap path node) (above : path) (todo : list string)
  : exn + gmap path node :=
  match todo with
  | [] => inr m
  | seg :: rest =>
      let d := (above ++ [seg])%list in
      match m !! d with
      | Some (File _) => inl (match rest with [] => EEXIST d | _ => ENOTDIR d end)
      | Some Dir => mkdir_from m d rest
      | None => mkdir_from (<[d := Dir]> m) d rest
      end
  end.

Definition mkdirSync (m : gmap path node) (p : path) : exn + gmap path node :=
  if has_nul p then inl (ERR_INVALID_ARG_VALUE p) else mkdir_from m [] p.

(** [JSON.stringify(v, null, indent)] *)
Definition JSON_stringify (v : json) (indent : nat) : content := JsonText indent v.

(** [JSON.parse(text)] *)
Definition JSON_parse (c : content) : exn + json :=
  match c with
  | JsonText _ v => inr v
  | RawText raw => inl (SyntaxError raw)
  end.

End Fs.
Export Fs.

(** ** The process: files, logger and console, and the monad over them *)

Module Runtime.

Inductive LogLevel : Type := DEBUG | INFO | WARN | ERROR | FATAL.

(** The numeric value of the enum member. *)
Definition level_value (l : LogLevel) : Z :=
  match l with DEBUG => 0 | INFO => 1 | WARN => 2 | ERROR => 3 | FATAL => 4 end.

(** One argument of a logger call. *)
Inductive logarg : Type :=
| LStr (s : string)
| LErr (e : exn)
| LIssues (issues : list issue).

(** One line on the console: a logger call that passed the level filter, or
    a direct [console.log]. *)
Inductive line : Type :=
| Logged (level : LogLevel) (args : list logarg)
| Printed (text : string).

Record world : Type := mkWorld {
  files : gmap path node;
  logLevel : LogLevel;
  console : list line
}.

Inductive res (A : Type) : Type :=
| Ok (a : A)
| Throw (e : exn).
Arguments Ok {A} a.
Arguments Throw {A} e.

(** A computation: it reads and changes the world and returns or throws. *)
Definition M (A : Type) : Type := world -> res A * world.

Definition ret {A} (a : A) : M A := fun w => (Ok a, w).

Definition throw {A} (e : exn) : M A := fun w => (Throw e, w).

Definition bind {A B} (c : M A) (k : A -> M B) : M B :=
  fun w => match c w with
           | (Ok a, w') => k a w'
           | (Throw e, w') => (Throw e, w')
           end.

(** [try { body } catch (error) { handler }] *)
Definition try_catch {A} (body : M A) (handler : exn -> M A) : M A :=
  fun w => match body w with
           | (Ok a, w') => (Ok a, w')
           | (Throw e, w') => handler e w'
           end.

Declare Scope js_scope.
Delimit Scope js_scope with js.
Notation "x <- c ;; k" := (bind c (fun x => k))
  (at level 100, c at next level, right associativity) : js_scope.
Notation "c ;;; k" := (bind c (fun _ => k))
  (at level 100, right associativity) : js_scope.

(** A call into [node:fs] that only reads. *)
Definition fs_read {A} (f : gmap path node -> exn + A) : M A :=
  fun w => match f (files w) with
           | inr a => (Ok a, w)
           | inl e => (Throw e, w)
           end.

(** A call into [node:fs] that changes the files. *)
Definition fs_write (f : gmap path node -> exn + gmap path node) : M unit :=
  fun w => match f (files w) with
           | inr m => (Ok tt, mkWorld m (logLevel w) (console w))
           | inl e => (Throw e, w)
           end.

(** Lifting of a pure step that may throw. *)
Definition lift {A} (r : exn + A) : M A :=
  match r with inr a => ret a | inl e => throw e end.

(** [ChalkLogger.shouldLog] *)
Definition shouldLog (level : LogLevel) (w : world) : bool :=
  level_value (logLevel w) <=? level_value level.

(** A logger method: the line reaches the console when the level passes
    (no log file is configured). *)
Definition log (level : LogLevel) (args : list logarg) : M unit :=
  fun w => if shouldLog level w
           then (Ok tt, mkWorld (files w) (logLevel w)
                                (console w ++ [Logged level args])%list)
           else (Ok tt, w).

(** [console.log(text)] *)
Definition console_log (text : string) : M unit :=
  fun w => (Ok tt, mkWorld (files w) (logLevel w) (console w ++ [Printed text])%list).

End Runtime.
Export Runtime.

(** ** Helpers shared by the store and the commands *)

Module Js.

(** [v.k] : the property, [None] for [undefined]; reading a property of
    [null] throws. Primitives and arrays have no property of the names used
    here ([name], [description]). *)
Definition member (v : json) (k : string) : exn + option json :=
  match v with
  | JNull => inl (TypeError ("Cannot read properties of null (reading '" ++ k ++ "')"))
  | JObj fields => inr (field k fields)
  | _ => inr None
  end.

(** [String(v)] as a step that may throw. *)
Definition ToString (v : json) : exn + string :=
  match to_string v with
  | Some s => inr s
  | None => inl (TypeError "Cannot convert object to primitive value")
  end.

(** A value inside a template literal. *)
Definition template (v : option json) : exn + string :=
  match v with
  | None => inr "undefined"
  | Some v => ToString v
  end.

(** [v || null] *)
Definition or_null (v : option json) : option json :=
  match v with
  | Some v => if truthy v then Some v else None
  | None => None
  end.

(** A path as the logger prints it. *)
Definition show_path (p : path) : string :=
  match p with
  | [] => "/"
  | _ => fold_left (fun acc seg => acc ++ "/" ++ seg) p ""
  end.

End Js.
Export Js.

(** ** [FileConfigManager] *)

Module ConfigManager.

Section FileConfigManager.

(** [this.configDir], resolved. *)
Variable configDir : path.

Local Open Scope js_scope.

(** [this.currentConfigFile = join(this.configDir, "current.json")] *)
Definition currentConfigFile : path := join configDir "current.json".

(** [existsSync(p)] as a step of a computation. *)
Definition existsSyncM (p : path) : M bool :=
  fun w => (Ok (existsSync (files w) p), w).

Definition ensureConfigDirExists : M unit :=
  b <- existsSyncM configDir ;;
  if negb b then
    fs_write (fun m => mkdirSync m configDir) ;;;
    log DEBUG [LStr ("Config directory created: " ++ show_path configDir)]
  else ret tt.

Definition ensureCurrentConfigFileExists : M unit :=
  b <- existsSyncM currentConfigFile ;;
  if negb b then
    fs_write (fun m => writeFileSync m currentConfigFile
                         (JSON_stringify (JObj [("name", JStr "")]) 0)) ;;;
    log DEBUG [LStr ("Current config file created: " ++ show_path currentConfigFile)]
  else ret tt.

(** The part of the constructor that touches the disk. *)
Definition constructor : M unit :=
  ensureConfigDirExists ;;;
  ensureCurrentConfigFileExists.

Definition getConfigFilePath (name : string) : path :=
  join configDir (name ++ ".json").

Definition getConfigDir : path := configDir.

Definition configExists (name : string) : M bool :=
  existsSyncM (getConfigFilePath name).

Definition listConfigs : M (list string) :=
  try_catch
    (names <- fs_read (fun m => readdirSync m configDir) ;;
     ret (map (fun file => JsString.replace file ".json" "")
              (List.filter
                 (fun file => JsString.endsWith file ".json"
                              && negb (String.eqb file "current.json"))
                 names)))
    (fun error =>
       log ERROR [LStr "Error listing configs:"; LErr error] ;;;
       ret []).

Definition getConfig (name : string) : M (option json) :=
  try_catch
    (let filePath := getConfigFilePath name in
     b <- existsSyncM filePath ;;
     if negb b then
       log DEBUG [LStr ("Config not found: " ++ name)] ;;;
       ret None
     else
       content <- fs_read (fun m => readFileSync m filePath) ;;
       parsed <- lift (JSON_parse content) ;;
       match safeParse parsed with
       | ParseFailure issues =>
           log ERROR [LStr ("Invalid config format for '" ++ name ++ "':");
                      LIssues issues] ;;;
           ret None
       | ParseSuccess _ => ret (Some parsed)
       end)
    (fun error =>
       log ERROR [LStr ("Error getting config '" ++ name ++ "':"); LErr error] ;;;
       ret None).

Definition saveConfig (config : json) : M bool :=
  try_catch
    (match safeParse config with
     | ParseFailure issues =>
         log ERROR [LStr "Invalid config data:"; LIssues issues] ;;;
         ret false
     | ParseSuccess _ =>
         name <- lift (member config "name") ;;
         name <- lift (template name) ;;
         let filePath := getConfigFilePath name in
         fs_write (fun m => writeFileSync m filePath (JSON_stringify config 2)) ;;;
         log DEBUG [LStr ("Config saved: " ++ name)] ;;;
         ret true
     end)
    (fun error =>
       name <- lift (member config "name") ;;
       name <- lift (template name) ;;
       log ERROR [LStr ("Error saving config '" ++ name ++ "':"); LErr error] ;;;
       ret false).

Definition getCurrentConfig : M (option json) :=
  try_catch
    (content <- fs_read (fun m => readFileSync m currentConfigFile) ;;
     current <- lift (JSON_parse content) ;;
     name <- lift (member current "name") ;;
     ret (or_null name))
    (fun error =>
       log ERROR [LStr "Error getting current config:"; LErr error] ;;;
       ret None).

Definition clearCurrentConfig : M unit :=
  try_catch
    (fs_write (fun m => writeFileSync m currentConfigFile
                          (JSON_stringify (JObj [("name", JStr "")]) 0)) ;;;
     log DEBUG [LStr "Current config cleared"])
    (fun error =>
       log ERROR [LStr "Error clearing current config:"; LErr error]).

Definition deleteConfig (name : string) : M bool :=
  try_catch
    (let filePath := getConfigFilePath name in
     b <- existsSyncM filePath ;;
     if negb b then
       log WARN [LStr ("Config not found: " ++ name)] ;;;
       ret false
     else
       fs_write (fun m => unlinkSync m filePath) ;;;
       log DEBUG [LStr ("Config deleted: " ++ name)] ;;;
       currentConfig <- getCurrentConfig ;;
       (if match currentConfig with
           | Some v => strict_eq_string v name
           | None => false
           end
        then clearCurrentConfig
        else ret tt) ;;;
       ret true)
    (fun error =>
       log ERROR [LStr ("Error deleting config '" ++ name ++ "':"); LErr error] ;;;
       ret false).

(** [getCurrentConfig] returns [null] or a truthy value, so [!currentName]
    is the [None] case. The name reaches [getConfig] through its template
    literals, as a string; when it has no string form the first literal
    throws inside the [try] and the literal of the [catch] block throws
    again, so the error leaves [getConfig] before anything is logged. *)
Definition getCurrentConfigData : M (option json) :=
  currentName <- getCurrentConfig ;;
  match currentName with
  | None => ret None
  | Some v =>
      name <- lift (ToString v) ;;
      getConfig name
  end.

Definition setCurrentConfig (name : string) : M bool :=
  try_catch
    (b <- configExists name ;;
     if negb b then
       log WARN [LStr ("Config not found: " ++ name)] ;;;
       ret false
     else
       fs_write (fun m => writeFileSync m currentConfigFile
                            (JSON_stringify (JObj [("name", JStr name)]) 0)) ;;;
       log DEBUG [LStr ("Current config set: " ++ name)] ;;;
       ret true)
    (fun error =>
       log ERROR [LStr ("Error setting current config '" ++ name ++ "':");
                  LErr error] ;;;
       ret false).

End FileConfigManager.

End ConfigManager.
Export ConfigManager.

(** ** The [config current] command *)

Module Commands.

Section Current.

Variable configDir : path.

Local Open Scope js_scope.

(** [config.appName] *)
Definition appName : string := "Test CLI".

Definition displayCurrentConfigDetails (configData : json) : M unit :=
  description <- lift (member configData "description") ;;
  match or_null description with
  | Some d =>
      text <- lift (ToString d) ;;
      console_log ("   📝 " ++ text)
  | None => ret tt
  end.

(** The body of [showCurrentConfig]; it awaits nothing, so the promise it
    returns resolves when the body returns and rejects when it throws. The
    active name is turned into a string inside [getConfig], as in
    [getCurrentConfigData]. *)
Definition showCurrentConfig : M unit :=
  currentConfigName <- getCurrentConfig configDir ;;
  match currentConfigName with
  | None =>
      log WARN [LStr "No active configuration"] ;;;
      log INFO [LStr ("Use '" ++ appName
                      ++ " config list' to see available configurations")] ;;;
      log INFO [LStr ("Use '" ++ appName ++ " config use <name>' to activate one")]
  | Some v =>
      currentName <- lift (ToString v) ;;
      configData <- getConfig configDir currentName ;;
      match configData with
      | None =>
          log ERROR [LStr ("Error: active configuration '" ++ currentName
                           ++ "' not found")] ;;;
          log DEBUG [LStr ("Current config '" ++ currentName
                           ++ "' exists in current.json but file not found")]
      | Some data =>
          log INFO [LStr ("🎯 Active configuration" ++ String "010" "")] ;;;
          name <- lift (member data "name") ;;
          name <- lift (template name) ;;
          console_log ("● " ++ name) ;;;
          displayCurrentConfigDetails data ;;;
          log DEBUG [LStr (String "010" "📁 Location: "
                           ++ show_path (getConfigDir configDir))]
      end
  end.

End Current.

End Commands.
Export Commands.

(** ** JavaScript numbers *)

Module JsNumber.

(** A number: a finite value, an infinity or [NaN]. A finite value stands
    for a double. The operations below are those the code applies; on
    doubles they are exact (a double times a power of two is a double unless
    it overflows), so no rounding is modelled. The sign of zero is not
    modelled either. *)
Inductive number : Type :=
| NaN
| NegInfinity
| Finite (q : Q)
| Infinity.

Definition of_Z (n : Z) : number := Finite (inject_Z n).

(** [2^1024]: a result of this magnitude or more is infinite. *)
Definition two_1024 : Q := inject_Z (2 ^ 1024).

(** A finite result, unless it is too large for a double. *)
Definition overflow (q : Q) : number :=
  if Qle_bool two_1024 q then Infinity
  else if Qle_bool q (- two_1024) then NegInfinity
  else Finite q.

(** [2 ** n] for an integer [n]. *)
Definition pow2 (n : Z) : number :=
  if 1024 <=? n then Infinity
  else if n <? -1074 then Finite 0
  else Finite (2 ^ n)%Q.

(** The infinity with the sign of [q]; [0 * Infinity] is [NaN]. *)
Definition signed_infinity (q : Q) : number :=
  if Qeq_bool q 0 then NaN
  else if Qle_bool q 0 then NegInfinity
  else Infinity.

(** [x * y], as far as [retry] needs it: one factor is a power of two or
    infinite, so that the product of two doubles is exact when it is
    finite. *)
Definition mul (x y : number) : number :=
  match x, y with
  | NaN, _ | _, NaN => NaN
  | Finite p, Finite q => overflow (p * q)
  | Finite p, Infinity | Infinity, Finite p => signed_infinity p
  | Finite p, NegInfinity | NegInfinity, Finite p => signed_infinity (- p)
  | Infinity, Infinity | NegInfinity, NegInfinity => Infinity
  | Infinity, NegInfinity | NegInfinity, Infinity => NegInfinity
  end.

(** The smaller of two finite values. *)
Definition qmin (p q : Q) : Q := if Qle_bool p q then p else q.

(** [Math.min(x, y)] *)
Definition min (x y : number) : number :=
  match x, y with
  | NaN, _ | _, NaN => NaN
  | NegInfinity, _ | _, NegInfinity => NegInfinity
  | Infinity, z | z, Infinity => z
  | Finite p, Finite q => Finite (qmin p q)
  end.

(** [k <= x] for an integer [k]. *)
Definition le_int (k : Z) (x : number) : bool :=
  match x with
  | Finite q => Qle_bool (inject_Z k) q
  | Infinity => true
  | NaN | NegInfinity => false
  end.

(** [k === x] for an integer [k]. *)
Definition eq_int (k : Z) (x : number) : bool :=
  match x with
  | Finite q => Qeq_bool (inject_Z k) q
  | _ => false
  end.

(** [x] is the integer [n]. *)
Definition is_integer (x : number) (n : Z) : Prop :=
  match x with
  | Finite q => (q == inject_Z n)%Q
  | _ => False
  end.

End JsNumber.
Export JsNumber.

(** ** [retry] ([src/utils/timeout.ts]) *)

Module Retry.

Section RetryLoop.

(** [T]: what [fn] resolves with; [E]: what can be thrown; [S]: the state
    [fn] and the callback act on. *)
Variables T E S : Type.

(** What the run did, in order: an invocation of [fn] with how it settled,
    a call of [onRetry], a [delay(ms)]. *)
Inductive event : Type :=
| Called (attempt : Z) (outcome : E + T)
| Notified (attempt : Z) (error : E)
| Slept (ms : number).

(** How the returned promise settles; [Rejected None] is a rejection with
    [undefined], the initial value of [lastError]. *)
Inductive settled : Type :=
| Resolved (value : T)
| Rejected (reason : option E).

(** [options]; an absent key is [None]. The callback returns [None] when it
    returns normally and [Some e] when it throws [e]. *)
Record RetryOptions : Type := mkOptions {
  maxAttempts : option number;
  baseDelay : option number;
  maxDelay : option number;
  onRetry : option (Z -> E -> S -> option E * S)
}.

(** [Math.min(baseDelay * 2 ** (attempt - 1), maxDelay)], the delay computed
    after the failure of [attempt]. *)
Definition delayMs (baseDelay maxDelay : number) (attempt : Z) : number :=
  min (mul baseDelay (pow2 (attempt - 1))) maxDelay.

(** The [for] loop from [attempt] on, and the [throw lastError] after it.
    The counter [attempt] is an exact integer (runs of 2^53 attempts, where
    [attempt++] stops counting, are out of reach). [fuel] is the number of
    iterations the model follows; [None] means that the loop was still
    running when it ran out. *)
Fixpoint retry_loop (fn : S -> (E + T) * S)
    (maxAttempts baseDelay maxDelay : number)
    (onRetry : option (Z -> E -> S -> option E * S))
    (fuel : nat) (attempt : Z) (lastError : option E) (s : S)
    (trace : list event) : option (settled * S * list event) :=
  if negb (le_int attempt maxAttempts) then Some (Rejected lastError, s, trace)
  else
    match fuel with
    | O => None
    | Datatypes.S fuel' =>
        let (outcome, s1) := fn s in
        let trace1 := (trace ++ [Called attempt outcome])%list in
        match outcome with
        | inr value => Some (Resolved value, s1, trace1)
        | inl error =>
            if eq_int attempt maxAttempts
            then Some (Rejected (Some error), s1, trace1)
            else
              let ms := delayMs baseDelay maxDelay attempt in
              match onRetry with
              | Some callback =>
                  match callback attempt error s1 with
                  | (Some thrown, s2) =>
                      Some (Rejected (Some thrown), s2,
                            (trace1 ++ [Notified attempt error])%list)
                  | (None, s2) =>
                      retry_loop fn maxAttempts baseDelay maxDelay onRetry fuel'
                        (attempt + 1) (Some error) s2
                        (trace1 ++ [Notified attempt error; Slept ms])%list
                  end
              | None =>
                  retry_loop fn maxAttempts baseDelay maxDelay onRetry fuel'
                    (attempt + 1) (Some error) s1 (trace1 ++ [Slept ms])%list
              end
        end
    end.

(** [retry(fn, options)] with the defaults of the destructuring, followed
    for [fuel] iterations. *)
Definition retry (fuel : nat) (fn : S -> (E + T) * S) (options : RetryOptions)
    (s : S) : option (settled * S * list event) :=
  let maxAttempts := default (of_Z 3) (maxAttempts options) in
  let baseDelay := default (of_Z 1000) (baseDelay options) in
  let maxDelay := default (of_Z 10000) (maxDelay options) in
  retry_loop fn maxAttempts baseDelay maxDelay (onRetry options) fuel 1 None s [].

(** The attempts for which [onRetry] was called. *)
Definition notifications (trace : list event) : list Z :=
  omap (fun ev => match ev with Notified k _ => Some k | _ => None end) trace.

(** The delays that were waited, in order. *)
Definition delays (trace : list event) : list number :=
  omap (fun ev => match ev with Slept ms => Some ms | _ => None end) trace.

(** The invocations of [fn], in order, with how each settled. *)
Definition invocations (trace : list event) : list (Z * (E + T)) :=
  omap (fun ev => match ev with Called k o => Some (k, o) | _ => None end) trace.

(** The events of failed attempts [attempt, attempt + 1, ...], one per
    error of [errors], each followed by the callback (when [notify]) and
    the delay. *)
Fixpoint failed_rounds (baseDelay maxDelay : number) (notify : bool) (attempt : Z)
    (errors : list E) : list event :=
  match errors with
  | [] => []
  | error :: rest =>
      (Called attempt (inl error)
       :: (if notify then [Notified attempt error] else [])
       ++ Slept (delayMs baseDelay maxDelay attempt)
       :: failed_rounds baseDelay maxDelay notify (attempt + 1) rest)%list
  end.

(** The promise settles with the outcome of invocation [n] of [fn], the
    last one: it resolves with its value, or it rejects with its error and
    not with something the callback threw. *)
Definition settles_on_attempt (out : settled) (trace : list event) (n : Z) : Prop :=
  match last (invocations trace) with
  | Some (k, o) =>
      k = n
      /\ (forall j x, last trace <> Some (Notified j x))
      /\ out = match o with
               | inr value => Resolved value
               | inl error => Rejected (Some error)
               end
  | None => False
  end.

(** How a run of the loop from [attempt] on ends at attempt [n], after the
    failed rounds for [errors]: the loop condition fails, or [fn] succeeds,
    or [fn] fails on the attempt that equals [maxAttempts], or the callback
    throws. *)
Definition ending (fn : S -> (E + T) * S)
    (maxAttempts baseDelay maxDelay : number)
    (onRetry : option (Z -> E -> S -> option E * S))
    (attempt : Z) (lastError : option E) (s : S) (trace : list event)
    (out : settled) (s' : S) (trace' : list event)
    (n : Z) (errors : list E) : Prop :=
  let rounds :=
    failed_rounds baseDelay maxDelay
      (match onRetry with Some _ => true | None => false end) attempt errors in
  (le_int n maxAttempts = false
   /\ out = Rejected (from_option Some lastError (last errors))
   /\ (errors = [] -> s' = s)
   /\ trace' = (trace ++ rounds)%list)
  \/ (le_int n maxAttempts = true
      /\ exists value s0,
           fn s0 = (inr value, s')
           /\ out = Resolved value
           /\ trace' = (trace ++ rounds ++ [Called n (inr value)])%list)
  \/ (le_int n maxAttempts = true /\ eq_int n maxAttempts = true
      /\ exists error,
           out = Rejected (Some error)
           /\ trace' = (trace ++ rounds ++ [Called n (inl error)])%list)
  \/ (le_int n maxAttempts = true /\ eq_int n maxAttempts = false
      /\ exists error thrown callback s1,
           onRetry = Some callback
           /\ callback n error s1 = (Some thrown, s')
           /\ out = Rejected (Some thrown)
           /\ trace' = (trace ++ rounds
                        ++ [Called n (inl error); Notified n error])%list).


(** [fn] fails whenever it is invoked. *)
Definition always_fails (fn : S -> (E + T) * S) : Prop :=
  forall s, exists error s', fn s = (inl error, s').

(** The callback, when there is one, returns normally. *)
Definition callback_returns
    (onRetry : option (Z -> E -> S -> option E * S)) : Prop :=
  forall callback, onRetry = Some callback ->
                   forall k error s, fst (callback k error s) = None.

End RetryLoop.

Arguments Called {T E} attempt outcome.
Arguments Notified {T E} attempt error.
Arguments Slept {T E} ms.
Arguments Resolved {T E} value.
Arguments Rejected {T E} reason.
Arguments mkOptions {E S} _ _ _ _.
Arguments maxAttempts {E S} _.
Arguments baseDelay {E S} _.
Arguments maxDelay {E S} _.
Arguments onRetry {E S} _.
Arguments retry_loop {T E S} fn _ _ _ _ fuel attempt lastError s trace.
Arguments retry {T E S} fuel fn options s.
Arguments notifications {T E} trace.
Arguments delays {T E} trace.
Arguments invocations {T E} trace.
Arguments failed_rounds {T E} baseDelay maxDelay notify attempt errors.
Arguments settles_on_attempt {T E} out trace n.
Arguments ending {T E S} fn maxAttempts baseDelay maxDelay onRetry attempt lastError
  s trace out s' trace' n errors.
Arguments always_fails {T E S} fn.
Arguments callback_returns {E S} onRetry.

End Retry.
Export Retry.

(** ** [withTimeout] ([src/utils/timeout.ts]) *)

Module Race.

Section WithTimeout.

(** [T]: what the wrapped promise resolves with; [E]: what a promise can
    be rejected with. *)
Variables T E : Type.

(** How a promise is settled. *)
Inductive outcome : Type :=
| Fulfilled (value : T)
| Failed (reason : E).

(** A promise as [withTimeout] meets it: settled at some time, counted in
    milliseconds from the call (zero or less when it is settled already),
    or never settled. *)
Inductive promise : Type :=
| Settles (at_ : Q) (how : outcome)
| Pending.

(** The delay [setTimeout(f, ms)] uses: [ms] without its fraction, and 1
    when [ms] is below 1, above [2^31 - 1] or [NaN]. *)
Definition timer_delay (ms : number) : Z :=
  match ms with
  | Finite q =>
      if Qle_bool 1 q && Qle_bool q (inject_Z 2147483647) then Qfloor q else 1
  | NaN | NegInfinity | Infinity => 1
  end.

(** [Promise.race([p, q])]: it settles as the first of the two that
    settles; [p], first in the array, wins a tie. *)
Definition race (p q : promise) : promise :=
  match p, q with
  | Pending, _ => q
  | Settles _ _, Pending => p
  | Settles t _, Settles u _ => if Qle_bool t u then p else q
  end.

(** [p.finally(f)] for an [f] that returns normally, as [clearTimeout]
    does: the result settles as [p]. *)
Definition finally (p : promise) : promise := p.

(** [new Error("Operation timed out")], the default of [timeoutError]. *)
Variable operationTimedOut : E.

Definition withTimeout (promise_ : promise) (ms : number)
    (timeoutError : option E) : promise :=
  let timeoutError := default operationTimedOut timeoutError in
  let timeoutPromise :=
    Settles (inject_Z (timer_delay ms)) (Failed timeoutError) in
  finally (race promise_ timeoutPromise).

End WithTimeout.

Arguments Fulfilled {T E} value.
Arguments Failed {T E} reason.
Arguments Settles {T E} at_ how.
Arguments Pending {T E}.
Arguments race {T E} p q.
Arguments finally {T E} p.
Arguments withTimeout {T E} operationTimedOut promise_ ms timeoutError.

End Race.
Export Race.

(** ** What the files say, without running anything

    Two read-only views of the disk, used to state what the operations
    return and to relate the state before a call to the state after it. *)

Module View.

(** The record [getConfig] finds at path [p]: the parsed content of the
    file there when it passes the schema. *)
Definition stored_record (m : gmap path node) (p : path) : option json :=
  match readFileSync m p with
  | inr c =>
      match JSON_parse c with
      | inr v => if success (safeParse v) then Some v else None
      | inl _ => None
      end
  | inl _ => None
  end.

(** The name [getCurrentConfig] reads from the pointer file at [p]. *)
Definition active_name (m : gmap path node) (p : path) : option json :=
  match readFileSync m p with
  | inr c =>
      match JSON_parse c with
      | inr v => match member v "name" with
                 | inr n => or_null n
                 | inl _ => None
                 end
      | inl _ => None
      end
  | inl _ => None
  end.

(** Whether [writeFileSync(p, ...)] can succeed on [m]; the content written
    plays no part. *)
Definition writable (m : gmap path node) (p : path) : bool :=
  match writeFileSync m p (RawText "") with
  | inr _ => true
  | inl _ => false
  end.

(** What [saveConfig(config)] returns and leaves on a disk [m]. *)
Definition save_effect (configDir : path) (config : json) (m : gmap path node)
  : bool * gmap path node :=
  if success (safeParse config) then
    match member config "name" with
    | inr (Some (JStr name)) =>
        match writeFileSync m (getConfigFilePath configDir name)
                (JSON_stringify config 2) with
        | inr m' => (true, m')
        | inl _ => (false, m)
        end
    | _ => (false, m)
    end
  else (false, m).

(** What [setCurrentConfig(name)] returns and leaves on a disk [m]. *)
Definition activate_effect (configDir : path) (name : string)
    (m : gmap path node) : bool * gmap path node :=
  if existsSync m (getConfigFilePath configDir name) then
    match writeFileSync m (currentConfigFile configDir)
            (JSON_stringify (JObj [("name", JStr name)]) 0) with
    | inr m' => (true, m')
    | inl _ => (false, m)
    end
  else (false, m).

(** What [deleteConfig(name)] returns and leaves on a disk [m]. *)
Definition delete_effect (configDir : path) (name : string)
    (m : gmap path node) : bool * gmap path node :=
  if existsSync m (getConfigFilePath configDir name) then
    match unlinkSync m (getConfigFilePath configDir name) with
    | inr m1 =>
        (true,
         if match active_name m1 (currentConfigFile configDir) with
            | Some v => strict_eq_string v name
            | None => false
            end
         then match writeFileSync m1 (currentConfigFile configDir)
                      (JSON_stringify (JObj [("name", JStr "")]) 0) with
              | inr m2 => m2
              | inl _ => m1
              end
         else m1)
    | inl _ => (false, m)
    end
  else (false, m).

(** The names [listConfigs()] returns on a disk [m]. *)
Definition listed_names (configDir : path) (m : gmap path node) : list string :=
  match readdirSync m configDir with
  | inr names =>
      map (fun file => JsString.replace file ".json" "")
        (List.filter
           (fun file => JsString.endsWith file ".json"
                        && negb (String.eqb file "current.json"))
           names)
  | inl _ => []
  end.

(** A disk as disks are: whatever exists lies in a directory. *)
Definition well_formed (m : gmap path node) : Prop :=
  forall p x, m !! p = Some x -> is_dir m (dirname p) = true.

(** A computation returns normally on [w]. *)
Definition returns {A : Type} (c : M A) (w : world) : Prop :=
  exists a, fst (c w) = Ok a.

End View.
Export View.

(** ** A concrete installation, for examples *)

Module Example.

(** [join(homedir(), ".test-cli", "configs")] for the user [user]. *)
Definition dir : path := ["home"; "user"; ".test-cli"; "configs"].

(** An empty disk, logger at its default level. *)
Definition blank : world := mkWorld ∅ INFO [].

(** The world right after [new FileConfigManager()] on the blank disk. *)
Definition fresh : world := snd (constructor dir blank).

End Example.

(** ** The other commands of [config]: [use], [list], [delete], [create] *)

Module UseCommand.

Section Use.

Variable configDir : path.

Local Open Scope js_scope.

Definition displayConfigSummary (configData : json) : M unit :=
  description <- lift (member configData "description") ;;
  match or_null description with
  | Some d =>
      text <- lift (ToString d) ;;
      log DEBUG [LStr ("📝 " ++ text)]
  | None => ret tt
  end.

(** The body of [useConfig(name)]. The name is tested trimmed and used as
    it was given. *)
Definition useConfig (name : string) : M unit :=
  if String.eqb (JsString.trim name) "" then
    log ERROR [LStr "You must specify a configuration name"] ;;;
    log INFO [LStr ("Usage: " ++ appName ++ " config use <name>")]
  else
    configData <- getConfig configDir name ;;
    match configData with
    | None =>
        log ERROR [LStr ("Configuration '" ++ name ++ "' not found")] ;;;
        log INFO [LStr ("Use '" ++ appName
                        ++ " config list' to see available configurations")]
    | Some data =>
        success <- setCurrentConfig configDir name ;;
        if success : bool then
          log INFO [LStr ("Configuration '" ++ name ++ "' set as active")] ;;;
          displayConfigSummary data ;;;
          log DEBUG [LStr ("Configuration '" ++ name ++ "' activated")]
        else
          log ERROR [LStr ("Failed to set configuration '" ++ name ++ "' as active")]
    end.

End Use.

End UseCommand.

Module ListCommand.

Section List.

Variable configDir : path.

Local Open Scope js_scope.

Definition displayConfigDetails (configData : json) : M unit :=
  description <- lift (member configData "description") ;;
  match or_null description with
  | Some d =>
      text <- lift (ToString d) ;;
      console_log ("   📝 " ++ text)
  | None => ret tt
  end.

(** [for (const x of l) { body }] *)
Fixpoint for_of {A : Type} (l : list A) (body : A -> M unit) : M unit :=
  match l with
  | [] => ret tt
  | x :: rest => body x ;;; for_of rest body
  end.

(** [configName === currentConfigName] *)
Definition is_active (configName : string) (currentConfigName : option json) : bool :=
  match currentConfigName with
  | Some v => strict_eq_string v configName
  | None => false
  end.

(** The body of the command [listConfigs()]. *)
Definition listConfigs : M unit :=
  log INFO [LStr ("📋 Available configurations" ++ String "010" "")] ;;;
  configs <- ConfigManager.listConfigs configDir ;;
  currentConfigName <- getCurrentConfig configDir ;;
  match configs with
  | [] =>
      log WARN [LStr "No configurations found"] ;;;
      log INFO [LStr ("Use '" ++ appName ++ " config create' to create one")]
  | _ =>
      for_of configs
        (fun configName =>
           configData <- getConfig configDir configName ;;
           let isActive := is_active configName currentConfigName in
           match configData with
           | Some data =>
               let status := if isActive then "● ACTIVE" else "○" in
               console_log (status ++ " " ++ configName) ;;;
               displayConfigDetails data ;;;
               console_log ""
           | None =>
               log WARN [LStr ("Failed to load config: " ++ configName)]
           end) ;;;
      (match currentConfigName with
       | None =>
           log WARN [LStr "No active configuration"] ;;;
           log INFO [LStr ("Use '" ++ appName ++ " config use <name>' to activate one")]
       | Some _ => ret tt
       end) ;;;
      log DEBUG [LStr ("📁 Location: " ++ show_path (getConfigDir configDir))]
  end.

End List.

End ListCommand.

Module DeleteCommand.

Section Delete.

Variable configDir : path.

(** The two prompts: what the user picks from the list, and the answer to
    the confirmation; either may be rejected (the prompt is closed). *)
Variable selectConfigToDelete : list string -> exn + string.
Variable confirmDeletion : string -> exn + bool.

Local Open Scope js_scope.

(** After the confirmation: the deletion itself and its report. *)
Definition delete_confirmed (configs : list string) (configToDelete : string)
  : M unit :=
  success <- ConfigManager.deleteConfig configDir configToDelete ;;
  if success : bool then
    log INFO [LStr ("Configuration '" ++ configToDelete
                    ++ "' deleted successfully")] ;;;
    currentConfig <- getCurrentConfig configDir ;;
    match currentConfig with
    | None =>
        log WARN [LStr "No active configuration now"] ;;;
        if (1 <? length configs)%nat then
          log INFO [LStr ("Use '" ++ appName
                          ++ " config use <name>' to activate another")]
        else ret tt
    | Some _ => ret tt
    end
  else
    log ERROR [LStr ("Failed to delete configuration '" ++ configToDelete ++ "'")].

(** From the second [if (!configToDelete)] on. *)
Definition delete_chosen (configs : list string) (configToDelete : string)
  : M unit :=
  if String.eqb configToDelete "" then
    log ERROR [LStr "No configuration specified for deletion"]
  else
    configData <- getConfig configDir configToDelete ;;
    match configData with
    | None => log ERROR [LStr ("Configuration '" ++ configToDelete ++ "' not found")]
    | Some _ =>
        confirmed <- lift (confirmDeletion configToDelete) ;;
        if negb confirmed then log DEBUG [LStr "Operation cancelled"]
        else delete_confirmed configs configToDelete
    end.

(** The body of the command [deleteConfig(name?)]. *)
Definition deleteConfig (name : option string) : M unit :=
  configs <- ConfigManager.listConfigs configDir ;;
  match configs with
  | [] => log WARN [LStr "No configurations to delete"]
  | _ =>
      match JsString.trim <$> name with
      | Some (String c rest) => delete_chosen configs (String c rest)
      | _ =>
          chosen <- try_catch
                      (picked <- lift (selectConfigToDelete configs) ;;
                       ret (Some picked))
                      (fun _ =>
                         log DEBUG [LStr "Operation cancelled"] ;;;
                         ret None) ;;
          match chosen with
          | Some picked => delete_chosen configs picked
          | None => ret tt
          end
      end
  end.

End Delete.

End DeleteCommand.

Module CreateCommand.

Section Create.

Variable configDir : path.

(** What the prompts of [promptConfigDetails] give back. *)
Record Answers : Type := mkAnswers {
  name : string;
  description : option string;
  setAsCurrent : bool
}.

(** The prompt as a whole: the answers, or a rejection. *)
Variable promptConfigDetails : exn + Answers.

Local Open Scope js_scope.

(** What a [validate] function of a prompt returns: [true] or a message. *)
Inductive validation : Type :=
| Accepted
| Refused (message : string).

Definition validateConfigName (input : string) : M validation :=
  let trimmedInput := JsString.trim input in
  if String.eqb trimmedInput "" then ret (Refused "Configuration name is required")
  else
    configs <- ConfigManager.listConfigs configDir ;;
    if existsb (String.eqb trimmedInput) configs
    then ret (Refused "A configuration with that name already exists")
    else ret Accepted.

(** The body of [createConfig()]. *)
Definition createConfig : M unit :=
  log INFO [LStr ("🔧 Create new configuration" ++ String "010" "")] ;;;
  try_catch
    (answers <- lift promptConfigDetails ;;
     let config_name := JsString.trim (name answers) in
     let config := AppConfig config_name (JsString.trim <$> description answers) in
     saved <- saveConfig configDir config ;;
     if negb saved then log ERROR [LStr "Failed to save configuration"]
     else
       log INFO [LStr ("Configuration '" ++ config_name
                       ++ "' created successfully")] ;;;
       (if setAsCurrent answers then
          activated <- setCurrentConfig configDir config_name ;;
          if activated : bool then
            log INFO [LStr ("Configuration '" ++ config_name ++ "' set as active")]
          else
            log WARN [LStr "Configuration created but failed to set as active"]
        else ret tt) ;;;
       log DEBUG [LStr ("📁 Saved in: " ++ show_path (getConfigDir configDir))])
    (fun error =>
       log ERROR [LStr "Error creating configuration"] ;;;
       log DEBUG [LStr "Error details:"; LErr error]).

End Create.

End CreateCommand.

(** ** [getVersion] ([src/utils/version.ts]) *)

Module Version.

Section GetVersion.

(** [__dirname] of the module. *)
Variable dirname_ : path.

Local Open Scope js_scope.

(** [getVersion()]; the result is [packageJson.version] as it is when it is
    truthy. *)
Definition getVersion : M json :=
  try_catch
    (let packageJsonPath := join dirname_ "../../package.json" in
     content <- fs_read (fun m => readFileSync m packageJsonPath) ;;
     packageJson <- lift (JSON_parse content) ;;
     version <- lift (member packageJson "version") ;;
     ret (match or_null version with
          | Some v => v
          | None => JStr "unknown"
          end))
    (fun error =>
       log ERROR [LStr "Failed to read version from package.json:"; LErr error] ;;;
       ret (JStr "unknown")).

End GetVersion.

End Version.

(** * Properties *)

(** ** The model at work *)

Example fresh_store_files :
  map_to_list (files Example.fresh)
  ≡ₚ [(["home"], Dir); (["home"; "user"], Dir);
      (["home"; "user"; ".test-cli"], Dir);
      (Example.dir, Dir);
      (currentConfigFile Example.dir,
       File (JSON_stringify (JObj [("name", JStr "")]) 0))].
Proof. vm_compute. solve_Permutation. Qed.

Example join_normalises :
  join Example.dir "dev.json" = (Example.dir ++ ["dev.json"])%list
  /\ join Example.dir "a/b.json" = (Example.dir ++ ["a"; "b.json"])%list
  /\ join Example.dir "./current.json" = currentConfigFile Example.dir
  /\ join Example.dir "../x.json" = ["home"; "user"; ".test-cli"; "x.json"].
Proof. repeat split; reflexivity. Qed.

Example listConfigs_hides_the_pointer :
  fst (listConfigs Example.dir
         (snd (saveConfig Example.dir (AppConfig "prod" (Some "live"))
                 (snd (saveConfig Example.dir (AppConfig "dev" None)
                         Example.fresh)))))
  = Ok ["dev"; "prod"].
Proof. vm_compute. reflexivity. Qed.

(** A name with a NUL byte cannot be saved: [writeFileSync] refuses the
    path and [saveConfig] turns that into [false]. *)
Example nul_name_is_not_saved :
  let name := "a" ++ String "000" "b" in
  success (safeParse (AppConfig name None)) = true
  /\ fst (saveConfig Example.dir (AppConfig name None) Example.fresh) = Ok false
  /\ writable (files Example.fresh) (getConfigFilePath Example.dir name) = false.
Proof. vm_compute. repeat split; reflexivity. Qed.

(** The pointer file answers for the name [current]: on a fresh store no
    record of that name can be read, yet it "exists" and can be made the
    active one. *)
Example pointer_file_answers_for_current :
  fst (configExists Example.dir "current" Example.fresh) = Ok true
  /\ fst (getConfig Example.dir "current" Example.fresh) = Ok None
  /\ fst (setCurrentConfig Example.dir "current" Example.fresh) = Ok true.
Proof. vm_compute. repeat split; reflexivity. Qed.

(** ** The schema *)

Section SchemaFacts.

Lemma name_issues_nil (s : string) :
  name_issues s = [] <-> (1 <= String.length s <= 50)%nat.
Proof.
  unfold name_issues.
  destruct (Nat.ltb_spec (String.length s) 1);
    destruct (Nat.ltb_spec 50 (String.length s)); simpl;
    split; intros; try discriminate; try lia; reflexivity.
Qed.

Lemma safeParse_success_inv (v : json) :
  success (safeParse v) = true ->
  exists fields s,
    v = JObj fields /\ field "name" fields = Some (JStr s)
    /\ (1 <= String.length s <= 50)%nat
    /\ check_description (field "description" fields) = [].
Proof.
  destruct v as [| | | |items|fields]; simpl; try discriminate.
  unfold check_name.
  destruct (field "name" fields) as [[| | |s| |]|] eqn:Hn; simpl; try discriminate.
  destruct (name_issues s) eqn:Hs; simpl; [|discriminate].
  destruct (check_description (field "description" fields)) eqn:Hd; simpl;
    [|discriminate].
  intros _. exists fields, s. apply name_issues_nil in Hs.
  repeat split; auto; lia.
Qed.

Lemma safeParse_success_intro (fields : list (string * json)) (s : string) :
  field "name" fields = Some (JStr s) ->
  (1 <= String.length s <= 50)%nat ->
  check_description (field "description" fields) = [] ->
  safeParse (JObj fields) = ParseSuccess (strip fields).
Proof.
  intros Hn Hlen Hd. simpl. rewrite Hn, Hd. simpl.
  apply name_issues_nil in Hlen. rewrite Hlen. reflexivity.
Qed.

Lemma safeParse_cases (v : json) :
  (exists d, safeParse v = ParseSuccess d /\ success (safeParse v) = true)
  \/ (exists issues, safeParse v = ParseFailure issues).
Proof.
  destruct (safeParse v) as [d|issues]; [left|right]; eauto.
Qed.

End SchemaFacts.

(** C7. The name rule of the schema: a record whose name is empty or longer
    than 50 characters fails validation, whatever else it holds, and the
    issue raised is the one the schema names; a name of 1 to 50 characters
    raises no issue, and the record [{ name }] or [{ name, description }]
    with such a name validates. *)
Theorem C7_name_rule (s : string) :
  (s = "" ->
     name_issues s = [TooSmall ["name"] "Configuration name is required"]
     /\ forall fields, field "name" fields = Some (JStr s) ->
          success (safeParse (JObj fields)) = false)
  /\ ((50 < String.length s)%nat ->
        name_issues s = [TooBig ["name"] "Name too long"]
        /\ forall fields, field "name" fields = Some (JStr s) ->
             success (safeParse (JObj fields)) = false)
  /\ ((1 <= String.length s <= 50)%nat ->
        name_issues s = []
        /\ forall description,
             success (safeParse (AppConfig s description)) = true).
Proof.
  split; [|split].
  - intros ->. split; [reflexivity|].
    intros fields Hn. simpl. rewrite Hn. reflexivity.
  - intros Hlen.
    assert (Hi : name_issues s = [TooBig ["name"] "Name too long"]).
    { unfold name_issues.
      destruct (Nat.ltb_spec (String.length s) 1); [lia|].
      destruct (Nat.ltb_spec 50 (String.length s)); [reflexivity|lia]. }
    split; [exact Hi|].
    intros fields Hn. simpl. rewrite Hn. simpl. rewrite Hi. reflexivity.
  - intros Hlen.
    assert (Hi : name_issues s = []) by (apply name_issues_nil; exact Hlen).
    split; [exact Hi|].
    intros [d|]; simpl; rewrite Hi; reflexivity.
Qed.

Lemma C7_name_rule_witness :
  (success (safeParse (JObj [("name", JStr "")])) = false)
  /\ (success (safeParse (AppConfig "test-config" (Some "Test configuration"))) = true).
Proof.
  split.
  - apply (proj1 (C7_name_rule "")); reflexivity.
  - apply (proj2 (proj2 (C7_name_rule "test-config"))). simpl. lia.
Defined.

(** ** The file system *)

Section FsFacts.

Implicit Types (m : gmap path node) (p : path) (c : content).

Lemma writeFileSync_inr m p c m' :
  writeFileSync m p c = inr m' -> p <> [] /\ m' = <[p := File c]> m.
Proof.
  unfold writeFileSync. destruct p as [|seg p']; [discriminate|].
  destruct (m !! (seg :: p')) as [[c0|]|]; try discriminate.
  - intros [= <-]. split; [discriminate|reflexivity].
  - destruct (has_nul _); [discriminate|].
    destruct (is_dir m _); [|destruct (existsSync m _); discriminate].
    intros [= <-]. split; [discriminate|reflexivity].
Qed.

Lemma writeFileSync_over_file m p c c0 :
  p <> [] -> m !! p = Some (File c0) ->
  writeFileSync m p c = inr (<[p := File c]> m).
Proof.
  intros Hp Hm. unfold writeFileSync. destruct p; [congruence|].
  rewrite Hm. reflexivity.
Qed.

(** No write puts a name with a NUL byte on the disk. *)
Lemma writeFileSync_no_nul m p c m' :
  (forall q x, m !! q = Some x -> has_nul q = false) ->
  writeFileSync m p c = inr m' ->
  forall q x, m' !! q = Some x -> has_nul q = false.
Proof.
  intros Hclean Hwrite q x Hq.
  assert (Hp : has_nul p = false).
  { unfold writeFileSync in Hwrite. destruct p as [|seg p']; [discriminate|].
    destruct (m !! (seg :: p')) as [[c0|]|] eqn:Hm; try discriminate.
    - eapply Hclean, Hm.
    - destruct (has_nul (seg :: p')); [discriminate|reflexivity]. }
  apply writeFileSync_inr in Hwrite as [_ ->].
  destruct (decide (q = p)) as [->|Hne]; [exact Hp|].
  rewrite lookup_insert_ne in Hq by congruence. eapply Hclean, Hq.
Qed.

Lemma unlinkSync_inr m p m' :
  unlinkSync m p = inr m' ->
  p <> [] /\ (exists c, m !! p = Some (File c)) /\ m' = delete p m.
Proof.
  unfold unlinkSync. destruct p as [|seg p']; [discriminate|].
  destruct (m !! (seg :: p')) as [[c0|]|]; try discriminate.
  intros [= <-]. split; [discriminate|]. split; [eauto|reflexivity].
Qed.

Lemma readFileSync_inr m p c :
  readFileSync m p = inr c <-> p <> [] /\ m !! p = Some (File c).
Proof.
  unfold readFileSync. destruct p as [|seg p'].
  - split; [discriminate|intros [H _]; congruence].
  - destruct (m !! (seg :: p')) as [[c0|]|]; split;
      try discriminate; try (intros [_ H]; congruence).
    intros [= ->]. split; [discriminate|reflexivity].
Qed.

Lemma existsSync_file m p c : m !! p = Some (File c) -> existsSync m p = true.
Proof. intros H. unfold existsSync. destruct p; [reflexivity|]. rewrite H. reflexivity. Qed.

Lemma existsSync_false m p : existsSync m p = false -> m !! p = None /\ p <> [].
Proof.
  unfold existsSync. destruct p; [discriminate|].
  destruct (m !! _); [discriminate|]. intros _. split; [reflexivity|discriminate].
Qed.

End FsFacts.

(** ** Stepping through the monad *)

Lemma log_run (level : LogLevel) (args : list logarg) (w : world) :
  exists out, log level args w = (Ok tt, mkWorld (files w) (logLevel w) out).
Proof.
  unfold log. destruct (shouldLog level w); [eauto|].
  exists (console w). destruct w; reflexivity.
Qed.

(** Unfolds the combinators in the goal and decides every logger call. *)
Ltac run :=
  unfold bind, try_catch, ret, throw, lift, fs_read, fs_write, existsSyncM;
  simpl;
  repeat match goal with
    | |- context [log ?l ?a ?w] =>
        let out := fresh "out" in
        let H := fresh "Hlog" in
        destruct (log_run l a w) as [out H]; rewrite H; clear H; simpl
    end.

(** ** What each store operation returns and leaves on disk *)

Section StoreFacts.

Variable configDir : path.

Abbreviation pointer := (currentConfigFile configDir).
Abbreviation file_of := (getConfigFilePath configDir).
Abbreviation cleared := (JSON_stringify (JObj [("name", JStr "")]) 0).

Lemma getConfig_run (name : string) (w : world) :
  exists out,
    getConfig configDir name w
    = (Ok (stored_record (files w) (file_of name)),
       mkWorld (files w) (logLevel w) out).
Proof.
  unfold getConfig, stored_record. run.
  destruct (existsSync (files w) (file_of name)) eqn:Hex; simpl.
  - destruct (readFileSync (files w) (file_of name)) as [e|c]; simpl; run.
    + eauto.
    + destruct (JSON_parse c) as [e|v]; simpl; run; [eauto|].
      destruct (safeParse v) as [d|issues]; simpl; run;
        [exists (console w); destruct w; reflexivity | eauto].
  - apply existsSync_false in Hex as [Hnone Hp].
    assert (Hr : readFileSync (files w) (file_of name) = inl (ENOENT (file_of name))).
    { unfold readFileSync. destruct (file_of name); [congruence|].
      rewrite Hnone. reflexivity. }
    rewrite Hr. run. eauto.
Qed.

Lemma getCurrentConfig_run (w : world) :
  exists out,
    getCurrentConfig configDir w
    = (Ok (active_name (files w) pointer), mkWorld (files w) (logLevel w) out).
Proof.
  unfold getCurrentConfig, active_name. run.
  destruct (readFileSync (files w) pointer) as [e|c]; simpl; run; [eauto|].
  destruct (JSON_parse c) as [e|v]; simpl; run; [eauto|].
  destruct (member v "name") as [e|n]; simpl; run; [eauto|].
  exists (console w). destruct w; reflexivity.
Qed.

Lemma saveConfig_invalid_run (config : json) (w : world) :
  success (safeParse config) = false ->
  exists out, saveConfig configDir config w
              = (Ok false, mkWorld (files w) (logLevel w) out).
Proof.
  intros Hbad. unfold saveConfig. run.
  destruct (safeParse config); [discriminate|]. run. eauto.
Qed.

Lemma saveConfig_valid_run (config : json) (name : string) (w : world) :
  success (safeParse config) = true ->
  member config "name" = inr (Some (JStr name)) ->
  exists out,
    saveConfig configDir config w
    = match writeFileSync (files w) (file_of name) (JSON_stringify config 2) with
      | inr m' => (Ok true, mkWorld m' (logLevel w) out)
      | inl _ => (Ok false, mkWorld (files w) (logLevel w) out)
      end.
Proof.
  intros Hok Hname. unfold saveConfig. run.
  destruct (safeParse config); [|discriminate].
  rewrite Hname. run.
  destruct (writeFileSync (files w) (file_of name) (JSON_stringify config 2));
    simpl; run; eauto.
Qed.

Lemma clearCurrentConfig_run (w : world) :
  exists out,
    clearCurrentConfig configDir w
    = (Ok tt,
       mkWorld (match writeFileSync (files w) pointer cleared with
                | inr m' => m'
                | inl _ => files w
                end) (logLevel w) out).
Proof.
  unfold clearCurrentConfig. run.
  destruct (writeFileSync (files w) pointer cleared); simpl; run; eauto.
Qed.

Lemma deleteConfig_run (name : string) (w : world) :
  exists out,
    deleteConfig configDir name w
    = if existsSync (files w) (file_of name) then
        match unlinkSync (files w) (file_of name) with
        | inr m1 =>
            (Ok true,
             mkWorld (if match active_name m1 pointer with
                         | Some v => strict_eq_string v name
                         | None => false
                         end
                      then match writeFileSync m1 pointer cleared with
                           | inr m2 => m2
                           | inl _ => m1
                           end
                      else m1) (logLevel w) out)
        | inl _ => (Ok false, mkWorld (files w) (logLevel w) out)
        end
      else (Ok false, mkWorld (files w) (logLevel w) out).
Proof.
  unfold deleteConfig. run.
  destruct (existsSync (files w) (file_of name)); simpl; run; [|eauto].
  destruct (unlinkSync (files w) (file_of name)) as [e|m1]; simpl; run; [eauto|].
  match goal with
  | |- context [getCurrentConfig configDir ?w1] =>
      destruct (getCurrentConfig_run w1) as [out1 H1]; rewrite H1; clear H1; simpl
  end.
  destruct (match active_name m1 pointer with
            | Some v => strict_eq_string v name
            | None => false
            end); simpl.
  - match goal with
    | |- context [clearCurrentConfig configDir ?w1] =>
        destruct (clearCurrentConfig_run w1) as [out2 H2]; rewrite H2; clear H2; simpl
    end.
    eauto.
  - eauto.
Qed.

Lemma setCurrentConfig_run (name : string) (w : world) :
  exists out,
    setCurrentConfig configDir name w
    = if existsSync (files w) (file_of name) then
        match writeFileSync (files w) pointer
                (JSON_stringify (JObj [("name", JStr name)]) 0) with
        | inr m' => (Ok true, mkWorld m' (logLevel w) out)
        | inl _ => (Ok false, mkWorld (files w) (logLevel w) out)
        end
      else (Ok false, mkWorld (files w) (logLevel w) out).
Proof.
  unfold setCurrentConfig, configExists. run.
  destruct (existsSync (files w) (file_of name)); simpl; run; [|eauto].
  destruct (writeFileSync (files w) pointer _); simpl; run; eauto.
Qed.

Lemma getCurrentConfigData_run (w : world) :
  exists out,
    getCurrentConfigData configDir w
    = (match active_name (files w) pointer with
       | Some v =>
           match ToString v with
           | inr name => Ok (stored_record (files w) (file_of name))
           | inl e => Throw e
           end
       | None => Ok None
       end,
       mkWorld (files w) (logLevel w) out).
Proof.
  unfold getCurrentConfigData. run.
  destruct (getCurrentConfig_run w) as [out1 H1]. rewrite H1. clear H1. simpl.
  destruct (active_name (files w) pointer) as [v|]; simpl.
  - destruct (ToString v) as [e|name]; simpl; [eauto|].
    match goal with
    | |- context [getConfig configDir ?n ?w1] =>
        destruct (getConfig_run n w1) as [out2 H2]; rewrite H2; clear H2; simpl
    end.
    eauto.
  - run. eauto.
Qed.

Lemma listConfigs_returns (w : world) : returns (listConfigs configDir) w.
Proof.
  unfold returns, listConfigs. run.
  destruct (readdirSync (files w) configDir); simpl; run; eauto.
Qed.

End StoreFacts.

(** ** Saving and reading back *)

Section SaveAndGet.

Variable configDir : path.

Lemma writable_any_content (m : gmap path node) (p : path) (c : content) :
  writable m p = true -> writeFileSync m p c = inr (<[p := File c]> m).
Proof.
  unfold writable, writeFileSync. destruct p as [|seg p']; [discriminate|].
  destruct (m !! (seg :: p')) as [[c0|]|]; try discriminate; try reflexivity.
  destruct (has_nul _); [discriminate|].
  destruct (is_dir m _); [reflexivity|].
  destruct (existsSync m _); discriminate.
Qed.

Lemma stored_record_written (m : gmap path node) (p : path) (v : json) (k : nat) :
  p <> [] -> success (safeParse v) = true ->
  stored_record (<[p := File (JSON_stringify v k)]> m) p = Some v.
Proof.
  intros Hp Hok. unfold stored_record.
  assert (Hr : readFileSync (<[p := File (JSON_stringify v k)]> m) p
               = inr (JSON_stringify v k)).
  { apply readFileSync_inr. split; [exact Hp|apply lookup_insert_eq]. }
  rewrite Hr. simpl. rewrite Hok. reflexivity.
Qed.

(** When the directory is there and the name is free of directory parts,
    saving a valid record succeeds: the amended round trip is not empty. *)
Lemma saveConfig_succeeds (config : json) (name : string) (w : world) :
  success (safeParse config) = true ->
  member config "name" = inr (Some (JStr name)) ->
  writable (files w) (getConfigFilePath configDir name) = true ->
  fst (saveConfig configDir config w) = Ok true.
Proof.
  intros Hok Hname Hw.
  destruct (saveConfig_valid_run configDir config name w Hok Hname) as [out ->].
  rewrite (writable_any_content _ _ _ Hw). reflexivity.
Qed.

End SaveAndGet.

(** C1 (amended). For every record that satisfies the schema, whenever
    [saveConfig] returns [true], a following [getConfig] of the record's
    name returns a record equal to the one saved. *)
Theorem C1_save_then_get (configDir : path) (config : json) (name : string)
    (w : world) :
  success (safeParse config) = true ->
  member config "name" = inr (Some (JStr name)) ->
  fst (saveConfig configDir config w) = Ok true ->
  fst (getConfig configDir name (snd (saveConfig configDir config w)))
  = Ok (Some config).
Proof.
  intros Hok Hname Hsaved.
  destruct (saveConfig_valid_run configDir config name w Hok Hname) as [out Hrun].
  rewrite Hrun in *.
  destruct (writeFileSync (files w) (getConfigFilePath configDir name)
              (JSON_stringify config 2)) as [e|m'] eqn:Hwrite;
    [discriminate|].
  apply writeFileSync_inr in Hwrite as [Hp ->]. simpl.
  match goal with
  | |- context [getConfig configDir name ?w1] =>
      destruct (getConfig_run configDir name w1) as [out1 ->]
  end.
  simpl. rewrite stored_record_written; auto.
Qed.

Lemma C1_save_then_get_witness :
  fst (getConfig Example.dir "test-config"
         (snd (saveConfig Example.dir
                 (AppConfig "test-config" (Some "Test configuration"))
                 Example.fresh)))
  = Ok (Some (AppConfig "test-config" (Some "Test configuration"))).
Proof.
  apply C1_save_then_get; vm_compute; reflexivity.
Defined.

(** C1, as stated, fails: the record [{ name: "a/b" }] satisfies the schema,
    but on a fresh store [saveConfig] cannot write [configs/a/b.json] (there
    is no directory [configs/a]), returns [false], and [getConfig("a/b")]
    then finds nothing. *)
Lemma C1_counterexample :
  success (safeParse (AppConfig "a/b" None)) = true
  /\ fst (saveConfig Example.dir (AppConfig "a/b" None) Example.fresh) = Ok false
  /\ fst (getConfig Example.dir "a/b"
            (snd (saveConfig Example.dir (AppConfig "a/b" None) Example.fresh)))
     = Ok None.
Proof. vm_compute. repeat split; reflexivity. Qed.

(** C3. [saveConfig] validates first: a record that fails the schema makes
    it return [false] with the files untouched. It does not look for an
    existing record of the same name: when the name of a valid record
    already names a stored record, [saveConfig] returns [true], the file of
    that name now holds the new record, and [getConfig] returns it. *)
Theorem C3_save_validates_and_overwrites (configDir : path) (config : json)
    (w : world) :
  (success (safeParse config) = false ->
     fst (saveConfig configDir config w) = Ok false
     /\ files (snd (saveConfig configDir config w)) = files w)
  /\ (forall name old,
        success (safeParse config) = true ->
        member config "name" = inr (Some (JStr name)) ->
        fst (getConfig configDir name w) = Ok (Some old) ->
        fst (saveConfig configDir config w) = Ok true
        /\ files (snd (saveConfig configDir config w))
           = <[getConfigFilePath configDir name := File (JSON_stringify config 2)]>
               (files w)
        /\ fst (getConfig configDir name (snd (saveConfig configDir config w)))
           = Ok (Some config)).
Proof.
  split.
  - intros Hbad.
    destruct (saveConfig_invalid_run configDir config w Hbad) as [out ->].
    split; reflexivity.
  - intros name old Hok Hname Hold.
    destruct (getConfig_run configDir name w) as [out0 Hget].
    rewrite Hget in Hold. simpl in Hold. injection Hold as Hold.
    unfold stored_record in Hold.
    destruct (readFileSync (files w) (getConfigFilePath configDir name))
      as [e|c] eqn:Hread; [discriminate|].
    apply readFileSync_inr in Hread as [Hp Hfile].
    destruct (saveConfig_valid_run configDir config name w Hok Hname) as [out Hrun].
    rewrite (writeFileSync_over_file _ _ _ _ Hp Hfile) in Hrun.
    rewrite Hrun. simpl. repeat split.
    destruct (getConfig_run configDir name
                (mkWorld (<[getConfigFilePath configDir name
                            := File (JSON_stringify config 2)]> (files w))
                         (logLevel w) out)) as [out1 ->].
    simpl. rewrite stored_record_written; auto.
Qed.

Lemma C3_save_validates_and_overwrites_witness :
  let w := snd (saveConfig Example.dir (AppConfig "dev" None) Example.fresh) in
  (fst (saveConfig Example.dir (JObj [("name", JStr "")]) w) = Ok false
   /\ files (snd (saveConfig Example.dir (JObj [("name", JStr "")]) w)) = files w)
  /\ fst (saveConfig Example.dir (AppConfig "dev" (Some "second")) w) = Ok true
  /\ fst (getConfig Example.dir "dev"
            (snd (saveConfig Example.dir (AppConfig "dev" (Some "second")) w)))
     = Ok (Some (AppConfig "dev" (Some "second"))).
Proof.
  intros w. split.
  - apply (proj1 (C3_save_validates_and_overwrites Example.dir
                    (JObj [("name", JStr "")]) w)).
    reflexivity.
  - destruct (proj2 (C3_save_validates_and_overwrites Example.dir
                       (AppConfig "dev" (Some "second")) w)
                "dev" (AppConfig "dev" None)) as (H1 & _ & H3);
      [reflexivity | reflexivity | vm_compute; reflexivity |].
    split; [exact H1 | exact H3].
Defined.

(** ** The active pointer *)

Section ActivePointer.

Variable configDir : path.

Lemma active_name_some_file (m : gmap path node) (p : path) (v : json) :
  active_name m p = Some v -> p <> [] /\ exists c, m !! p = Some (File c).
Proof.
  unfold active_name.
  destruct (readFileSync m p) as [e|c] eqn:Hread; [discriminate|].
  apply readFileSync_inr in Hread as [Hp Hfile]. eauto.
Qed.

Lemma active_name_missing (m : gmap path node) (p : path) :
  m !! p = None -> active_name m p = None.
Proof.
  intros Hnone. unfold active_name, readFileSync.
  destruct p; [reflexivity|]. rewrite Hnone. reflexivity.
Qed.

Lemma active_name_cleared (m : gmap path node) (p : path) :
  p <> [] ->
  active_name (<[p := File (JSON_stringify (JObj [("name", JStr "")]) 0)]> m) p
  = None.
Proof.
  intros Hp. unfold active_name.
  assert (Hr : readFileSync
                 (<[p := File (JSON_stringify (JObj [("name", JStr "")]) 0)]> m) p
               = inr (JSON_stringify (JObj [("name", JStr "")]) 0)).
  { apply readFileSync_inr. split; [exact Hp|apply lookup_insert_eq]. }
  rewrite Hr. reflexivity.
Qed.

Lemma active_name_other_path (m : gmap path node) (p q : path) (x : option node) :
  p <> q ->
  active_name (match x with Some n => <[q := n]> m | None => delete q m end) p
  = active_name m p.
Proof.
  intros Hne. unfold active_name, readFileSync.
  destruct p as [|seg p']; [reflexivity|].
  destruct x; [rewrite lookup_insert_ne by congruence
              |rewrite lookup_delete_ne by congruence]; reflexivity.
Qed.

Lemma strict_eq_string_refl (s : string) : strict_eq_string (JStr s) s = true.
Proof. simpl. apply String.eqb_refl. Qed.

End ActivePointer.

(** C2. When the record named [n] is the active one and [deleteConfig(n)]
    returns [true], [getCurrentConfig()] afterwards returns [null]. *)
Theorem C2_delete_active_clears_pointer (configDir : path) (n : string)
    (w : world) :
  fst (getCurrentConfig configDir w) = Ok (Some (JStr n)) ->
  fst (deleteConfig configDir n w) = Ok true ->
  fst (getCurrentConfig configDir (snd (deleteConfig configDir n w))) = Ok None.
Proof.
  intros Hactive Hdeleted.
  destruct (getCurrentConfig_run configDir w) as [out0 Hcur].
  rewrite Hcur in Hactive. simpl in Hactive. injection Hactive as Hactive.
  destruct (deleteConfig_run configDir n w) as [out Hrun].
  rewrite Hrun in *. clear Hrun.
  destruct (existsSync (files w) (getConfigFilePath configDir n));
    [|discriminate].
  destruct (unlinkSync (files w) (getConfigFilePath configDir n))
    as [e|m1] eqn:Hunlink; [discriminate|].
  apply unlinkSync_inr in Hunlink as (Hp & _ & ->). simpl.
  match goal with
  | |- context [getCurrentConfig configDir ?w1] =>
      destruct (getCurrentConfig_run configDir w1) as [out1 ->]
  end.
  simpl. f_equal.
  destruct (decide (currentConfigFile configDir = getConfigFilePath configDir n))
    as [Heq|Hne].
  - (* the record's file is the pointer file itself: it is gone *)
    rewrite <- Heq.
    rewrite (active_name_missing (delete _ (files w)) _ (lookup_delete_eq _ _)).
    apply active_name_missing, lookup_delete_eq.
  - (* the pointer file is still there and still names [n] *)
    rewrite (active_name_other_path (files w) _ _ None Hne), Hactive.
    rewrite strict_eq_string_refl.
    apply active_name_some_file in Hactive as [Hq [c Hfile]].
    rewrite (writeFileSync_over_file _ _ _ c Hq)
      by (rewrite lookup_delete_ne by congruence; exact Hfile).
    apply active_name_cleared, Hq.
Qed.

Lemma C2_delete_active_clears_pointer_witness :
  let w := snd (setCurrentConfig Example.dir "dev"
                  (snd (saveConfig Example.dir (AppConfig "dev" None)
                          Example.fresh))) in
  fst (getCurrentConfig Example.dir w) = Ok (Some (JStr "dev"))
  /\ fst (getCurrentConfig Example.dir (snd (deleteConfig Example.dir "dev" w)))
     = Ok None.
Proof.
  intros w. split; [vm_compute; reflexivity|].
  apply C2_delete_active_clears_pointer; vm_compute; reflexivity.
Defined.

(** ** No operation throws *)

Section NoThrow.

Variable configDir : path.

Lemma getConfig_returns (name : string) (w : world) :
  returns (getConfig configDir name) w.
Proof. destruct (getConfig_run configDir name w) as [out H]. red. rewrite H. eauto. Qed.

Lemma getCurrentConfig_returns (w : world) : returns (getCurrentConfig configDir) w.
Proof. destruct (getCurrentConfig_run configDir w) as [out H]. red. rewrite H. eauto. Qed.

Lemma getCurrentConfigData_returns (w : world) :
  (forall v, active_name (files w) (currentConfigFile configDir) = Some v ->
             exists name, to_string v = Some name) ->
  returns (getCurrentConfigData configDir) w.
Proof.
  intros Hname.
  destruct (getCurrentConfigData_run configDir w) as [out H]. red. rewrite H.
  destruct (active_name _ _) as [v|]; simpl; [|eauto].
  destruct (Hname v eq_refl) as [name Hv]. unfold ToString. rewrite Hv. eauto.
Qed.

Lemma configExists_returns (name : string) (w : world) :
  returns (configExists configDir name) w.
Proof. red. unfold configExists, existsSyncM. simpl. eauto. Qed.

Lemma saveConfig_returns (config : json) (w : world) :
  returns (saveConfig configDir config) w.
Proof.
  red. destruct (success (safeParse config)) eqn:Hok.
  - destruct (safeParse_success_inv config Hok) as (fields & s & -> & Hn & _ & _).
    destruct (saveConfig_valid_run configDir (JObj fields) s w Hok) as [out H].
    { simpl. rewrite Hn. reflexivity. }
    rewrite H. destruct (writeFileSync _ _ _); simpl; eauto.
  - destruct (saveConfig_invalid_run configDir config w Hok) as [out H].
    rewrite H. eauto.
Qed.

Lemma deleteConfig_returns (name : string) (w : world) :
  returns (deleteConfig configDir name) w.
Proof.
  red. destruct (deleteConfig_run configDir name w) as [out H]. rewrite H.
  destruct (existsSync _ _); [|simpl; eauto].
  destruct (unlinkSync _ _); simpl; eauto.
Qed.

Lemma setCurrentConfig_returns (name : string) (w : world) :
  returns (setCurrentConfig configDir name) w.
Proof.
  red. destruct (setCurrentConfig_run configDir name w) as [out H]. rewrite H.
  destruct (existsSync _ _); [|simpl; eauto].
  destruct (writeFileSync _ _ _); simpl; eauto.
Qed.

Lemma stored_record_missing (m : gmap path node) (p : path) :
  existsSync m p = false -> stored_record m p = None.
Proof.
  intros Hex. apply existsSync_false in Hex as [Hnone Hp].
  unfold stored_record, readFileSync. destruct p; [congruence|].
  rewrite Hnone. reflexivity.
Qed.

End NoThrow.

(** C9. In a state where the active pointer names [n] and no file of that
    name exists, [getCurrentConfigData()] returns [null]; the [current]
    command returns normally and, unless the logger is set above [ERROR],
    prints the error line for [n]; and every store operation returns
    normally, whatever its argument. *)
Theorem C9_dangling_pointer (configDir : path) (n : string) (w : world) :
  fst (getCurrentConfig configDir w) = Ok (Some (JStr n)) ->
  fst (configExists configDir n w) = Ok false ->
  fst (getCurrentConfigData configDir w) = Ok None
  /\ fst (showCurrentConfig configDir w) = Ok tt
  /\ (shouldLog ERROR w = true ->
      In (Logged ERROR [LStr ("Error: active configuration '" ++ n ++ "' not found")])
         (console (snd (showCurrentConfig configDir w))))
  /\ (forall (name : string) (config : json),
        returns (listConfigs configDir) w
        /\ returns (configExists configDir name) w
        /\ returns (getConfig configDir name) w
        /\ returns (saveConfig configDir config) w
        /\ returns (deleteConfig configDir name) w
        /\ returns (getCurrentConfig configDir) w
        /\ returns (getCurrentConfigData configDir) w
        /\ returns (setCurrentConfig configDir name) w).
Proof.
  intros Hactive Hmissing.
  destruct (getCurrentConfig_run configDir w) as [out0 Hcur].
  rewrite Hcur in Hactive. simpl in Hactive. injection Hactive as Hactive.
  unfold configExists, existsSyncM in Hmissing. simpl in Hmissing.
  injection Hmissing as Hmissing.
  assert (Hnone : stored_record (files w) (getConfigFilePath configDir n) = None)
    by (apply stored_record_missing, Hmissing).
  split; [|split; [|split]].
  - destruct (getCurrentConfigData_run configDir w) as [out ->].
    simpl. rewrite Hactive. simpl. rewrite Hnone. reflexivity.
  - unfold showCurrentConfig, bind. rewrite Hcur, Hactive. simpl.
    match goal with
    | |- context [getConfig configDir n ?w1] =>
        destruct (getConfig_run configDir n w1) as [out1 ->]
    end.
    simpl. rewrite Hnone. run. reflexivity.
  - intros Hlevel.
    unfold showCurrentConfig, bind. rewrite Hcur, Hactive. simpl.
    match goal with
    | |- context [getConfig configDir n ?w1] =>
        destruct (getConfig_run configDir n w1) as [out1 ->]
    end.
    simpl. rewrite Hnone.
    unfold log, shouldLog in *. cbn [logLevel files console fst snd] in *.
    rewrite Hlevel. cbn [logLevel files console fst snd].
    destruct (level_value (logLevel w) <=? level_value DEBUG);
      cbn [logLevel files console fst snd];
      rewrite ?in_app_iff; simpl; auto.
  - intros name config.
    repeat split;
      auto using listConfigs_returns, configExists_returns, getConfig_returns,
        saveConfig_returns, deleteConfig_returns, getCurrentConfig_returns,
        setCurrentConfig_returns.
    apply getCurrentConfigData_returns. rewrite Hactive.
    intros v [= <-]. exists n. reflexivity.
Qed.

Lemma C9_dangling_pointer_witness :
  let w := mkWorld (<[currentConfigFile Example.dir
                      := File (JSON_stringify (JObj [("name", JStr "gone")]) 0)]>
                      (files Example.fresh)) INFO [] in
  fst (getCurrentConfigData Example.dir w) = Ok None
  /\ console (snd (showCurrentConfig Example.dir w))
     = [Logged ERROR [LStr "Error: active configuration 'gone' not found"]].
Proof.
  intros w.
  destruct (C9_dangling_pointer Example.dir "gone" w) as (Hdata & _ & _ & _);
    [vm_compute; reflexivity | vm_compute; reflexivity |].
  split; [exact Hdata | vm_compute; reflexivity].
Defined.

(** ** Where a record is written *)

Section Paths.

Variable configDir : path.

Lemma string_length_app (s t : string) :
  String.length (s ++ t) = (String.length s + String.length t)%nat.
Proof. induction s as [|a s IH]; simpl; [reflexivity|]. rewrite IH. reflexivity. Qed.

Lemma string_app_inv_tail (s t u : string) : s ++ u = t ++ u -> s = t.
Proof.
  revert t. induction s as [|a s IH]; intros [|b t] H; cbn in H.
  - reflexivity.
  - apply (f_equal String.length) in H.
    rewrite !string_length_app in H. simpl in H. lia.
  - apply (f_equal String.length) in H.
    rewrite !string_length_app in H. simpl in H. lia.
  - change (String a (s ++ u) = String b (t ++ u)) in H.
    injection H as -> H. f_equal. apply IH, H.
Qed.

Lemma split_without_separator (sep : ascii) (s : string) :
  JsString.includes s sep = false -> JsString.split sep s = [s].
Proof.
  induction s as [|c s IH]; simpl; [reflexivity|].
  destruct (Ascii.eqb c sep); simpl; [discriminate|].
  intros H. rewrite (IH H). reflexivity.
Qed.

Lemma includes_app (s t : string) (c : ascii) :
  JsString.includes (s ++ t) c = JsString.includes s c || JsString.includes t c.
Proof.
  induction s as [|d s IH]; simpl; [reflexivity|].
  rewrite IH. apply orb_assoc.
Qed.

Lemma push_segment_file (acc : path) (stem : string) :
  push_segment acc (stem ++ ".json") = (acc ++ [(stem ++ ".json")%string])%list.
Proof.
  unfold push_segment.
  assert (Hlen : (5 <= String.length (stem ++ ".json"))%nat)
    by (rewrite string_length_app; simpl; lia).
  destruct (String.eqb_spec (stem ++ ".json") "") as [E|_];
    [rewrite E in Hlen; simpl in Hlen; lia|].
  destruct (String.eqb_spec (stem ++ ".json") ".") as [E|_];
    [rewrite E in Hlen; simpl in Hlen; lia|].
  destruct (String.eqb_spec (stem ++ ".json") "..") as [E|_];
    [rewrite E in Hlen; simpl in Hlen; lia|].
  reflexivity.
Qed.

(** The pointer file sits directly in the store directory. *)
Lemma currentConfigFile_path :
  currentConfigFile configDir = (configDir ++ ["current.json"])%list.
Proof. reflexivity. Qed.

(** So does the file of a name without a slash. *)
Lemma getConfigFilePath_plain (name : string) :
  JsString.includes name "/" = false ->
  getConfigFilePath configDir name = (configDir ++ [(name ++ ".json")%string])%list.
Proof.
  intros Hplain. unfold getConfigFilePath, join.
  rewrite split_without_separator
    by (rewrite includes_app, Hplain; reflexivity).
  simpl. apply push_segment_file.
Qed.

Lemma getConfigFilePath_current :
  getConfigFilePath configDir "current" = currentConfigFile configDir.
Proof. reflexivity. Qed.

Lemma getConfigFilePath_plain_not_pointer (name : string) :
  JsString.includes name "/" = false -> name <> "current" ->
  getConfigFilePath configDir name <> currentConfigFile configDir.
Proof.
  intros Hplain Hname Heq.
  rewrite getConfigFilePath_plain, currentConfigFile_path in Heq by exact Hplain.
  apply app_inv_head in Heq. injection Heq as Heq.
  apply Hname, (string_app_inv_tail name "current" ".json"), Heq.
Qed.

End Paths.

(** C10 (amended). For a valid record whose name holds no [/] and is not
    [current], [saveConfig] leaves the pointer file as it was. The record
    named [current] has the pointer file's own path, and when it is saved
    the pointer file holds the record. *)
Theorem C10_save_and_pointer_file (configDir : path) (config : json)
    (name : string) (w : world) :
  success (safeParse config) = true ->
  member config "name" = inr (Some (JStr name)) ->
  (JsString.includes name "/" = false -> name <> "current" ->
     files (snd (saveConfig configDir config w)) !! currentConfigFile configDir
     = files w !! currentConfigFile configDir)
  /\ (name = "current" ->
        getConfigFilePath configDir name = currentConfigFile configDir
        /\ (fst (saveConfig configDir config w) = Ok true ->
              files (snd (saveConfig configDir config w))
                !! currentConfigFile configDir
              = Some (File (JSON_stringify config 2)))).
Proof.
  intros Hok Hname.
  destruct (saveConfig_valid_run configDir config name w Hok Hname) as [out ->].
  split.
  - intros Hplain Hne.
    destruct (writeFileSync (files w) (getConfigFilePath configDir name)
                (JSON_stringify config 2)) as [e|m'] eqn:Hwrite;
      [reflexivity|].
    apply writeFileSync_inr in Hwrite as [_ ->]. simpl.
    apply lookup_insert_ne, getConfigFilePath_plain_not_pointer; assumption.
  - intros ->. split; [apply getConfigFilePath_current|].
    rewrite getConfigFilePath_current.
    destruct (writeFileSync (files w) (currentConfigFile configDir)
                (JSON_stringify config 2)) as [e|m'] eqn:Hwrite;
      [discriminate|].
    apply writeFileSync_inr in Hwrite as [_ ->]. intros _. simpl.
    apply lookup_insert_eq.
Qed.

Lemma C10_save_and_pointer_file_witness :
  files (snd (saveConfig Example.dir (AppConfig "dev" None) Example.fresh))
    !! currentConfigFile Example.dir
  = files Example.fresh !! currentConfigFile Example.dir
  /\ files (snd (saveConfig Example.dir (AppConfig "current" None) Example.fresh))
       !! currentConfigFile Example.dir
     = Some (File (JSON_stringify (AppConfig "current" None) 2)).
Proof.
  split.
  - apply (proj1 (C10_save_and_pointer_file Example.dir (AppConfig "dev" None)
                    "dev" Example.fresh eq_refl eq_refl));
      [reflexivity | discriminate].
  - apply (proj2 (C10_save_and_pointer_file Example.dir (AppConfig "current" None)
                    "current" Example.fresh eq_refl eq_refl));
      [reflexivity | vm_compute; reflexivity].
Defined.

(** C10, as stated, fails: the valid record [{ name: "./current" }] is not
    named [current], yet [join] normalises its path to the pointer file,
    and saving it replaces the pointer. *)
Lemma C10_counterexample :
  success (safeParse (AppConfig "./current" None)) = true
  /\ "./current" <> "current"
  /\ files Example.fresh !! currentConfigFile Example.dir
     = Some (File (JSON_stringify (JObj [("name", JStr "")]) 0))
  /\ files (snd (saveConfig Example.dir (AppConfig "./current" None) Example.fresh))
       !! currentConfigFile Example.dir
     = Some (File (JSON_stringify (AppConfig "./current" None) 2)).
Proof.
  split; [reflexivity|]. split; [discriminate|].
  split; vm_compute; reflexivity.
Qed.

(** ** Numbers *)

Section NumberFacts.

Lemma le_int_integer (k n : Z) (x : number) :
  is_integer x n -> le_int k x = (k <=? n).
Proof.
  destruct x as [| |q|]; simpl; try contradiction. intros Hq.
  rewrite (Qleb_comp _ _ (reflexivity (inject_Z k)) _ _ Hq).
  destruct (Z.leb_spec k n) as [H|H].
  - apply Qle_bool_iff. rewrite <- Zle_Qle. exact H.
  - destruct (Qle_bool (inject_Z k) (inject_Z n)) eqn:Hb; [|reflexivity].
    apply Qle_bool_iff in Hb. rewrite <- Zle_Qle in Hb. lia.
Qed.

Lemma eq_int_integer (k n : Z) (x : number) :
  is_integer x n -> eq_int k x = (k =? n).
Proof.
  destruct x as [| |q|]; simpl; try contradiction. intros Hq.
  rewrite (Qeqb_comp _ _ (reflexivity (inject_Z k)) _ _ Hq).
  destruct (Z.eqb_spec k n) as [->|H].
  - apply Qeq_bool_refl.
  - destruct (Qeq_bool (inject_Z k) (inject_Z n)) eqn:Hb; [|reflexivity].
    apply Qeq_bool_eq in Hb. apply (proj1 (inject_Z_injective k n)) in Hb.
    contradiction.
Qed.

Lemma le_int_finite (k : Z) (q : Q) :
  le_int k (Finite q) = true -> k <= Qfloor q.
Proof.
  simpl. intros H. apply Qle_bool_iff, Qfloor_resp_le in H.
  rewrite Qfloor_Z in H. exact H.
Qed.

Lemma Qle_bool_false (p q : Q) : (q < p)%Q -> Qle_bool p q = false.
Proof.
  intros H. destruct (Qle_bool p q) eqn:Hb; [|reflexivity].
  apply Qle_bool_iff in Hb. lra.
Qed.

Lemma Qle_bool_false_inv (p q : Q) : Qle_bool p q = false -> (q < p)%Q.
Proof.
  intros H. destruct (Qlt_le_dec q p) as [Hlt|Hle]; [exact Hlt|].
  apply Qle_bool_iff in Hle. congruence.
Qed.

Lemma Qle_bool_true (p q : Q) : (p <= q)%Q -> Qle_bool p q = true.
Proof. apply Qle_bool_iff. Qed.

Lemma Qeq_bool_false (p q : Q) : ~ (p == q)%Q -> Qeq_bool p q = false.
Proof.
  intros H. destruct (Qeq_bool p q) eqn:Hb; [|reflexivity].
  apply Qeq_bool_eq in Hb. contradiction.
Qed.

Lemma two_1024_pos : (0 < two_1024)%Q.
Proof. reflexivity. Qed.

Lemma pow2_ge_1 (n : Z) : 0 <= n -> (1 <= 2 ^ n)%Q.
Proof. intros Hn. apply Qpower_1_le; [lra|exact Hn]. Qed.

(** Where the computed delay is the mathematical one. *)
Lemma delayMs_exact (b c : Q) (k : Z) :
  1 <= k ->
  (k <= 1024 /\ (- two_1024 < b * 2 ^ (k - 1) < two_1024)%Q)
  \/ ((two_1024 <= b * 2 ^ (k - 1))%Q /\ (c < two_1024)%Q) ->
  delayMs (Finite b) (Finite c) k = Finite (qmin (b * 2 ^ (k - 1)) c).
Proof.
  intros Hk Hcase. unfold delayMs, pow2.
  assert (Hp : (1 <= 2 ^ (k - 1))%Q) by (apply pow2_ge_1; lia).
  destruct Hcase as [[Hsmall [Hlo Hhi]] | [Hbig Hc]].
  - destruct (Z.leb_spec 1024 (k - 1)); [lia|].
    destruct (Z.ltb_spec (k - 1) (-1074)); [lia|].
    simpl. unfold overflow.
    rewrite Qle_bool_false by exact Hhi.
    rewrite Qle_bool_false by exact Hlo. reflexivity.
  - assert (Hb : (0 < b)%Q).
    { pose proof two_1024_pos.
      destruct (Qlt_le_dec 0 b) as [H0|H0]; [exact H0|]. exfalso.
      revert Hbig Hp. generalize (2 ^ (k - 1))%Q. intros p Hbig Hp. nra. }
    assert (Hmin : qmin (b * 2 ^ (k - 1)) c = c).
    { unfold qmin. rewrite Qle_bool_false by lra. reflexivity. }
    rewrite Hmin.
    destruct (Z.leb_spec 1024 (k - 1)).
    + simpl. unfold signed_infinity.
      rewrite Qeq_bool_false by lra. rewrite Qle_bool_false by exact Hb.
      reflexivity.
    + destruct (Z.ltb_spec (k - 1) (-1074)); [lia|].
      simpl. unfold overflow. rewrite Qle_bool_true by exact Hbig. reflexivity.
Qed.

(** With a positive base every delay is finite, at most the cap and at
    least the smaller of base and cap. *)
Lemma delayMs_bounds (b c : Q) (k : Z) :
  1 <= k -> (0 < b)%Q ->
  exists d, delayMs (Finite b) (Finite c) k = Finite d
            /\ (d <= c)%Q /\ (qmin b c <= d)%Q.
Proof.
  intros Hk Hb. unfold delayMs, pow2.
  assert (Hp : (1 <= 2 ^ (k - 1))%Q) by (apply pow2_ge_1; lia).
  assert (Hmin : (qmin b c <= c)%Q).
  { unfold qmin. destruct (Qle_bool b c) eqn:Hbc; [|lra].
    apply Qle_bool_iff in Hbc. exact Hbc. }
  destruct (Z.leb_spec 1024 (k - 1)).
  - simpl. unfold signed_infinity.
    rewrite Qeq_bool_false by lra. rewrite Qle_bool_false by exact Hb.
    exists c. repeat split; [lra|exact Hmin].
  - destruct (Z.ltb_spec (k - 1) (-1074)); [lia|].
    simpl. unfold overflow.
    assert (Hge : (b <= b * 2 ^ (k - 1))%Q).
    { revert Hp. generalize (2 ^ (k - 1))%Q. intros p Hp. nra. }
    pose proof two_1024_pos.
    destruct (Qle_bool two_1024 (b * 2 ^ (k - 1))).
    + exists c. repeat split; [lra|exact Hmin].
    + rewrite Qle_bool_false by lra.
      exists (qmin (b * 2 ^ (k - 1)) c). split; [reflexivity|].
      unfold qmin.
      destruct (Qle_bool (b * 2 ^ (k - 1)) c) eqn:Hx;
        destruct (Qle_bool b c) eqn:Hy;
        try apply Qle_bool_iff in Hx; try apply Qle_bool_iff in Hy;
        try apply Qle_bool_false_inv in Hx; try apply Qle_bool_false_inv in Hy;
        split; lra.
Qed.

(** With a zero base the delays turn into [NaN] once [2 ** (k - 1)]
    overflows. *)
Lemma delayMs_zero_base (b : Q) (cap : number) (k : Z) :
  (b == 0)%Q -> 1025 <= k -> delayMs (Finite b) cap k = NaN.
Proof.
  intros Hb Hk. unfold delayMs, pow2.
  destruct (Z.leb_spec 1024 (k - 1)); [|lia].
  simpl. unfold signed_infinity. rewrite (Qeq_eq_bool _ _ Hb).
  destruct cap; reflexivity.
Qed.

End NumberFacts.

(** ** [retry] *)

Lemma failed_rounds_cons {T E : Type} (baseDelay maxDelay : number) (b : bool)
    (attempt : Z) (error : E) (errors : list E) :
  failed_rounds (T := T) baseDelay maxDelay b attempt (error :: errors)
  = (failed_rounds baseDelay maxDelay b attempt [error]
     ++ failed_rounds baseDelay maxDelay b (attempt + 1) errors)%list.
Proof. destruct b; reflexivity. Qed.

Lemma last_error_cons {E : Type} (d : option E) (error : E) (errors : list E) :
  from_option Some d (last (error :: errors))
  = from_option Some (Some error) (last errors).
Proof.
  destruct errors as [|e errors]; [reflexivity|].
  change (last (error :: e :: errors)) with (last (e :: errors)).
  destruct (last (e :: errors)) eqn:Hl; [reflexivity|].
  apply last_None in Hl. discriminate.
Qed.

Section RetryFacts.

Context {T E S : Type}.

Variable fn : S -> (E + T) * S.
Variables limit base cap : number.
Variable onRetry' : option (Z -> E -> S -> option E * S).

Abbreviation loop := (retry_loop fn limit base cap onRetry').
Abbreviation notify := (match onRetry' with Some _ => true | None => false end).
Abbreviation rounds := (failed_rounds (T := T) base cap notify).

Lemma notifications_app (t1 t2 : list (event T E)) :
  notifications (t1 ++ t2) = (notifications t1 ++ notifications t2)%list.
Proof. apply omap_app. Qed.

Lemma delays_app (t1 t2 : list (event T E)) :
  delays (t1 ++ t2) = (delays t1 ++ delays t2)%list.
Proof. apply omap_app. Qed.

Lemma invocations_app (t1 t2 : list (event T E)) :
  invocations (t1 ++ t2) = (invocations t1 ++ invocations t2)%list.
Proof. apply omap_app. Qed.

Lemma delays_failed_rounds (b : bool) (errors : list E) :
  forall attempt,
    delays (failed_rounds (T := T) base cap b attempt errors)
    = map (delayMs base cap) (seqZ attempt (Z.of_nat (length errors))).
Proof.
  induction errors as [|error errors IH]; intros attempt.
  - reflexivity.
  - simpl failed_rounds. rewrite seqZ_cons by (simpl length; lia).
    replace (Z.pred (Z.of_nat (length (error :: errors))))
      with (Z.of_nat (length errors)) by (simpl length; lia).
    replace (Z.succ attempt) with (attempt + 1) by lia.
    simpl map. rewrite <- IH.
    destruct b; reflexivity.
Qed.

Lemma notifications_failed_rounds (b : bool) (errors : list E) :
  forall attempt,
    notifications (failed_rounds (T := T) base cap b attempt errors)
    = if b then seqZ attempt (Z.of_nat (length errors)) else [].
Proof.
  induction errors as [|error errors IH]; intros attempt.
  - destruct b; reflexivity.
  - simpl failed_rounds. rewrite seqZ_cons by (simpl length; lia).
    replace (Z.pred (Z.of_nat (length (error :: errors))))
      with (Z.of_nat (length errors)) by (simpl length; lia).
    replace (Z.succ attempt) with (attempt + 1) by lia.
    specialize (IH (attempt + 1)).
    destruct b; simpl; rewrite IH; reflexivity.
Qed.

Lemma invocations_failed_rounds (b : bool) (errors : list E) :
  forall attempt,
    invocations (failed_rounds (T := T) base cap b attempt errors)
    = zip (seqZ attempt (Z.of_nat (length errors))) (map inl errors).
Proof.
  induction errors as [|error errors IH]; intros attempt.
  - reflexivity.
  - simpl failed_rounds. rewrite seqZ_cons by (simpl length; lia).
    replace (Z.pred (Z.of_nat (length (error :: errors))))
      with (Z.of_nat (length errors)) by (simpl length; lia).
    replace (Z.succ attempt) with (attempt + 1) by lia.
    specialize (IH (attempt + 1)).
    destruct b; simpl; rewrite IH; reflexivity.
Qed.

Lemma attempts_failed_rounds (b : bool) (errors : list E) (attempt : Z) :
  map fst (invocations (failed_rounds (T := T) base cap b attempt errors))
  = seqZ attempt (Z.of_nat (length errors)).
Proof.
  rewrite invocations_failed_rounds. apply fst_zip.
  rewrite length_seqZ, length_map. lia.
Qed.

(** More fuel does not change a run that has ended. *)
Lemma retry_loop_more_fuel (fuel extra : nat) :
  forall (attempt : Z) (lastError : option E) (s : S) (trace : list (event T E))
         (r : settled T E * S * list (event T E)),
    loop fuel attempt lastError s trace = Some r ->
    loop (fuel + extra) attempt lastError s trace = Some r.
Proof.
  induction fuel as [|fuel IH]; intros attempt lastError s trace r Hrun.
  - simpl in Hrun. destruct extra as [|extra]; simpl;
      destruct (le_int attempt limit); simpl in *; congruence.
  - simpl in *. destruct (le_int attempt limit); simpl in *; [|exact Hrun].
    destruct (fn s) as [[error|value] s1]; [|exact Hrun].
    destruct (eq_int attempt limit); [exact Hrun|].
    destruct onRetry' as [callback|].
    + destruct (callback attempt error s1) as [[thrown|] s2]; [exact Hrun|].
      apply IH, Hrun.
    + apply IH, Hrun.
Qed.

(** With a finite [maxAttempts] the loop ends: as many iterations as
    there are attempts left are enough. *)
Lemma retry_loop_ends (q : Q) (fuel : nat) :
  limit = Finite q ->
  forall (attempt : Z) (lastError : option E) (s : S) (trace : list (event T E)),
    Qfloor q - attempt + 1 <= Z.of_nat fuel ->
    exists r, loop fuel attempt lastError s trace = Some r.
Proof.
  intros Hq. induction fuel as [|fuel IH];
    intros attempt lastError s trace Hfuel.
  - simpl. destruct (le_int attempt limit) eqn:Hle; simpl; [|eauto].
    rewrite Hq in Hle. apply le_int_finite in Hle. lia.
  - simpl. destruct (le_int attempt limit) eqn:Hle; simpl; [|eauto].
    destruct (fn s) as [[error|value] s1]; [|eauto].
    destruct (eq_int attempt limit); [eauto|].
    destruct onRetry' as [callback|].
    + destruct (callback attempt error s1) as [[thrown|] s2]; [eauto|].
      apply IH. lia.
    + apply IH. lia.
Qed.

(** A run is a sequence of failed rounds followed by one of four endings:
    the loop condition fails, [fn] succeeds, [fn] fails on the attempt that
    equals [maxAttempts], or the callback throws. *)
Lemma retry_loop_classified (fuel : nat) :
  forall (attempt : Z) (lastError : option E) (s : S) (trace : list (event T E))
         (out : settled T E) (s' : S) (trace' : list (event T E)),
    loop fuel attempt lastError s trace = Some (out, s', trace') ->
    exists (n : Z) (errors : list E),
      Z.of_nat (length errors) = n - attempt
      /\ (forall k, attempt <= k < n ->
            le_int k limit = true /\ eq_int k limit = false)
      /\ ending fn limit base cap onRetry' attempt lastError s trace out s' trace' n errors.
Proof.
  induction fuel as [|fuel IH];
    intros attempt lastError s trace out s' trace' Hrun.
  - unfold ending.
    simpl in Hrun. destruct (le_int attempt limit) eqn:Hle; simpl in Hrun;
      [discriminate|].
    injection Hrun as <- <- <-. exists attempt, [].
    split; [simpl; lia|]. split; [intros k Hk; lia|].
    left. simpl. rewrite app_nil_r. auto.
  - unfold ending in *. simpl in Hrun. destruct (le_int attempt limit) eqn:Hle; simpl in Hrun.
    2:{ injection Hrun as <- <- <-. exists attempt, [].
        split; [simpl; lia|]. split; [intros k Hk; lia|].
        left. simpl. rewrite app_nil_r. auto. }
    destruct (fn s) as [[error|value] s1] eqn:Hfn.
    + destruct (eq_int attempt limit) eqn:Hfinal.
      * injection Hrun as <- _ <-. exists attempt, [].
        split; [simpl; lia|]. split; [intros k Hk; lia|].
        right. right. left. split; [exact Hle|]. split; [exact Hfinal|].
        exists error. auto.
      * assert (Hstep : forall s2 evs,
                  loop fuel (attempt + 1) (Some error) s2
                    ((trace ++ [Called attempt (inl error)]) ++ evs)%list
                  = Some (out, s', trace') ->
                  (Called attempt (inl error) :: evs
                   = rounds attempt [error])%list ->
                  exists (n : Z) (errors : list E),
                    Z.of_nat (length errors) = n - attempt
                    /\ (forall k, attempt <= k < n ->
                          le_int k limit = true /\ eq_int k limit = false)
                    /\ ending fn limit base cap onRetry' attempt lastError s trace out s' trace' n errors).
        { intros s2 evs Hrec Hevs.
          apply IH in Hrec.
          destruct Hrec as (n & errors & Hlen & Hbefore & Hend).
          exists n, (error :: errors).
          split; [simpl length; lia|]. split.
          { intros k Hk. destruct (decide (k = attempt)) as [->|Hne];
              [auto|apply Hbefore; lia]. }
          assert (Hshape : forall tail,
                    (((trace ++ [Called attempt (inl error)]) ++ evs)
                     ++ rounds (attempt + 1) errors ++ tail
                     = trace ++ rounds attempt (error :: errors) ++ tail)%list).
          { intros tail.
            rewrite (failed_rounds_cons base cap), <- Hevs.
            rewrite <- !app_assoc. reflexivity. }
          destruct Hend as [(Hn & -> & _ & ->)
                           |[(Hn & v & s0 & Hv & -> & ->)
                            |[(Hn & Heq & e & -> & ->)
                             |(Hn & Heq & e & t & cb & s3 & Hcb & Hcall & -> & ->)]]].
          - left. split; [exact Hn|]. split.
            + rewrite last_error_cons. reflexivity.
            + split; [discriminate|].
              specialize (Hshape []). rewrite !app_nil_r in Hshape.
              exact Hshape.
          - right. left. split; [exact Hn|]. exists v, s0.
            split; [exact Hv|]. split; [reflexivity|apply Hshape].
          - right. right. left. split; [exact Hn|]. split; [exact Heq|].
            exists e. split; [reflexivity|apply Hshape].
          - right. right. right. split; [exact Hn|]. split; [exact Heq|].
            exists e, t, cb, s3. repeat split; auto. }
        destruct onRetry' as [callback|] eqn:Hcb.
        -- destruct (callback attempt error s1) as [[thrown|] s2] eqn:Hcall.
           ++ injection Hrun as <- <- <-. exists attempt, [].
              split; [simpl; lia|]. split; [intros k Hk; lia|].
              right. right. right. split; [exact Hle|]. split; [exact Hfinal|].
              exists error, thrown, callback, s1. repeat split; auto.
              simpl. rewrite <- app_assoc. reflexivity.
           ++ apply (Hstep s2 [Notified attempt error;
                               Slept (delayMs base cap attempt)]);
                [exact Hrun|reflexivity].
        -- apply (Hstep s1 [Slept (delayMs base cap attempt)]);
             [exact Hrun|reflexivity].
    + injection Hrun as <- <- <-. exists attempt, [].
      split; [simpl; lia|]. split; [intros k Hk; lia|].
      right. left. split; [exact Hle|]. exists value, s. auto.
Qed.

(** With an integer [maxAttempts] the loop condition can only fail before
    the first attempt. *)
Lemma integer_limit_no_exit (L n : Z) (errors : list E) (attempt : Z) :
  is_integer limit L ->
  Z.of_nat (length errors) = n - attempt ->
  (forall k, attempt <= k < n -> le_int k limit = true /\ eq_int k limit = false) ->
  le_int n limit = false ->
  errors = [].
Proof.
  intros Hint Hlen Hbefore Hexit.
  destruct errors as [|e errors]; [reflexivity|]. exfalso.
  simpl length in Hlen.
  destruct (Hbefore (n - 1)) as [Hle Hne]; [lia|].
  rewrite (le_int_integer _ L _ Hint) in Hle.
  rewrite (le_int_integer _ L _ Hint) in Hexit.
  rewrite (eq_int_integer _ L _ Hint) in Hne. lia.
Qed.

End RetryFacts.

Lemma last_invocation {T E : Type} (trace : list (event T E)) (n : Z) (o : E + T) :
  last (invocations (trace ++ [Called n o])) = Some (n, o).
Proof. unfold invocations. rewrite omap_app. simpl. apply last_snoc. Qed.

(** C4, as stated, fails. With [maxAttempts: 2.5] and an operation that
    always fails, attempt 2 is the last one and its error is the one the
    promise is rejected with, yet the callback has run twice, after attempt
    1 and after attempt 2, and two delays were waited. With [baseDelay: 0]
    the delay computed after attempt 1025 is [NaN], not 0. *)
Lemma C4_counterexample :
  let fn := fun calls : nat => (@inl string unit "busy", Datatypes.S calls) in
  let callback := fun (_ : Z) (_ : string) (calls : nat) => (@None string, calls) in
  let fractional :=
    mkOptions (Some (Finite (5 # 2))) None None (Some callback) in
  let zero_base :=
    mkOptions (Some (of_Z 1026)) (Some (of_Z 0)) None (Some callback) in
  retry 3 fn fractional 0%nat
  = Some (Rejected (Some "busy"), 2%nat,
          [Called 1 (inl "busy"); Notified 1 "busy"; Slept (of_Z 1000);
           Called 2 (inl "busy"); Notified 2 "busy"; Slept (of_Z 2000)])
  /\ (forall out s' trace,
        retry 3 fn fractional 0%nat = Some (out, s', trace) ->
        settles_on_attempt out trace 2
        /\ Z.of_nat (length (notifications trace)) = 2)
  /\ match retry 1026 fn zero_base 0%nat with
     | Some (out, _, trace) =>
         out = Rejected (Some "busy")
         /\ last (invocations trace) = Some (1026, inl "busy")
         /\ delays trace !! 1024%nat = Some NaN
     | None => False
     end.
Proof.
  intros fn callback fractional zero_base.
  assert (Hrun : retry 3 fn fractional 0%nat
                 = Some (Rejected (Some "busy"), 2%nat,
                         [Called 1 (inl "busy"); Notified 1 "busy";
                          Slept (of_Z 1000);
                          Called 2 (inl "busy"); Notified 2 "busy";
                          Slept (of_Z 2000)]))
    by (vm_compute; reflexivity).
  split; [exact Hrun|]. split.
  - intros out s' trace H. rewrite Hrun in H. injection H as <- <- <-.
    split; [|reflexivity].
    unfold settles_on_attempt. simpl.
    split; [reflexivity|]. split; [intros j x; discriminate|reflexivity].
  - vm_compute. repeat split; reflexivity.
Qed.

(** C4 (amended). With a callback: when the promise settles with the
    outcome of invocation [n] of [fn], its value, or its error under an
    integer [maxAttempts] (then [n] is [maxAttempts]), the callback was
    called exactly [n - 1] times, once after each of the attempts
    [1 .. n-1], and the delay waited before attempt [k + 1] was the number
    [Math.min(baseDelay * 2 ** (k - 1), maxDelay)] computes. For finite
    [baseDelay] and [maxDelay] that number is [min(baseDelay * 2^(k-1),
    maxDelay)] whenever [k <= 1024] and the product is below [2^1024] in
    magnitude, and whenever the product is [2^1024] or more. Following the
    loop for more iterations gives the same run. *)
Theorem C4_retry_callbacks_and_delays {T E S : Type}
    (fn : S -> (E + T) * S) (options : RetryOptions E S)
    (callback : Z -> E -> S -> option E * S) (fuel : nat) (s : S)
    (out : settled T E) (s' : S) (trace : list (event T E)) (n : Z) :
  onRetry options = Some callback ->
  retry fuel fn options s = Some (out, s', trace) ->
  settles_on_attempt out trace n ->
  (exists value, out = Resolved value)
  \/ (exists L, is_integer (default (of_Z 3) (maxAttempts options)) L) ->
  let limit := default (of_Z 3) (maxAttempts options) in
  let base := default (of_Z 1000) (baseDelay options) in
  let cap := default (of_Z 10000) (maxDelay options) in
  Z.of_nat (length (notifications trace)) = n - 1
  /\ notifications trace = seqZ 1 (n - 1)
  /\ (forall k, 1 <= k < n ->
        delays trace !! Z.to_nat (k - 1) = Some (delayMs base cap k))
  /\ length (delays trace) = Z.to_nat (n - 1)
  /\ (exists (errors : list E) (o : E + T),
        Z.of_nat (length errors) = n - 1
        /\ trace = (failed_rounds base cap true 1 errors ++ [Called n o])%list
        /\ match o with
           | inr value => out = Resolved value
           | inl error => out = Rejected (Some error) /\ eq_int n limit = true
           end)
  /\ (forall L, is_integer limit L -> n <= L)
  /\ (forall (b c : Q) (k : Z),
        base = Finite b -> cap = Finite c -> 1 <= k ->
        (k <= 1024 /\ (- two_1024 < b * 2 ^ (k - 1) < two_1024)%Q)
        \/ ((two_1024 <= b * 2 ^ (k - 1))%Q /\ (c < two_1024)%Q) ->
        delayMs base cap k = Finite (qmin (b * 2 ^ (k - 1)) c))
  /\ (forall more, (fuel <= more)%nat ->
                   retry more fn options s = Some (out, s', trace)).
Proof.
  intros Hcb Hrun Hsettle Hcase limit base cap. unfold retry in Hrun.
  fold limit in Hrun, Hcase.
  assert (Hmore : forall more, (fuel <= more)%nat ->
                    retry more fn options s = Some (out, s', trace)).
  { intros more Hle. unfold retry.
    replace more with (fuel + (more - fuel))%nat by lia.
    apply retry_loop_more_fuel, Hrun. }
  apply retry_loop_classified in Hrun as (n' & errors & Hlen & Hbefore & Hend).
  unfold ending in Hend. rewrite Hcb in Hend. simpl in Hend.
  fold base in Hend. fold cap in Hend.
  assert (Hgoal : forall o,
            trace = (failed_rounds base cap true 1 errors ++ [Called n' o])%list ->
            match o with
            | inr value => out = Resolved value
            | inl error => out = Rejected (Some error) /\ eq_int n' limit = true
            end ->
            n = n'
            /\ Z.of_nat (length (notifications trace)) = n' - 1
            /\ notifications trace = seqZ 1 (n' - 1)
            /\ (forall k, 1 <= k < n' ->
                  delays trace !! Z.to_nat (k - 1) = Some (delayMs base cap k))
            /\ length (delays trace) = Z.to_nat (n' - 1)).
  { intros o Htrace Hout.
    assert (Hn : n = n').
    { unfold settles_on_attempt in Hsettle.
      rewrite Htrace, last_invocation in Hsettle. symmetry. apply Hsettle. }
    assert (Hnot : notifications trace = seqZ 1 (n' - 1)).
    { rewrite Htrace, notifications_app, notifications_failed_rounds, Hlen.
      apply app_nil_r. }
    assert (Hdel : delays trace = map (delayMs base cap) (seqZ 1 (n' - 1))).
    { rewrite Htrace, delays_app, delays_failed_rounds, Hlen. apply app_nil_r. }
    rewrite Hnot, Hdel, length_map, !length_seqZ.
    repeat split; auto; try lia.
    intros k Hk. rewrite list_lookup_fmap, lookup_seqZ_lt by lia. simpl.
    replace (1 + Z.of_nat (Z.to_nat (k - 1))) with k by lia. reflexivity. }
  assert (Hexact : forall (b c : Q) (k : Z),
            base = Finite b -> cap = Finite c -> 1 <= k ->
            (k <= 1024 /\ (- two_1024 < b * 2 ^ (k - 1) < two_1024)%Q)
            \/ ((two_1024 <= b * 2 ^ (k - 1))%Q /\ (c < two_1024)%Q) ->
            delayMs base cap k = Finite (qmin (b * 2 ^ (k - 1)) c)).
  { intros b c k -> -> Hk Hfits. apply delayMs_exact; assumption. }
  destruct Hend as [(Hexit & Hout & _ & Htrace)
                   |[(Hle & v & s0 & _ & Hout & Htrace)
                    |[(Hle & Heq & e & Hout & Htrace)
                     |(_ & _ & e & t & cb & s3 & _ & _ & _ & Htrace)]]].
  - exfalso.
    assert (Hnil : errors = []).
    { destruct Hcase as [[v Hv]|[L Hint]]; [congruence|].
      exact (integer_limit_no_exit _ L n' errors 1 Hint Hlen Hbefore Hexit). }
    rewrite Hnil in Htrace. rewrite Htrace in Hsettle. exact Hsettle.
  - destruct (Hgoal (inr v) Htrace Hout) as (-> & H1 & H2 & H3 & H4).
    repeat split; auto.
    + exists errors, (inr v). auto.
    + intros L Hint. rewrite (le_int_integer _ L _ Hint) in Hle. lia.
  - destruct (Hgoal (inl e) Htrace (conj Hout Heq)) as (-> & H1 & H2 & H3 & H4).
    repeat split; auto.
    + exists errors, (inl e). auto.
    + intros L Hint. rewrite (le_int_integer _ L _ Hint) in Hle. lia.
  - exfalso. unfold settles_on_attempt in Hsettle.
    destruct (last (invocations trace)) as [[k o]|]; [|exact Hsettle].
    destruct Hsettle as (_ & Hlast & _).
    apply (Hlast n' e). rewrite Htrace.
    rewrite last_app_cons. reflexivity.
Qed.

Lemma C4_retry_callbacks_and_delays_witness :
  let fn := fun calls : nat =>
              (if (calls <? 2)%nat then inl "busy" else inr calls, Datatypes.S calls) in
  let callback := fun (_ : Z) (_ : string) (calls : nat) => (@None string, calls) in
  let options := mkOptions (Some (of_Z 5)) (Some (of_Z 1000)) (Some (of_Z 1500))
                   (Some callback) in
  let trace := [Called 1 (inl "busy"); Notified 1 "busy"; Slept (of_Z 1000);
                Called 2 (inl "busy"); Notified 2 "busy"; Slept (of_Z 1500);
                Called 3 (inr 2%nat)] in
  retry 5 fn options 0%nat = Some (Resolved 2%nat, 3%nat, trace)
  /\ Z.of_nat (length (notifications trace)) = 3 - 1
  /\ delays trace !! 1%nat = Some (delayMs (of_Z 1000) (of_Z 1500) 2).
Proof.
  intros fn callback options trace.
  assert (Hrun : retry 5 fn options 0%nat = Some (Resolved 2%nat, 3%nat, trace))
    by (vm_compute; reflexivity).
  split; [exact Hrun|].
  destruct (C4_retry_callbacks_and_delays fn options callback 5 0%nat
              (Resolved 2%nat) 3%nat trace 3)
    as (Hcount & _ & Hdelay & _).
  - reflexivity.
  - exact Hrun.
  - unfold settles_on_attempt. simpl.
    split; [reflexivity|]. split; [intros j x; discriminate|reflexivity].
  - right. exists 5. simpl. reflexivity.
  - split; [exact Hcount|]. apply (Hdelay 2). lia.
Defined.

(** C6. For an operation that fails whenever it is invoked and an integer
    [maxAttempts] of at least one, the run ends (as many iterations as
    [maxAttempts] are enough to see it end): [fn] is invoked for the
    attempts [1, 2, ...] in order, never more than [maxAttempts] times; when
    all [maxAttempts] invocations were made the promise is rejected with the
    error of the last one; and all of them are made whenever the callback
    (if any) returns normally. *)
Theorem C6_retry_exhausted {T E S : Type}
    (fn : S -> (E + T) * S) (options : RetryOptions E S) (s : S) (limit : Z) :
  always_fails fn ->
  is_integer (default (of_Z 3) (maxAttempts options)) limit ->
  1 <= limit ->
  exists (out : settled T E) (s' : S) (trace : list (event T E)),
    (forall fuel, (Z.to_nat limit <= fuel)%nat ->
                  retry fuel fn options s = Some (out, s', trace))
    /\ let calls := invocations trace in
       Z.of_nat (length calls) <= limit
       /\ map fst calls = seqZ 1 (Z.of_nat (length calls))
       /\ (Z.of_nat (length calls) = limit ->
             exists error, last calls = Some (limit, inl error)
                           /\ out = Rejected (Some error))
       /\ (callback_returns (onRetry options) -> Z.of_nat (length calls) = limit).
Proof.
  intros Hfails Hint Hpos. unfold retry.
  set (number_limit := default (of_Z 3) (maxAttempts options)) in *.
  set (base := default (of_Z 1000) (baseDelay options)).
  set (cap := default (of_Z 10000) (maxDelay options)).
  assert (Hends : exists r,
             retry_loop fn number_limit base cap (onRetry options)
               (Z.to_nat limit) 1 None s [] = Some r).
  { destruct number_limit as [| |q|] eqn:Hq; simpl in Hint; try contradiction.
    apply (retry_loop_ends fn (Finite q) base cap (onRetry options) q);
      [reflexivity|].
    rewrite (Qfloor_comp _ _ Hint), Qfloor_Z. lia. }
  destruct Hends as [[[out s'] trace] Hrun].
  exists out, s', trace. split.
  { intros fuel Hfuel.
    replace fuel with (Z.to_nat limit + (fuel - Z.to_nat limit))%nat by lia.
    apply retry_loop_more_fuel, Hrun. }
  apply retry_loop_classified in Hrun as (n & errors & Hlen & Hbefore & Hend).
  unfold ending in Hend. simpl in Hend.
  set (rounds := failed_rounds base cap _ 1 errors) in Hend.
  assert (Hcalls : forall o,
            Z.of_nat (length (invocations (rounds ++ [Called n o]))) = n
            /\ map fst (invocations (rounds ++ [Called n o])) = seqZ 1 n
            /\ last (invocations (rounds ++ [Called n o])) = Some (n, o)).
  { intros o. rewrite last_invocation.
    assert (Hfst : map fst (invocations (rounds ++ [Called n o])) = seqZ 1 n).
    { rewrite invocations_app, map_app. unfold rounds.
      rewrite attempts_failed_rounds, Hlen. simpl.
      replace (seqZ 1 n) with (seqZ 1 ((n - 1) + 1)) by (f_equal; lia).
      rewrite (seqZ_app 1 (n - 1) 1) by lia.
      change (seqZ (1 + (n - 1)) 1) with [1 + (n - 1)].
      do 2 f_equal. lia. }
    split; [|auto].
    rewrite <- (length_map fst), Hfst, length_seqZ. lia. }
  destruct Hend as [(Hexit & _ & _ & Htrace)
                   |[(_ & v & s0 & Hv & _ & _)
                    |[(Hle & Heq & e & Hout & Htrace)
                     |(Hle & Hne & e & t & cb & s3 & Hcb & Hcall & Hout & Htrace)]]].
  - exfalso.
    pose proof (integer_limit_no_exit _ limit n errors 1 Hint Hlen Hbefore Hexit)
      as Hnil.
    rewrite Hnil in Hlen. simpl in Hlen. replace n with 1 in Hexit by lia.
    rewrite (le_int_integer _ limit _ Hint) in Hexit. lia.
  - exfalso. destruct (Hfails s0) as (error & s1 & Hfn). congruence.
  - rewrite (eq_int_integer _ limit _ Hint) in Heq. apply Z.eqb_eq in Heq.
    destruct (Hcalls (inl e)) as (Hcount & Hseq & Hlast).
    simpl. rewrite Htrace, Hseq, Hcount, Hlast.
    split; [lia|]. split; [reflexivity|]. split; [|intros _; exact Heq].
    intros _. exists e. rewrite Heq. auto.
  - rewrite (le_int_integer _ limit _ Hint) in Hle.
    rewrite (eq_int_integer _ limit _ Hint) in Hne.
    destruct (Hcalls (inl e)) as (Hcount & Hseq & _).
    assert (Hsame : invocations trace = invocations (rounds ++ [Called n (inl e)])).
    { rewrite Htrace.
      change (rounds ++ [Called n (inl e); Notified n e])%list
        with (rounds ++ [Called n (inl e)] ++ [Notified n e])%list.
      rewrite app_assoc, (invocations_app (_ ++ _)). simpl. apply app_nil_r. }
    simpl. rewrite Hsame, Hseq, Hcount.
    split; [lia|]. split; [reflexivity|]. split; [lia|].
    intros Hreturns. specialize (Hreturns cb Hcb n e s3).
    rewrite Hcall in Hreturns. discriminate.
Qed.

Lemma C6_retry_exhausted_witness :
  let fn := fun calls : nat => (@inl nat unit calls, Datatypes.S calls) in
  let options :=
    mkOptions (E := nat) (S := nat) None (Some (of_Z 100)) None None in
  retry 3 fn options 0%nat
  = Some (Rejected (Some 2%nat), 3%nat,
          [Called 1 (inl 0%nat); Slept (of_Z 100);
           Called 2 (inl 1%nat); Slept (of_Z 200);
           Called 3 (inl 2%nat)])
  /\ exists out s' trace error,
       retry 3 fn options 0%nat = Some (out, s', trace)
       /\ last (invocations trace) = Some (3, inl error)
       /\ out = Rejected (Some error).
Proof.
  intros fn options. split; [vm_compute; reflexivity|].
  destruct (C6_retry_exhausted fn options 0%nat 3)
    as (out & s' & trace & Hrun & _ & _ & Hlast & Hall).
  - intros calls. exists calls, (Datatypes.S calls). reflexivity.
  - simpl. reflexivity.
  - lia.
  - destruct Hlast as (error & Hlast & Hout).
    { apply Hall. intros callback Hcb. discriminate. }
    exists out, s', trace, error. split; [apply Hrun; simpl; lia|auto].
Defined.

(** ** [withTimeout] *)

Lemma timer_delay_in_range (ms : number) (m : Z) :
  is_integer ms m -> 1 <= m <= 2147483647 -> timer_delay ms = m.
Proof.
  destruct ms as [| |q|]; simpl; try contradiction. intros Hq Hm.
  assert (H1 : Qle_bool 1 q = true).
  { apply Qle_bool_iff. rewrite Hq. change 1%Q with (inject_Z 1).
    rewrite <- Zle_Qle. lia. }
  assert (H2 : Qle_bool q (inject_Z 2147483647) = true).
  { apply Qle_bool_iff. rewrite Hq, <- Zle_Qle. lia. }
  rewrite H1, H2. simpl. rewrite (Qfloor_comp _ _ Hq). apply Qfloor_Z.
Qed.

(** C5, as stated, fails in its second half. An operation that is rejected
    in time makes [withTimeout] reject with the operation's error: it does
    not resolve. And a duration above [2^31 - 1] makes the timer fire after
    1 ms, so that an operation well within the duration is cut off. *)
Lemma C5_counterexample :
  withTimeout "Operation timed out"
    (Settles (T := nat) 10 (Failed "refused")) (of_Z 50) (Some "too slow")
  = Settles 10 (Failed "refused")
  /\ withTimeout "Operation timed out"
       (Settles 10 (Fulfilled 7%nat)) (of_Z 2147483648) (Some "too slow")
     = Settles 1 (Failed "too slow").
Proof. split; reflexivity. Qed.

(** C5 (amended). For an integer duration [ms] from 1 to [2^31 - 1]:
    [withTimeout(p, ms, err)] is rejected with [err], at [ms], when the
    operation settles later than [ms] or never; otherwise it settles as the
    operation does, resolved with its value or rejected with its error.
    Without a third argument the error is "Operation timed out". *)
Theorem C5_withTimeout_settles {T E : Type} (operationTimedOut : E)
    (p : promise T E) (ms : number) (m : Z) (err : E) :
  is_integer ms m ->
  1 <= m <= 2147483647 ->
  (forall t o, p = Settles t o -> (inject_Z m < t)%Q ->
               withTimeout operationTimedOut p ms (Some err)
               = Settles (inject_Z m) (Failed err))
  /\ (p = Pending ->
      withTimeout operationTimedOut p ms (Some err)
      = Settles (inject_Z m) (Failed err))
  /\ (forall t o, p = Settles t o -> (t <= inject_Z m)%Q ->
                  withTimeout operationTimedOut p ms (Some err) = Settles t o)
  /\ (p = Pending ->
      withTimeout operationTimedOut p ms None
      = Settles (inject_Z m) (Failed operationTimedOut)).
Proof.
  intros Hint Hm. unfold withTimeout, finally.
  rewrite (timer_delay_in_range ms m Hint Hm). simpl.
  split; [|split; [|split]].
  - intros t o -> Hlate. simpl. rewrite Qle_bool_false by exact Hlate.
    reflexivity.
  - intros ->. reflexivity.
  - intros t o -> Hearly. simpl. rewrite Qle_bool_true by exact Hearly.
    reflexivity.
  - intros ->. reflexivity.
Qed.

Lemma C5_withTimeout_settles_witness :
  withTimeout "Operation timed out"
    (Settles 100 (Fulfilled "too late")) (of_Z 50) (Some "Custom timeout")
  = Settles 50 (Failed "Custom timeout")
  /\ withTimeout "Operation timed out"
       (Settles 50 (Fulfilled "success")) (of_Z 200) (Some "Custom timeout")
     = Settles 50 (Fulfilled "success").
Proof.
  split.
  - apply (proj1 (C5_withTimeout_settles "Operation timed out"
                    (Settles 100 (Fulfilled "too late")) (of_Z 50) 50
                    "Custom timeout" (reflexivity _) ltac:(lia))
             100%Q (Fulfilled "too late") eq_refl).
    reflexivity.
  - apply (proj1 (proj2 (proj2 (C5_withTimeout_settles "Operation timed out"
                    (Settles 50 (Fulfilled "success")) (of_Z 200) 200
                    "Custom timeout" (reflexivity _) ltac:(lia))))
             50%Q (Fulfilled "success") eq_refl).
    discriminate.
Defined.

(** * Further properties of the code *)

(** ** The schema, in full *)

Lemma field_skip (k k' : string) (x : json) (fields : list (string * json)) :
  k <> k' -> field k ((k', x) :: fields) = field k fields.
Proof.
  intros Hne. simpl. destruct (String.eqb_spec k k'); [contradiction|reflexivity].
Qed.

(** X1. [AppConfigSchema.safeParse] succeeds exactly on objects whose [name]
    is a string of 1 to 50 characters and whose [description] is absent or
    a string; a key the schema does not declare never changes the verdict. *)
Theorem safeParse_success_iff (v : json) :
  (success (safeParse v) = true
   <-> exists fields s,
         v = JObj fields
         /\ field "name" fields = Some (JStr s)
         /\ (1 <= String.length s <= 50)%nat
         /\ (field "description" fields = None
             \/ exists d, field "description" fields = Some (JStr d)))
  /\ (forall fields k x,
        v = JObj fields -> k <> "name" -> k <> "description" ->
        success (safeParse (JObj ((k, x) :: fields))) = success (safeParse v)).
Proof.
  split; [split|].
  - intros Hok.
    destruct (safeParse_success_inv v Hok) as (fields & s & -> & Hn & Hlen & Hd).
    exists fields, s. repeat split; auto; try lia.
    destruct (field "description" fields) as [[| | |d| |]|];
      try discriminate; eauto.
  - intros (fields & s & -> & Hn & Hlen & Hd).
    rewrite (safeParse_success_intro fields s Hn Hlen); [reflexivity|].
    destruct Hd as [-> | [d ->]]; reflexivity.
  - intros fields k x -> Hk1 Hk2.
    unfold safeParse.
    rewrite !field_skip by congruence.
    destruct (check_name _ ++ check_description _)%list; reflexivity.
Qed.

(** ** Where record files live *)

Section RecordPaths.

Variable configDir : path.

Lemma split_app_tail (sep : ascii) (s t : string) :
  JsString.includes t sep = false ->
  exists init stem,
    JsString.split sep (s ++ t) = (init ++ [(stem ++ t)%string])%list.
Proof.
  intros Ht. induction s as [|c s IH].
  - exists [], "". change ("" ++ t) with t.
    rewrite split_without_separator by exact Ht. reflexivity.
  - destruct IH as (init & stem & IH).
    change (String c s ++ t) with (String c (s ++ t)). simpl. rewrite IH.
    destruct (Ascii.eqb c sep).
    + exists ("" :: init), stem. reflexivity.
    + destruct init as [|seg init].
      * exists [], (String c stem). reflexivity.
      * exists (String c seg :: init), stem. reflexivity.
Qed.

(** The file of a record is some directory's entry with the extension
    [.json]; it is never the root. *)
Lemma getConfigFilePath_shape (name : string) :
  exists d stem,
    getConfigFilePath configDir name = (d ++ [(stem ++ ".json")%string])%list.
Proof.
  unfold getConfigFilePath, join.
  destruct (split_app_tail "/" name ".json" eq_refl) as (init & stem & ->).
  rewrite fold_left_app. simpl. rewrite push_segment_file. eauto.
Qed.

Lemma getConfigFilePath_nonempty (name : string) :
  getConfigFilePath configDir name <> [].
Proof.
  destruct (getConfigFilePath_shape name) as (d & stem & ->).
  destruct d; discriminate.
Qed.

(** Names without a slash have files of their own. *)
Lemma getConfigFilePath_plain_inj (n m : string) :
  JsString.includes n "/" = false -> JsString.includes m "/" = false ->
  getConfigFilePath configDir n = getConfigFilePath configDir m -> n = m.
Proof.
  intros Hn Hm Heq. rewrite !getConfigFilePath_plain in Heq by assumption.
  apply app_inv_head in Heq. injection Heq as Heq.
  apply (string_app_inv_tail n m ".json"), Heq.
Qed.

End RecordPaths.

(** X2. [getConfig(name)] returns a record exactly when the file of that
    name holds the text of a JSON value that passes the schema, and the
    record is that value; so what it returns always passes the schema. *)
Theorem getConfig_some_iff (configDir : path) (name : string) (v : json)
    (w : world) :
  (fst (getConfig configDir name w) = Ok (Some v)
   <-> (exists k, files w !! getConfigFilePath configDir name
                  = Some (File (JsonText k v)))
       /\ success (safeParse v) = true)
  /\ (fst (getConfig configDir name w) = Ok (Some v) ->
      success (safeParse v) = true).
Proof.
  destruct (getConfig_run configDir name w) as [out ->]. simpl.
  assert (Hiff :
    Ok (stored_record (files w) (getConfigFilePath configDir name)) = Ok (Some v)
    <-> (exists k, files w !! getConfigFilePath configDir name
                   = Some (File (JsonText k v)))
        /\ success (safeParse v) = true).
  { unfold stored_record. split.
    - intros [= H].
      destruct (readFileSync (files w) (getConfigFilePath configDir name))
        as [e|c] eqn:Hread; [discriminate|].
      apply readFileSync_inr in Hread as [_ Hfile].
      destruct c as [k v'|raw]; simpl in H; [|discriminate].
      destruct (success (safeParse v')) eqn:Hok; [|discriminate].
      injection H as <-. eauto.
    - intros [[k Hfile] Hok].
      assert (Hread : readFileSync (files w) (getConfigFilePath configDir name)
                      = inr (JsonText k v)).
      { apply readFileSync_inr. split;
          [apply getConfigFilePath_nonempty|exact Hfile]. }
      rewrite Hread. simpl. rewrite Hok. reflexivity. }
  split; [exact Hiff|]. intros H. apply Hiff in H. apply H.
Qed.

Lemma getConfig_some_iff_witness :
  fst (getConfig Example.dir "dev"
         (snd (saveConfig Example.dir (AppConfig "dev" None) Example.fresh)))
  = Ok (Some (AppConfig "dev" None)).
Proof.
  apply (proj1 (getConfig_some_iff Example.dir "dev" (AppConfig "dev" None) _)).
  split; [exists 2%nat; vm_compute; reflexivity | reflexivity].
Defined.

Lemma safeParse_success_iff_witness :
  success (safeParse (JObj [("apiUrl", JStr "https://example.org");
                            ("name", JStr "dev")])) = true.
Proof.
  rewrite (proj2 (safeParse_success_iff (JObj [("name", JStr "dev")]))
             [("name", JStr "dev")] "apiUrl" (JStr "https://example.org")
             eq_refl) by discriminate.
  apply (proj1 (safeParse_success_iff (JObj [("name", JStr "dev")]))).
  exists [("name", JStr "dev")], "dev". simpl. repeat split; auto; lia.
Defined.

(** ** What each operation leaves alone *)

Section Frames.

Variable configDir : path.

Lemma saveConfig_frame (config : json) (name : string) (w : world) (p : path) :
  member config "name" = inr (Some (JStr name)) ->
  p <> getConfigFilePath configDir name ->
  files (snd (saveConfig configDir config w)) !! p = files w !! p.
Proof.
  intros Hname Hp.
  destruct (success (safeParse config)) eqn:Hok.
  - destruct (saveConfig_valid_run configDir config name w Hok Hname) as [out ->].
    destruct (writeFileSync _ _ _) as [e|m'] eqn:Hwrite; [reflexivity|].
    apply writeFileSync_inr in Hwrite as [_ ->]. simpl.
    apply lookup_insert_ne. congruence.
  - destruct (saveConfig_invalid_run configDir config w Hok) as [out ->].
    reflexivity.
Qed.

Lemma setCurrentConfig_frame (name : string) (w : world) (p : path) :
  p <> currentConfigFile configDir ->
  files (snd (setCurrentConfig configDir name w)) !! p = files w !! p.
Proof.
  intros Hp.
  destruct (setCurrentConfig_run configDir name w) as [out ->].
  destruct (existsSync _ _); [|reflexivity].
  destruct (writeFileSync _ _ _) as [e|m'] eqn:Hwrite; [reflexivity|].
  apply writeFileSync_inr in Hwrite as [_ ->]. simpl.
  apply lookup_insert_ne. congruence.
Qed.

Lemma deleteConfig_frame (name : string) (w : world) (p : path) :
  p <> getConfigFilePath configDir name ->
  p <> currentConfigFile configDir ->
  files (snd (deleteConfig configDir name w)) !! p = files w !! p.
Proof.
  intros Hp Hq.
  destruct (deleteConfig_run configDir name w) as [out ->].
  destruct (existsSync _ _); [|reflexivity].
  destruct (unlinkSync _ _) as [e|m1] eqn:Hunlink; [reflexivity|].
  apply unlinkSync_inr in Hunlink as (_ & _ & ->). simpl.
  destruct (match active_name _ _ with Some v => _ | None => _ end).
  - destruct (writeFileSync _ _ _) as [e|m2] eqn:Hwrite.
    + apply lookup_delete_ne. congruence.
    + apply writeFileSync_inr in Hwrite as [_ ->].
      rewrite lookup_insert_ne by congruence.
      apply lookup_delete_ne. congruence.
  - apply lookup_delete_ne. congruence.
Qed.

End Frames.

(** X3. Every writing operation touches only its own file: [saveConfig]
    only the file of the record's name, [setCurrentConfig] only the pointer
    file, [deleteConfig] only the file of the name and the pointer file.
    Every other path on the disk is as it was, whatever the operation
    returns. *)
Theorem store_operations_frame (configDir : path) (w : world) (p : path) :
  (forall config name,
     member config "name" = inr (Some (JStr name)) ->
     p <> getConfigFilePath configDir name ->
     files (snd (saveConfig configDir config w)) !! p = files w !! p)
  /\ (forall name,
        p <> currentConfigFile configDir ->
        files (snd (setCurrentConfig configDir name w)) !! p = files w !! p)
  /\ (forall name,
        p <> getConfigFilePath configDir name ->
        p <> currentConfigFile configDir ->
        files (snd (deleteConfig configDir name w)) !! p = files w !! p).
Proof.
  split; [|split].
  - intros config name Hname Hp. apply (saveConfig_frame _ _ name); assumption.
  - intros name Hp. apply setCurrentConfig_frame, Hp.
  - intros name Hp Hq. apply deleteConfig_frame; assumption.
Qed.

Lemma store_operations_frame_witness :
  let w := snd (saveConfig Example.dir (AppConfig "dev" None) Example.fresh) in
  files (snd (deleteConfig Example.dir "prod" w))
    !! getConfigFilePath Example.dir "dev"
  = files w !! getConfigFilePath Example.dir "dev".
Proof.
  intros w.
  apply (proj2 (proj2 (store_operations_frame Example.dir w
                         (getConfigFilePath Example.dir "dev"))));
    vm_compute; discriminate.
Defined.

Lemma stored_record_same_file (m m' : gmap path node) (p : path) :
  m' !! p = m !! p -> stored_record m' p = stored_record m p.
Proof.
  intros H. unfold stored_record, readFileSync. destruct p; [reflexivity|].
  rewrite H. reflexivity.
Qed.

(** X4. Records whose names hold no [/] do not interfere: saving or
    deleting the record named [n] leaves what [getConfig(m)] returns
    unchanged for every other such name [m] (for [deleteConfig], other than
    [current], whose file is the pointer). *)
Theorem other_records_untouched (configDir : path) (n m : string) (w : world) :
  JsString.includes n "/" = false ->
  JsString.includes m "/" = false ->
  n <> m ->
  (forall config,
     member config "name" = inr (Some (JStr n)) ->
     fst (getConfig configDir m (snd (saveConfig configDir config w)))
     = fst (getConfig configDir m w))
  /\ (m <> "current" ->
      fst (getConfig configDir m (snd (deleteConfig configDir n w)))
      = fst (getConfig configDir m w)).
Proof.
  intros Hn Hm Hne.
  assert (Hpath : getConfigFilePath configDir m <> getConfigFilePath configDir n).
  { intros Heq. apply Hne. symmetry.
    apply (getConfigFilePath_plain_inj configDir m n); assumption. }
  split.
  - intros config Hname.
    destruct (getConfig_run configDir m (snd (saveConfig configDir config w)))
      as [out1 ->].
    destruct (getConfig_run configDir m w) as [out2 ->]. simpl. f_equal.
    apply stored_record_same_file.
    apply (saveConfig_frame configDir config n w _ Hname Hpath).
  - intros Hcur.
    destruct (getConfig_run configDir m (snd (deleteConfig configDir n w)))
      as [out1 ->].
    destruct (getConfig_run configDir m w) as [out2 ->]. simpl. f_equal.
    apply stored_record_same_file.
    apply (deleteConfig_frame configDir n w _ Hpath).
    apply getConfigFilePath_plain_not_pointer; assumption.
Qed.

Lemma other_records_untouched_witness :
  let w := snd (saveConfig Example.dir (AppConfig "dev" None) Example.fresh) in
  fst (getConfig Example.dir "dev"
         (snd (saveConfig Example.dir (AppConfig "prod" (Some "live")) w)))
  = fst (getConfig Example.dir "dev" w).
Proof.
  intros w.
  apply (proj1 (other_records_untouched Example.dir "prod" "dev" w
                  eq_refl eq_refl ltac:(discriminate))).
  reflexivity.
Defined.

(** ** Deleting *)

(** X5. After [deleteConfig(name)] returns [true] the record is gone:
    [configExists(name)] is [false] and [getConfig(name)] returns [null],
    and a second [deleteConfig(name)] returns [false]. When [deleteConfig]
    returns [false] no file has changed. *)
Theorem deleteConfig_outcomes (configDir : path) (name : string) (w : world) :
  (fst (deleteConfig configDir name w) = Ok true ->
     let w' := snd (deleteConfig configDir name w) in
     fst (configExists configDir name w') = Ok false
     /\ fst (getConfig configDir name w') = Ok None
     /\ fst (deleteConfig configDir name w') = Ok false)
  /\ (fst (deleteConfig configDir name w) = Ok false ->
      files (snd (deleteConfig configDir name w)) = files w).
Proof.
  destruct (deleteConfig_run configDir name w) as [out Hrun]. rewrite Hrun.
  destruct (existsSync (files w) (getConfigFilePath configDir name)) eqn:Hex;
    [|split; [discriminate|reflexivity]].
  destruct (unlinkSync (files w) (getConfigFilePath configDir name))
    as [e|m1] eqn:Hunlink; [split; [discriminate|reflexivity]|].
  split; [|discriminate]. intros _.
  apply unlinkSync_inr in Hunlink as (Hp & _ & ->). simpl.
  match goal with
  | |- context [mkWorld ?f (logLevel w) out] => set (final := f)
  end.
  assert (Hgone : final !! getConfigFilePath configDir name = None).
  { subst final.
    destruct (decide (currentConfigFile configDir = getConfigFilePath configDir name))
      as [Heq|Hne].
    - rewrite Heq at 1.
      rewrite (active_name_missing (delete _ (files w)) _ (lookup_delete_eq _ _)).
      apply lookup_delete_eq.
    - destruct (match active_name _ _ with Some v => _ | None => _ end);
        [|apply lookup_delete_eq].
      destruct (writeFileSync _ _ _) as [e|m2] eqn:Hwrite;
        [apply lookup_delete_eq|].
      apply writeFileSync_inr in Hwrite as [_ ->].
      rewrite lookup_insert_ne by congruence. apply lookup_delete_eq. }
  assert (Hex' : existsSync final (getConfigFilePath configDir name) = false).
  { unfold existsSync. destruct (getConfigFilePath configDir name);
      [congruence|]. rewrite Hgone. reflexivity. }
  repeat split.
  - unfold configExists, existsSyncM. simpl. rewrite Hex'. reflexivity.
  - match goal with
    | |- context [getConfig configDir name ?w1] =>
        destruct (getConfig_run configDir name w1) as [out1 ->]
    end.
    simpl. rewrite stored_record_missing by exact Hex'. reflexivity.
  - match goal with
    | |- context [deleteConfig configDir name ?w1] =>
        destruct (deleteConfig_run configDir name w1) as [out1 ->]
    end.
    simpl. rewrite Hex'. reflexivity.
Qed.

Lemma deleteConfig_outcomes_witness :
  let w := snd (saveConfig Example.dir (AppConfig "dev" None) Example.fresh) in
  fst (getConfig Example.dir "dev" (snd (deleteConfig Example.dir "dev" w)))
  = Ok None
  /\ files (snd (deleteConfig Example.dir "prod" w)) = files w.
Proof.
  intros w. split.
  - apply (proj1 (deleteConfig_outcomes Example.dir "dev" w)).
    vm_compute. reflexivity.
  - apply (proj2 (deleteConfig_outcomes Example.dir "prod" w)).
    vm_compute. reflexivity.
Defined.

(** ** Activating *)

Lemma active_name_written (m : gmap path node) (p : path) (name : string) :
  p <> [] ->
  active_name (<[p := File (JSON_stringify (JObj [("name", JStr name)]) 0)]> m) p
  = if String.eqb name "" then None else Some (JStr name).
Proof.
  intros Hp. unfold active_name.
  assert (Hr : readFileSync
                 (<[p := File (JSON_stringify (JObj [("name", JStr name)]) 0)]> m) p
               = inr (JSON_stringify (JObj [("name", JStr name)]) 0)).
  { apply readFileSync_inr. split; [exact Hp|apply lookup_insert_eq]. }
  rewrite Hr. simpl. destruct (String.eqb name ""); reflexivity.
Qed.

(** X6. After [setCurrentConfig(name)] returns [true], [getCurrentConfig()]
    returns [name], unless [name] is the empty string, which reads back as
    no active configuration. When the file of [name] is not the pointer
    file, [getCurrentConfigData()] then returns what [getConfig(name)]
    returned before. *)
Theorem setCurrentConfig_then_current (configDir : path) (name : string)
    (w : world) :
  fst (setCurrentConfig configDir name w) = Ok true ->
  let w' := snd (setCurrentConfig configDir name w) in
  fst (getCurrentConfig configDir w')
  = Ok (if String.eqb name "" then None else Some (JStr name))
  /\ (name <> "" ->
      getConfigFilePath configDir name <> currentConfigFile configDir ->
      fst (getCurrentConfigData configDir w') = fst (getConfig configDir name w)).
Proof.
  intros Hset w'. subst w'.
  destruct (setCurrentConfig_run configDir name w) as [out Hrun].
  rewrite Hrun in *. clear Hrun.
  destruct (existsSync (files w) (getConfigFilePath configDir name));
    [|discriminate].
  destruct (writeFileSync (files w) (currentConfigFile configDir) _)
    as [e|m'] eqn:Hwrite; [discriminate|].
  apply writeFileSync_inr in Hwrite as [Hp ->]. simpl. split.
  - match goal with
    | |- context [getCurrentConfig configDir ?w1] =>
        destruct (getCurrentConfig_run configDir w1) as [out1 ->]
    end.
    simpl. rewrite active_name_written by exact Hp. reflexivity.
  - intros Hname Hfile.
    match goal with
    | |- context [getCurrentConfigData configDir ?w1] =>
        destruct (getCurrentConfigData_run configDir w1) as [out1 ->]
    end.
    destruct (getConfig_run configDir name w) as [out2 ->]. simpl.
    rewrite active_name_written by exact Hp.
    destruct (String.eqb_spec name ""); [contradiction|]. simpl. f_equal.
    apply stored_record_same_file, lookup_insert_ne. congruence.
Qed.

Lemma setCurrentConfig_then_current_witness :
  let w := snd (saveConfig Example.dir (AppConfig "dev" (Some "local"))
                  Example.fresh) in
  fst (getCurrentConfig Example.dir (snd (setCurrentConfig Example.dir "dev" w)))
  = Ok (Some (JStr "dev"))
  /\ fst (getCurrentConfigData Example.dir
            (snd (setCurrentConfig Example.dir "dev" w)))
     = Ok (Some (AppConfig "dev" (Some "local"))).
Proof.
  intros w.
  destruct (setCurrentConfig_then_current Example.dir "dev" w) as [Hname Hdata];
    [vm_compute; reflexivity|].
  split; [exact Hname|].
  rewrite Hdata; [vm_compute; reflexivity | discriminate | vm_compute; discriminate].
Defined.

(** ** The constructor *)

Section Constructor.

Variable configDir : path.

Lemma mkdir_from_spec (todo : list string) :
  forall (m m' : gmap path node) (above : path),
    mkdir_from m above todo = inr m' ->
    is_dir m above = true ->
    is_dir m' (above ++ todo)%list = true
    /\ (forall p x, m !! p = Some x -> m' !! p = Some x)
    /\ (forall p, m' !! p = Some Dir \/ m' !! p = m !! p).
Proof.
  induction todo as [|seg rest IH]; intros m m' above Hrun Hdir.
  - injection Hrun as <-. rewrite app_nil_r. auto.
  - simpl in Hrun.
    replace (above ++ seg :: rest)%list with ((above ++ [seg]) ++ rest)%list
      by (rewrite <- app_assoc; reflexivity).
    destruct (m !! (above ++ [seg])%list) as [[c|]|] eqn:Hd; [discriminate| |].
    + apply IH in Hrun; [exact Hrun|].
      unfold is_dir. rewrite Hd. destruct (above ++ [seg])%list; reflexivity.
    + apply IH in Hrun.
      * destruct Hrun as (Hres & Hkeep & Honly). split; [exact Hres|]. split.
        -- intros p x Hp. apply Hkeep.
           rewrite lookup_insert_ne by congruence. exact Hp.
        -- intros p. destruct (Honly p) as [H|H]; [auto|].
           destruct (decide (p = (above ++ [seg])%list)) as [->|Hne].
           ++ left. rewrite H. apply lookup_insert_eq.
           ++ right. rewrite H. apply lookup_insert_ne. congruence.
      * unfold is_dir. rewrite lookup_insert_eq.
        destruct (above ++ [seg])%list; reflexivity.
Qed.

Lemma is_dir_exists (m : gmap path node) (p : path) :
  is_dir m p = true -> existsSync m p = true.
Proof.
  unfold is_dir, existsSync. destruct p; [reflexivity|].
  destruct (m !! _) as [[|]|]; try discriminate; reflexivity.
Qed.

End Constructor.

Lemma constructor_run (configDir : path) (w : world) :
  exists out,
    constructor configDir w
    = if existsSync (files w) configDir
      then ensureCurrentConfigFileExists configDir w
      else match mkdirSync (files w) configDir with
           | inr m1 =>
               ensureCurrentConfigFileExists configDir
                 (mkWorld m1 (logLevel w) out)
           | inl e => (Throw e, w)
           end.
Proof.
  unfold constructor, ensureConfigDirExists, bind, existsSyncM, fs_write, ret.
  simpl. destruct (existsSync (files w) configDir); simpl.
  - exists (console w). reflexivity.
  - destruct (mkdirSync (files w) configDir) as [e|m1]; simpl.
    + exists (console w). reflexivity.
    + destruct (log_run DEBUG
                  [LStr ("Config directory created: " ++ show_path configDir)]
                  (mkWorld m1 (logLevel w) (console w))) as [out ->].
      simpl. exists out. reflexivity.
Qed.

(** X7. On a well-formed disk, when the constructor returns, the store
    directory is a directory and the pointer file exists; everything that
    was on the disk before is still there unchanged (an existing pointer
    file keeps naming the active configuration), and running the
    constructor again changes no file. *)
Theorem constructor_establishes_store (configDir : path) (w : world) :
  well_formed (files w) ->
  fst (constructor configDir w) = Ok tt ->
  let w' := snd (constructor configDir w) in
  is_dir (files w') configDir = true
  /\ existsSync (files w') (currentConfigFile configDir) = true
  /\ (forall p x, files w !! p = Some x -> files w' !! p = Some x)
  /\ fst (constructor configDir w') = Ok tt
  /\ files (snd (constructor configDir w')) = files w'.
Proof.
  intros Hwf Hrun w'. subst w'.
  assert (Hagain : forall w1,
             is_dir (files w1) configDir = true ->
             existsSync (files w1) (currentConfigFile configDir) = true ->
             fst (constructor configDir w1) = Ok tt
             /\ files (snd (constructor configDir w1)) = files w1).
  { intros w1 Hd He. unfold constructor, ensureConfigDirExists,
      ensureCurrentConfigFileExists. run.
    rewrite (is_dir_exists _ _ Hd). simpl. rewrite He. simpl. auto. }
  assert (Hparent : dirname (currentConfigFile configDir) = configDir).
  { rewrite currentConfigFile_path. apply removelast_last. }
  assert (Hptr_ne : currentConfigFile configDir <> []).
  { rewrite currentConfigFile_path. destruct configDir; discriminate. }
  assert (Hdistinct : currentConfigFile configDir <> configDir).
  { rewrite currentConfigFile_path. intros H.
    apply (f_equal (@length string)) in H. rewrite length_app in H.
    simpl in H. lia. }
  assert (Hfinish : forall w1,
             is_dir (files w1) configDir = true ->
             (forall p x, files w !! p = Some x -> files w1 !! p = Some x) ->
             fst (ensureCurrentConfigFileExists configDir w1) = Ok tt ->
             fst (ensureCurrentConfigFileExists configDir w1) = Ok tt
             /\ is_dir (files (snd (ensureCurrentConfigFileExists configDir w1)))
                  configDir = true
             /\ existsSync (files (snd (ensureCurrentConfigFileExists configDir w1)))
                  (currentConfigFile configDir) = true
             /\ (forall p x, files w !! p = Some x ->
                   files (snd (ensureCurrentConfigFileExists configDir w1)) !! p
                   = Some x)).
  { intros w1 Hd Hkeep. unfold ensureCurrentConfigFileExists. run.
    destruct (existsSync (files w1) (currentConfigFile configDir)) eqn:Hptr; simpl.
    - auto.
    - apply existsSync_false in Hptr as [Hnone _].
      unfold writeFileSync.
      destruct (currentConfigFile configDir) as [|seg rest] eqn:Hcur;
        [congruence|].
      rewrite Hnone. rewrite <- Hcur in *.
      destruct (has_nul (currentConfigFile configDir)); [discriminate|].
      rewrite Hparent, Hd. simpl. run. intros _.
      repeat split.
      + unfold is_dir in *. destruct configDir as [|s0 l0]; [reflexivity|].
        rewrite lookup_insert_ne by congruence. exact Hd.
      + unfold existsSync. rewrite Hcur. rewrite <- Hcur.
        rewrite lookup_insert_eq. reflexivity.
      + intros p x Hp.
        rewrite lookup_insert_ne; [apply Hkeep, Hp|].
        intros <-. apply Hkeep in Hp. congruence. }
  assert (Hassemble : forall w1,
             fst (ensureCurrentConfigFileExists configDir w1) = Ok tt
             /\ is_dir (files (snd (ensureCurrentConfigFileExists configDir w1)))
                  configDir = true
             /\ existsSync (files (snd (ensureCurrentConfigFileExists configDir w1)))
                  (currentConfigFile configDir) = true
             /\ (forall p x, files w !! p = Some x ->
                   files (snd (ensureCurrentConfigFileExists configDir w1)) !! p
                   = Some x) ->
             let w2 := snd (ensureCurrentConfigFileExists configDir w1) in
             is_dir (files w2) configDir = true
             /\ existsSync (files w2) (currentConfigFile configDir) = true
             /\ (forall p x, files w !! p = Some x -> files w2 !! p = Some x)
             /\ fst (constructor configDir w2) = Ok tt
             /\ files (snd (constructor configDir w2)) = files w2).
  { intros w1 (_ & Hd & He & Hkeep) w2. subst w2.
    destruct (Hagain _ Hd He) as [H1 H2]. auto. }
  destruct (constructor_run configDir w) as [out Heq]. rewrite Heq in *.
  clear Heq.
  destruct (existsSync (files w) configDir) eqn:Hex.
  - destruct (is_dir (files w) configDir) eqn:Hd.
    + apply Hassemble, Hfinish; auto.
    + exfalso. revert Hrun. unfold ensureCurrentConfigFileExists. run.
      destruct (existsSync (files w) (currentConfigFile configDir)) eqn:Hptr.
      * unfold existsSync in Hptr.
        destruct (currentConfigFile configDir) as [|seg rest] eqn:Hcur;
          [congruence|].
        destruct (files w !! (seg :: rest)) as [x|] eqn:Hx; [|discriminate].
        apply Hwf in Hx. rewrite Hparent in Hx. congruence.
      * simpl. apply existsSync_false in Hptr as [Hnone _].
        unfold writeFileSync.
        destruct (currentConfigFile configDir) as [|seg rest] eqn:Hcur;
          [congruence|].
        rewrite Hnone, Hparent, Hd.
        destruct (has_nul (seg :: rest)); [discriminate|].
        destruct (existsSync (files w) configDir); simpl; discriminate.
  - destruct (mkdirSync (files w) configDir) as [e|m1] eqn:Hmk;
      [discriminate|].
    unfold mkdirSync in Hmk. destruct (has_nul configDir); [discriminate|].
    apply mkdir_from_spec in Hmk as (Hd & Hkeep & _); [|reflexivity].
    apply Hassemble, Hfinish; auto.
Qed.

Lemma constructor_establishes_store_witness :
  is_dir (files Example.fresh) Example.dir = true
  /\ existsSync (files Example.fresh) (currentConfigFile Example.dir) = true.
Proof.
  destruct (constructor_establishes_store Example.dir Example.blank)
    as (Hd & He & _).
  - intros p x Hp. simpl in Hp. rewrite lookup_empty in Hp. discriminate.
  - vm_compute. reflexivity.
  - split; [exact Hd|exact He].
Defined.

(** ** Listing *)

Section Listing.

Variable configDir : path.

Lemma entries_spec (m : gmap path node) (d : path) (f : string) :
  f ∈ entries m d <-> exists x, m !! (d ++ [f])%list = Some x.
Proof.
  unfold entries. rewrite list_elem_of_omap. split.
  - intros ([p x] & Hin & Hf). apply elem_of_map_to_list in Hin.
    cbn [fst] in Hf.
    destruct p as [|seg rest]; [discriminate|].
    destruct (decide (dirname (seg :: rest) = d)) as [Hd|]; [|discriminate].
    injection Hf as Hf. exists x.
    rewrite (app_removelast_last "" (l := seg :: rest)) in Hin by discriminate.
    unfold dirname in Hd. unfold basename in Hf. rewrite Hd, Hf in Hin. exact Hin.
  - intros [x Hx]. exists ((d ++ [f])%list, x). split.
    + apply elem_of_map_to_list, Hx.
    + cbn [fst]. destruct (d ++ [f])%list as [|seg rest] eqn:Hp;
        [destruct d; discriminate|].
      rewrite <- Hp. unfold dirname, basename.
      rewrite removelast_last, last_last.
      destruct (decide (d = d)); [reflexivity|contradiction].
Qed.

Lemma endsWith_app (s t : string) : JsString.endsWith (s ++ t) t = true.
Proof.
  induction s as [|c s IH].
  - change ("" ++ t) with t.
    destruct t; cbn [JsString.endsWith]; rewrite String.eqb_refl; reflexivity.
  - change (String c s ++ t) with (String c (s ++ t)).
    cbn [JsString.endsWith]. rewrite IH.
    destruct (String.eqb (String c (s ++ t)) t); reflexivity.
Qed.

Lemma endsWith_inv (s t : string) :
  JsString.endsWith s t = true -> exists pre, s = pre ++ t.
Proof.
  induction s as [|c s IH]; cbn [JsString.endsWith].
  - destruct (String.eqb_spec "" t) as [<-|]; [|discriminate].
    exists "". reflexivity.
  - destruct (String.eqb_spec (String c s) t) as [<-|_].
    + exists "". reflexivity.
    + intros H. destruct (IH H) as [pre ->]. exists (String c pre). reflexivity.
Qed.

Lemma startsWith_inv (s p : string) :
  JsString.startsWith s p = true ->
  s = p ++ JsString.drop (String.length p) s.
Proof.
  revert s. induction p as [|c p IH]; intros s H.
  - reflexivity.
  - destruct s as [|d s]; [discriminate|]. simpl in H.
    apply andb_prop in H as [Hc Hp]. apply Ascii.eqb_eq in Hc as ->.
    change (String d p ++ JsString.drop (String.length (String d p)) (String d s))
      with (String d (p ++ JsString.drop (String.length p) s)).
    f_equal. apply IH, Hp.
Qed.

(** A name without a dot gets its name back from its file name. *)
Lemma replace_extension (s : string) :
  JsString.includes s "." = false ->
  JsString.replace (s ++ ".json") ".json" "" = s.
Proof.
  induction s as [|c s IH]; intros Hdot.
  - reflexivity.
  - simpl in Hdot. apply orb_false_elim in Hdot as [Hc Hs].
    change (String c s ++ ".json") with (String c (s ++ ".json")).
    cbn [JsString.replace JsString.startsWith].
    rewrite (Ascii.eqb_sym "." c), Hc. simpl.
    rewrite IH by exact Hs. reflexivity.
Qed.

(** A listed name without a dot comes from the file of that name. *)
Lemma replace_extension_inv (f : string) :
  JsString.endsWith f ".json" = true ->
  JsString.includes (JsString.replace f ".json" "") "." = false ->
  f = JsString.replace f ".json" "" ++ ".json".
Proof.
  induction f as [|c f IH]; intros Hend Hdot.
  - discriminate.
  - cbn [JsString.replace] in *.
    destruct (JsString.startsWith (String c f) ".json") eqn:Hstart.
    + apply startsWith_inv in Hstart.
      remember (JsString.drop (String.length ".json") (String c f)) as l eqn:El.
      clear El. change ("" ++ l) with l in *.
      apply endsWith_inv in Hend as [pre Hpre].
      rewrite Hstart in Hpre. rewrite Hstart.
      destruct pre as [|d pre].
      * assert (Hl : l = "").
        { apply (f_equal String.length) in Hpre.
          rewrite !string_length_app in Hpre. simpl in Hpre.
          destruct l; [reflexivity|simpl in Hpre; lia]. }
        rewrite Hl. reflexivity.
      * exfalso.
        change (".json" ++ l) with (String "." ("json" ++ l)) in Hpre.
        change (String d pre ++ ".json") with (String d (pre ++ ".json")) in Hpre.
        injection Hpre as _ Hpre.
        apply (f_equal (fun s => JsString.includes s ".")) in Hpre.
        rewrite !includes_app, Hdot in Hpre. simpl in Hpre.
        rewrite orb_true_r in Hpre. discriminate.
    + cbn [JsString.endsWith] in Hend.
      destruct (String.eqb_spec (String c f) ".json") as [E|_].
      * rewrite E in Hstart. discriminate.
      * simpl in Hdot. apply orb_false_elim in Hdot as [_ Hdot].
        change (String c (JsString.replace f ".json" "") ++ ".json")
          with (String c (JsString.replace f ".json" "" ++ ".json")).
        f_equal. apply IH; assumption.
Qed.

Lemma listConfigs_run (w : world) :
  exists out,
    listConfigs configDir w
    = (Ok (listed_names configDir (files w)), mkWorld (files w) (logLevel w) out).
Proof.
  unfold listConfigs, listed_names. run.
  destruct (readdirSync (files w) configDir); simpl; run; [eauto|].
  exists (console w). destruct w; reflexivity.
Qed.

(** For a name without slash or dot, other than [current]: listed exactly
    when its file exists. *)
Lemma listed_names_plain (m : gmap path node) (name : string) :
  is_dir m configDir = true ->
  JsString.includes name "/" = false ->
  JsString.includes name "." = false ->
  name <> "current" ->
  In name (listed_names configDir m)
  <-> existsSync m (getConfigFilePath configDir name) = true.
Proof.
  intros Hd Hslash Hdot Hcur. unfold listed_names, readdirSync. rewrite Hd.
  rewrite getConfigFilePath_plain by exact Hslash.
  rewrite in_map_iff. split.
  - intros (f & Hf & Hin). apply filter_In in Hin as [Hin Hpred].
    apply andb_prop in Hpred as [Hend _].
    rewrite <- Hf in Hdot.
    rewrite (replace_extension_inv f Hend Hdot), Hf in Hin.
    apply list_elem_of_In, entries_spec in Hin as [x Hx].
    unfold existsSync. destruct (configDir ++ [_])%list; [reflexivity|].
    rewrite Hx. reflexivity.
  - intros Hex. exists (name ++ ".json"). split.
    + apply replace_extension, Hdot.
    + apply filter_In. split.
      * apply list_elem_of_In, entries_spec.
        unfold existsSync in Hex.
        destruct (configDir ++ [(name ++ ".json")%string])%list eqn:Hp;
          [destruct configDir; discriminate|].
        destruct (m !! _) as [x|]; [eauto|discriminate].
      * rewrite endsWith_app. simpl.
        destruct (String.eqb_spec (name ++ ".json") "current.json") as [E|_];
          [|reflexivity].
        exfalso. apply Hcur, (string_app_inv_tail name "current" ".json"), E.
Qed.

End Listing.

(** X8. [listConfigs()] and [configExists] agree on every name that holds
    no [/] and no [.] and is not [current]: when the store directory is a
    directory, such a name is listed exactly when its file exists. When the
    directory cannot be read, the list is empty. *)
Theorem listConfigs_lists_what_exists (configDir : path) (name : string)
    (w : world) :
  (is_dir (files w) configDir = true ->
   JsString.includes name "/" = false ->
   JsString.includes name "." = false ->
   name <> "current" ->
   exists names,
     fst (listConfigs configDir w) = Ok names
     /\ (In name names <-> fst (configExists configDir name w) = Ok true))
  /\ (is_dir (files w) configDir = false ->
      fst (listConfigs configDir w) = Ok []).
Proof.
  destruct (listConfigs_run configDir w) as [out ->]. simpl. split.
  - intros Hd Hslash Hdot Hcur. eexists. split; [reflexivity|].
    unfold configExists, existsSyncM. simpl.
    rewrite (listed_names_plain configDir _ name Hd Hslash Hdot Hcur).
    split; [intros ->; reflexivity|intros [= ->]; reflexivity].
  - intros Hd. unfold listed_names, readdirSync. rewrite Hd.
    destruct (existsSync (files w) configDir); reflexivity.
Qed.

Lemma listConfigs_lists_what_exists_witness :
  exists names,
    fst (listConfigs Example.dir
           (snd (saveConfig Example.dir (AppConfig "dev" None) Example.fresh)))
    = Ok names
    /\ In "dev" names.
Proof.
  destruct (proj1 (listConfigs_lists_what_exists Example.dir "dev"
                     (snd (saveConfig Example.dir (AppConfig "dev" None)
                             Example.fresh))))
    as (names & Hlist & Hiff);
    [vm_compute; reflexivity | reflexivity | reflexivity | discriminate |].
  exists names. split; [exact Hlist|].
  apply Hiff. vm_compute. reflexivity.
Defined.

(** ** Activating a name that is not there *)

(** C8, as stated, fails for the name [current]: on a fresh store no record
    is listed and [getConfig("current")] finds none, yet
    [setCurrentConfig("current")] finds the pointer file [current.json],
    returns [true] and makes [current] the active name. *)
Lemma C8_counterexample :
  fst (listConfigs Example.dir Example.fresh) = Ok []
  /\ fst (getConfig Example.dir "current" Example.fresh) = Ok None
  /\ fst (setCurrentConfig Example.dir "current" Example.fresh) = Ok true
  /\ fst (getCurrentConfig Example.dir
            (snd (setCurrentConfig Example.dir "current" Example.fresh)))
     = Ok (Some (JStr "current")).
Proof. vm_compute. repeat split; reflexivity. Qed.

(** C8 (amended). For every name [n] without [/], when the pointer file can
    be written (no I/O failure), [setCurrentConfig(n)] returns [false]
    exactly when the store directory holds no entry [n.json], and [true]
    when it holds one; whenever it returns [false], every file, the pointer
    file included, is as it was. For [n] other than [current] and without
    [.], in a store whose directory exists, the entry is missing exactly
    when [listConfigs()] does not list [n]. *)
Theorem C8_set_current_not_found (configDir : path) (n : string) (w : world) :
  JsString.includes n "/" = false ->
  writable (files w) (currentConfigFile configDir) = true ->
  fst (setCurrentConfig configDir n w)
  = Ok match files w !! (configDir ++ [(n ++ ".json")%string])%list with
       | Some _ => true
       | None => false
       end
  /\ (fst (setCurrentConfig configDir n w) = Ok false ->
      files (snd (setCurrentConfig configDir n w)) = files w)
  /\ (is_dir (files w) configDir = true ->
      JsString.includes n "." = false -> n <> "current" ->
      exists names,
        fst (listConfigs configDir w) = Ok names
        /\ (fst (setCurrentConfig configDir n w) = Ok false <-> ~ In n names)).
Proof.
  intros Hplain Hw.
  destruct (setCurrentConfig_run configDir n w) as [out ->].
  rewrite (writable_any_content _ _ _ Hw).
  assert (Hex : existsSync (files w) (getConfigFilePath configDir n)
                = match files w !! (configDir ++ [(n ++ ".json")%string])%list with
                  | Some _ => true
                  | None => false
                  end).
  { rewrite getConfigFilePath_plain by exact Hplain. unfold existsSync.
    destruct (configDir ++ [(n ++ ".json")%string])%list eqn:Hp;
      [destruct configDir; discriminate|reflexivity]. }
  split; [|split].
  - rewrite Hex. destruct (files w !! _); reflexivity.
  - destruct (existsSync _ _); [discriminate|reflexivity].
  - intros Hd Hdot Hcur.
    destruct (listConfigs_run configDir w) as [out1 ->].
    exists (listed_names configDir (files w)). split; [reflexivity|].
    rewrite (listed_names_plain configDir (files w) n Hd Hplain Hdot Hcur).
    destruct (existsSync _ _); simpl; split; congruence.
Qed.

Lemma C8_set_current_not_found_witness :
  let w := snd (saveConfig Example.dir (AppConfig "dev" None) Example.fresh) in
  fst (setCurrentConfig Example.dir "dev" w) = Ok true
  /\ fst (setCurrentConfig Example.dir "missing" w) = Ok false
  /\ files (snd (setCurrentConfig Example.dir "missing" w)) = files w
  /\ exists names,
       fst (listConfigs Example.dir w) = Ok names /\ In "dev" names
       /\ ~ In "missing" names.
Proof.
  intros w.
  destruct (C8_set_current_not_found Example.dir "dev" w)
    as (Hfound & _ & Hlisted);
    [vm_compute; reflexivity | vm_compute; reflexivity |].
  destruct (C8_set_current_not_found Example.dir "missing" w)
    as (Hmissing & Hsame & Hunlisted);
    [vm_compute; reflexivity | vm_compute; reflexivity |].
  destruct Hlisted as (names & Hnames & Hdev);
    [vm_compute; reflexivity | vm_compute; reflexivity | discriminate |].
  destruct Hunlisted as (names' & Hnames' & Hnot);
    [vm_compute; reflexivity | vm_compute; reflexivity | discriminate |].
  assert (Htrue : fst (setCurrentConfig Example.dir "dev" w) = Ok true)
    by (rewrite Hfound; vm_compute; reflexivity).
  assert (Hfalse : fst (setCurrentConfig Example.dir "missing" w) = Ok false)
    by (rewrite Hmissing; vm_compute; reflexivity).
  split; [exact Htrue|]. split; [exact Hfalse|].
  split; [exact (Hsame Hfalse)|].
  exists names. split; [exact Hnames|]. split.
  - destruct (in_dec string_dec "dev" names) as [Hin|Hout]; [exact Hin|].
    apply Hdev in Hout. rewrite Htrue in Hout. discriminate.
  - rewrite Hnames in Hnames'. injection Hnames' as <-. apply Hnot, Hfalse.
Defined.

(** ** The commands *)

Section CommandFacts.


Variable configDir : path.

Lemma stored_record_valid (m : gmap path node) (p : path) (v : json) :
  stored_record m p = Some v ->
  success (safeParse v) = true
  /\ p <> [] /\ exists k, m !! p = Some (File (JsonText k v)).
Proof.
  unfold stored_record.
  destruct (readFileSync m p) as [e|c] eqn:Hread; [discriminate|].
  apply readFileSync_inr in Hread as [Hp Hfile].
  destruct c as [k v'|raw]; simpl; [|discriminate].
  destruct (success (safeParse v')) eqn:Hok; [|discriminate].
  intros [= <-]. eauto.
Qed.

Lemma member_of_valid (v : json) (k : string) :
  success (safeParse v) = true -> exists x, member v k = inr x.
Proof.
  intros Hok. destruct (safeParse_success_inv v Hok) as (fields & s & -> & _).
  simpl. eauto.
Qed.

Lemma description_of_valid (v : json) :
  success (safeParse v) = true ->
  exists x, member v "description" = inr x
            /\ forall d, or_null x = Some d -> exists s, d = JStr s.
Proof.
  intros Hok.
  destruct (safeParse_success_inv v Hok) as (fields & s & -> & _ & _ & Hd).
  simpl. exists (field "description" fields). split; [reflexivity|].
  destruct (field "description" fields) as [[| | |t| |]|];
    simpl in *; try discriminate.
  intros d. destruct (negb (String.eqb t "")); [|discriminate].
  intros [= <-]. eauto.
Qed.

Lemma displayConfigSummary_run (data : json) (w : world) :
  success (safeParse data) = true ->
  exists out,
    UseCommand.displayConfigSummary data w
    = (Ok tt, mkWorld (files w) (logLevel w) out).
Proof.
  intros Hok. unfold UseCommand.displayConfigSummary.
  destruct (description_of_valid data Hok) as (x & -> & Hd). run.
  destruct (or_null x) as [d|]; [|exists (console w); destruct w; reflexivity].
  destruct (Hd d eq_refl) as [s ->]. run. eauto.
Qed.

Lemma displayConfigDetails_run (data : json) (w : world) :
  success (safeParse data) = true ->
  exists out,
    ListCommand.displayConfigDetails data w
    = (Ok tt, mkWorld (files w) (logLevel w) out).
Proof.
  intros Hok. unfold ListCommand.displayConfigDetails.
  destruct (description_of_valid data Hok) as (x & -> & Hd). run.
  destruct (or_null x) as [d|]; [|exists (console w); destruct w; reflexivity].
  destruct (Hd d eq_refl) as [s ->]. unfold console_log. simpl. eauto.
Qed.

Lemma displayCurrentConfigDetails_run (data : json) (w : world) :
  success (safeParse data) = true ->
  exists out,
    displayCurrentConfigDetails data w
    = (Ok tt, mkWorld (files w) (logLevel w) out).
Proof.
  intros Hok. unfold displayCurrentConfigDetails.
  destruct (description_of_valid data Hok) as (x & -> & Hd). run.
  destruct (or_null x) as [d|]; [|exists (console w); destruct w; reflexivity].
  destruct (Hd d eq_refl) as [s ->]. unfold console_log. simpl. eauto.
Qed.

Lemma useConfig_run (name : string) (w : world) :
  exists out,
    UseCommand.useConfig configDir name w
    = (Ok tt,
       mkWorld
         (if String.eqb (JsString.trim name) "" then files w
          else match stored_record (files w) (getConfigFilePath configDir name) with
               | Some _ =>
                   match writeFileSync (files w) (currentConfigFile configDir)
                           (JSON_stringify (JObj [("name", JStr name)]) 0) with
                   | inr m' => m'
                   | inl _ => files w
                   end
               | None => files w
               end)
         (logLevel w) out).
Proof.
  unfold UseCommand.useConfig.
  destruct (String.eqb (JsString.trim name) ""); run; [eauto|].
  destruct (getConfig_run configDir name w) as [out0 ->]. simpl.
  destruct (stored_record (files w) (getConfigFilePath configDir name))
    as [data|] eqn:Hstored; run; [|eauto].
  apply stored_record_valid in Hstored as (Hok & Hp & k & Hfile).
  match goal with
  | |- context [setCurrentConfig configDir name ?w1] =>
      destruct (setCurrentConfig_run configDir name w1) as [out1 ->]
  end.
  simpl. rewrite (existsSync_file _ _ _ Hfile).
  destruct (writeFileSync (files w) (currentConfigFile configDir) _)
    as [e|m']; simpl; run; [eauto|].
  match goal with
  | |- context [UseCommand.displayConfigSummary data ?w1] =>
      destruct (displayConfigSummary_run data w1 Hok) as [out2 ->]
  end.
  simpl. run. eauto.
Qed.

End CommandFacts.

(** X9. [useConfig(name)] never throws and never touches a file other than
    the pointer file. It changes nothing when the name is blank or when
    [getConfig(name)] finds no valid record; when a record is found and the
    pointer file can be written, the name becomes the active one. *)
Theorem useConfig_activates_only_records (configDir : path) (name : string)
    (w : world) :
  let w' := snd (UseCommand.useConfig configDir name w) in
  fst (UseCommand.useConfig configDir name w) = Ok tt
  /\ (forall p, p <> currentConfigFile configDir -> files w' !! p = files w !! p)
  /\ (JsString.trim name = "" \/ fst (getConfig configDir name w) = Ok None ->
      files w' = files w)
  /\ (forall record,
        JsString.trim name <> "" ->
        fst (getConfig configDir name w) = Ok (Some record) ->
        writable (files w) (currentConfigFile configDir) = true ->
        fst (getCurrentConfig configDir w') = Ok (Some (JStr name))).
Proof.
  intros w'. subst w'.
  destruct (useConfig_run configDir name w) as [out ->]. simpl.
  destruct (getConfig_run configDir name w) as [out0 ->]. simpl.
  split; [reflexivity|]. split; [|split].
  - intros p Hp. destruct (String.eqb _ ""); [reflexivity|].
    destruct (stored_record _ _); [|reflexivity].
    destruct (writeFileSync _ _ _) as [e|m'] eqn:Hwrite; [reflexivity|].
    apply writeFileSync_inr in Hwrite as [_ ->].
    apply lookup_insert_ne. congruence.
  - intros [Hblank|Hnone].
    + rewrite Hblank. reflexivity.
    + injection Hnone as ->. destruct (String.eqb _ ""); reflexivity.
  - intros record Hname [= Hrec] Hw.
    destruct (String.eqb_spec (JsString.trim name) ""); [contradiction|].
    rewrite Hrec, (writable_any_content _ _ _ Hw).
    match goal with
    | |- context [getCurrentConfig configDir ?w1] =>
        destruct (getCurrentConfig_run configDir w1) as [out1 ->]
    end.
    simpl. rewrite active_name_written.
    + destruct (String.eqb_spec name "") as [->|]; [contradiction|reflexivity].
    + unfold writable, writeFileSync in Hw.
      destruct (currentConfigFile configDir); [discriminate|discriminate].
Qed.

Lemma useConfig_activates_only_records_witness :
  let w := snd (saveConfig Example.dir (AppConfig "dev" None) Example.fresh) in
  fst (getCurrentConfig Example.dir (snd (UseCommand.useConfig Example.dir "dev" w)))
  = Ok (Some (JStr "dev"))
  /\ files (snd (UseCommand.useConfig Example.dir "prod" w)) = files w.
Proof.
  intros w.
  destruct (useConfig_activates_only_records Example.dir "dev" w)
    as (_ & _ & _ & Hactive).
  destruct (useConfig_activates_only_records Example.dir "prod" w)
    as (_ & _ & Hnothing & _).
  split.
  - apply (Hactive (AppConfig "dev" None));
      [vm_compute; discriminate | vm_compute; reflexivity | vm_compute; reflexivity].
  - apply Hnothing. right. vm_compute. reflexivity.
Defined.

(** A record file that is there is gone after [deleteConfig]. *)
Lemma deleteConfig_gone (configDir : path) (name : string) (w : world) :
  forall c, files w !! getConfigFilePath configDir name = Some (File c) ->
  existsSync (files (snd (deleteConfig configDir name w)))
    (getConfigFilePath configDir name) = false.
Proof.
  intros c Hfile.
  destruct (deleteConfig_run configDir name w) as [out ->].
  rewrite (existsSync_file _ _ _ Hfile).
  pose proof (getConfigFilePath_nonempty configDir name) as Hp.
  unfold unlinkSync, existsSync.
  destruct (getConfigFilePath configDir name) as [|seg tail] eqn:Hpath;
    [congruence|].
  rewrite Hfile. simpl.
  destruct (decide (currentConfigFile configDir = seg :: tail)) as [Heq|Hneq].
  - rewrite Heq.
    rewrite (active_name_missing (delete _ (files w)) _ (lookup_delete_eq _ _)).
    rewrite lookup_delete_eq. reflexivity.
  - destruct (match active_name _ _ with Some v => _ | None => _ end).
    + destruct (writeFileSync _ _ _) as [e|m2] eqn:Hwrite.
      * rewrite lookup_delete_eq. reflexivity.
      * apply writeFileSync_inr in Hwrite as [_ ->].
        rewrite lookup_insert_ne by exact Hneq.
        rewrite lookup_delete_eq. reflexivity.
    + rewrite lookup_delete_eq. reflexivity.
Qed.

Lemma bind_ok {A B : Type} (c : M A) (k : A -> M B) (w w1 : world) (a : A) :
  c w = (Ok a, w1) -> bind c k w = k a w1.
Proof. intros H. unfold bind. rewrite H. reflexivity. Qed.

Lemma bind_throw {A B : Type} (c : M A) (k : A -> M B) (w w1 : world) (e : exn) :
  c w = (Throw e, w1) -> bind c k w = (Throw e, w1).
Proof. intros H. unfold bind. rewrite H. reflexivity. Qed.

Section DeleteCommandFacts.

Variable configDir : path.
Variable selectConfigToDelete : list string -> exn + string.
Variable confirmDeletion : string -> exn + bool.

Abbreviation delete_chosen :=
  (DeleteCommand.delete_chosen configDir confirmDeletion).
Abbreviation delete_command :=
  (DeleteCommand.deleteConfig configDir selectConfigToDelete confirmDeletion).

Lemma delete_chosen_unconfirmed (configs : list string) (chosen : string)
    (w : world) :
  confirmDeletion chosen <> inr true ->
  files (snd (delete_chosen configs chosen w)) = files w.
Proof.
  intros Hno. unfold DeleteCommand.delete_chosen.
  destruct (String.eqb chosen ""); run; [reflexivity|].
  destruct (getConfig_run configDir chosen w) as [out0 ->]. simpl.
  destruct (stored_record _ _); run; [|reflexivity].
  destruct (confirmDeletion chosen) as [e|[|]]; simpl; run;
    [reflexivity|contradiction|reflexivity].
Qed.

Lemma delete_confirmed_run (configs : list string) (chosen : string) (w : world) :
  exists out,
    DeleteCommand.delete_confirmed configDir configs chosen w
    = (Ok tt, mkWorld (files (snd (deleteConfig configDir chosen w)))
                      (logLevel w) out).
Proof.
  unfold DeleteCommand.delete_confirmed. unfold bind at 1.
  destruct (deleteConfig_run configDir chosen w) as [out0 ->].
  destruct (existsSync _ _); simpl; [|run; eauto].
  destruct (unlinkSync _ _) as [e|m1]; simpl; run; [eauto|].
  match goal with
  | |- context [getCurrentConfig configDir ?w1] =>
      destruct (getCurrentConfig_run configDir w1) as [out1 ->]
  end.
  simpl. destruct (active_name _ _); run; [eauto|].
  destruct (1 <? length configs)%nat; run; eauto.
Qed.

End DeleteCommandFacts.

(** X10. The [delete] command deletes nothing without a confirmation: when
    the store lists no configuration, or when the confirmation prompt does
    not answer yes (it answers no, or is closed), every file is as it was,
    whatever name was given and whatever was picked. When the given name,
    trimmed, names a stored record and the prompt answers yes, the command
    returns and the record is gone. *)
Theorem delete_command_needs_confirmation (configDir : path)
    (selectConfigToDelete : list string -> exn + string)
    (confirmDeletion : string -> exn + bool)
    (name : option string) (w : world) :
  let run_command :=
    DeleteCommand.deleteConfig configDir selectConfigToDelete confirmDeletion
      name w in
  (fst (listConfigs configDir w) = Ok [] -> files (snd run_command) = files w)
  /\ ((forall target, confirmDeletion target <> inr true) ->
      files (snd run_command) = files w)
  /\ (forall given kept record,
        name = Some given ->
        JsString.trim given = kept -> kept <> "" ->
        fst (listConfigs configDir w) <> Ok [] ->
        fst (getConfig configDir kept w) = Ok (Some record) ->
        confirmDeletion kept = inr true ->
        fst run_command = Ok tt
        /\ fst (getConfig configDir kept (snd run_command)) = Ok None).
Proof.
  intros run_command. subst run_command.
  destruct (listConfigs_run configDir w) as [out Hlist].
  unfold DeleteCommand.deleteConfig. rewrite (bind_ok _ _ _ _ _ Hlist).
  rewrite Hlist. simpl fst.
  set (configs := listed_names configDir (files w)).
  set (w1 := mkWorld (files w) (logLevel w) out).
  split; [|split].
  - intros [= ->]. run. reflexivity.
  - intros Hno. destruct configs as [|first others]; [run; reflexivity|].
    destruct (JsString.trim <$> name) as [[|c rest]|].
    + unfold try_catch. run.
      destruct (selectConfigToDelete _) as [e|picked]; simpl; run;
        [reflexivity|].
      rewrite delete_chosen_unconfirmed by apply Hno. reflexivity.
    + rewrite delete_chosen_unconfirmed by apply Hno. reflexivity.
    + unfold try_catch. run.
      destruct (selectConfigToDelete _) as [e|picked]; simpl; run;
        [reflexivity|].
      rewrite delete_chosen_unconfirmed by apply Hno. reflexivity.
  - intros given kept record -> Hkept Hne Hlisted Hrec Hyes.
    destruct configs as [|first others]; [congruence|].
    change (JsString.trim <$> Some given) with (Some (JsString.trim given)).
    rewrite Hkept.
    destruct kept as [|c rest]; [congruence|]. cbv iota.
    destruct (getConfig_run configDir (String c rest) w) as [out1 Hget].
    rewrite Hget in Hrec. clear Hget. simpl in Hrec. injection Hrec as Hrec.
    destruct (getConfig_run configDir (String c rest) w1) as [out0 Hget].
    simpl in Hget. rewrite Hrec in Hget.
    unfold DeleteCommand.delete_chosen.
    change (String.eqb (String c rest) "") with false. cbv iota.
    rewrite (bind_ok _ _ _ _ _ Hget). rewrite Hyes. unfold lift.
    rewrite (bind_ok _ _ _ _ true eq_refl).
    change (negb true) with false. cbv iota.
    match goal with
    | |- context [DeleteCommand.delete_confirmed configDir ?cs ?n ?w2] =>
        destruct (delete_confirmed_run configDir cs n w2) as [out2 ->]
    end.
    simpl. split; [reflexivity|].
    apply stored_record_valid in Hrec as (_ & Hp & k & Hfile).
    match goal with
    | |- context [getConfig configDir ?n ?w2] =>
        destruct (getConfig_run configDir n w2) as [out3 ->]
    end.
    simpl. f_equal. apply stored_record_missing.
    match goal with
    | |- context [deleteConfig configDir ?n ?w2] =>
        pose proof (deleteConfig_gone configDir n w2) as Hgone
    end.
    apply (Hgone (JsonText k record)). simpl. exact Hfile.
Qed.

Lemma delete_command_needs_confirmation_witness :
  let w := snd (saveConfig Example.dir (AppConfig "dev" None) Example.fresh) in
  let closed := fun _ : list string => @inl exn string (TypeError "closed") in
  files (snd (DeleteCommand.deleteConfig Example.dir closed
                (fun _ => inr false) (Some "dev") w)) = files w
  /\ fst (getConfig Example.dir "dev"
            (snd (DeleteCommand.deleteConfig Example.dir closed
                    (fun _ => inr true) (Some " dev ") w))) = Ok None.
Proof.
  intros w closed. split.
  - apply (proj1 (proj2 (delete_command_needs_confirmation Example.dir closed
                           (fun _ => inr false) (Some "dev") w))).
    intros target. discriminate.
  - apply (proj2 (proj2 (delete_command_needs_confirmation Example.dir closed
                           (fun _ => inr true) (Some " dev ") w))
             " dev " "dev" (AppConfig "dev" None)).
    + reflexivity.
    + vm_compute. reflexivity.
    + discriminate.
    + vm_compute. discriminate.
    + vm_compute. reflexivity.
    + reflexivity.
Defined.

(** ** The store and the logger *)

Section Effects.

Variable configDir : path.

Lemma saveConfig_effect (config : json) (w : world) :
  exists out,
    saveConfig configDir config w
    = (Ok (fst (save_effect configDir config (files w))),
       mkWorld (snd (save_effect configDir config (files w))) (logLevel w) out).
Proof.
  unfold save_effect. destruct (success (safeParse config)) eqn:Hok.
  - destruct (safeParse_success_inv config Hok) as (fields & s & -> & Hn & _ & _).
    destruct (saveConfig_valid_run configDir (JObj fields) s w Hok) as [out ->].
    { simpl. rewrite Hn. reflexivity. }
    simpl member. rewrite Hn. simpl template.
    destruct (writeFileSync _ _ _); simpl; eauto.
  - destruct (saveConfig_invalid_run configDir config w Hok) as [out ->].
    simpl. eauto.
Qed.

Lemma setCurrentConfig_effect (name : string) (w : world) :
  exists out,
    setCurrentConfig configDir name w
    = (Ok (fst (activate_effect configDir name (files w))),
       mkWorld (snd (activate_effect configDir name (files w))) (logLevel w) out).
Proof.
  unfold activate_effect.
  destruct (setCurrentConfig_run configDir name w) as [out ->].
  destruct (existsSync _ _); [|simpl; eauto].
  destruct (writeFileSync _ _ _); simpl; eauto.
Qed.

Lemma deleteConfig_effect (name : string) (w : world) :
  exists out,
    deleteConfig configDir name w
    = (Ok (fst (delete_effect configDir name (files w))),
       mkWorld (snd (delete_effect configDir name (files w))) (logLevel w) out).
Proof.
  unfold delete_effect.
  destruct (deleteConfig_run configDir name w) as [out ->].
  destruct (existsSync _ _); [|simpl; eauto].
  destruct (unlinkSync _ _); simpl; eauto.
Qed.

End Effects.

(** X11. The store never looks at the logger and never changes its level:
    on two worlds with the same files, each store operation returns the
    same result and leaves the same files, whatever the log level and
    whatever was printed before. *)
Theorem store_ignores_the_logger (configDir : path) (w1 w2 : world) :
  files w1 = files w2 ->
  forall (name : string) (config : json),
    (fst (saveConfig configDir config w1) = fst (saveConfig configDir config w2)
     /\ files (snd (saveConfig configDir config w1))
        = files (snd (saveConfig configDir config w2))
     /\ logLevel (snd (saveConfig configDir config w1)) = logLevel w1)
    /\ (fst (deleteConfig configDir name w1) = fst (deleteConfig configDir name w2)
        /\ files (snd (deleteConfig configDir name w1))
           = files (snd (deleteConfig configDir name w2))
        /\ logLevel (snd (deleteConfig configDir name w1)) = logLevel w1)
    /\ (fst (setCurrentConfig configDir name w1)
        = fst (setCurrentConfig configDir name w2)
        /\ files (snd (setCurrentConfig configDir name w1))
           = files (snd (setCurrentConfig configDir name w2))
        /\ logLevel (snd (setCurrentConfig configDir name w1)) = logLevel w1)
    /\ (fst (getConfig configDir name w1) = fst (getConfig configDir name w2)
        /\ files (snd (getConfig configDir name w1)) = files w1)
    /\ (fst (getCurrentConfig configDir w1) = fst (getCurrentConfig configDir w2)
        /\ files (snd (getCurrentConfig configDir w1)) = files w1)
    /\ (fst (listConfigs configDir w1) = fst (listConfigs configDir w2)
        /\ files (snd (listConfigs configDir w1)) = files w1).
Proof.
  intros Hfiles name config.
  destruct (saveConfig_effect configDir config w1) as [o1 ->].
  destruct (saveConfig_effect configDir config w2) as [o2 ->].
  destruct (deleteConfig_effect configDir name w1) as [o3 ->].
  destruct (deleteConfig_effect configDir name w2) as [o4 ->].
  destruct (setCurrentConfig_effect configDir name w1) as [o5 ->].
  destruct (setCurrentConfig_effect configDir name w2) as [o6 ->].
  destruct (getConfig_run configDir name w1) as [o7 ->].
  destruct (getConfig_run configDir name w2) as [o8 ->].
  destruct (getCurrentConfig_run configDir w1) as [o9 ->].
  destruct (getCurrentConfig_run configDir w2) as [o10 ->].
  destruct (listConfigs_run configDir w1) as [o11 ->].
  destruct (listConfigs_run configDir w2) as [o12 ->].
  simpl. rewrite Hfiles. repeat split; reflexivity.
Qed.

Lemma store_ignores_the_logger_witness :
  fst (saveConfig Example.dir (AppConfig "dev" None)
         (mkWorld (files Example.fresh) DEBUG [Printed "earlier output"]))
  = fst (saveConfig Example.dir (AppConfig "dev" None) Example.fresh).
Proof.
  apply (store_ignores_the_logger Example.dir
           (mkWorld (files Example.fresh) DEBUG [Printed "earlier output"])
           Example.fresh eq_refl "dev" (AppConfig "dev" None)).
Defined.

(** ** Creating *)

Section CreateCommandFacts.

Variable configDir : path.

(** [createConfig], step by step: it saves, and activates when asked to and
    the save succeeded. *)
Lemma createConfig_run (prompt : exn + CreateCommand.Answers) (w : world) :
  exists out,
    CreateCommand.createConfig configDir prompt w
    = (Ok tt,
       mkWorld
         match prompt with
         | inl _ => files w
         | inr answers =>
             let config_name := JsString.trim (CreateCommand.name answers) in
             let config :=
               AppConfig config_name
                 (JsString.trim <$> CreateCommand.description answers) in
             let saved := save_effect configDir config (files w) in
             if fst saved && CreateCommand.setAsCurrent answers
             then snd (activate_effect configDir config_name (snd saved))
             else snd saved
         end (logLevel w) out).
Proof.
  unfold CreateCommand.createConfig.
  destruct (log_run INFO
              [LStr ("🔧 Create new configuration" ++ String "010" "")] w)
    as [out0 Hlog].
  rewrite (bind_ok _ _ _ _ _ Hlog). clear Hlog.
  unfold try_catch. destruct prompt as [e|answers].
  - run. eauto.
  - unfold lift. rewrite (bind_ok _ _ _ _ answers eq_refl).
    cbv zeta.
    set (config := AppConfig _ _).
    destruct (saveConfig_effect configDir config
                (mkWorld (files w) (logLevel w) out0)) as [out1 Hsave].
    rewrite (bind_ok _ _ _ _ _ Hsave). clear Hsave. cbn [files logLevel].
    destruct (save_effect configDir config (files w)) as [[|] m1]; simpl; run;
      [|eauto].
    destruct (CreateCommand.setAsCurrent answers); run; [|eauto].
    match goal with
    | |- context [setCurrentConfig configDir ?n ?w1] =>
        destruct (setCurrentConfig_effect configDir n w1) as [out2 ->]
    end.
    simpl. destruct (fst (activate_effect _ _ _)); run; eauto.
Qed.

End CreateCommandFacts.

Lemma AppConfig_valid (name : string) (description : option string) :
  success (safeParse (AppConfig name description))
  = (1 <=? String.length name)%nat && (String.length name <=? 50)%nat.
Proof.
  destruct (success (safeParse (AppConfig name description))) eqn:H; symmetry.
  - apply safeParse_success_inv in H as (fields & s & Heq & Hn & Hlen & _).
    unfold AppConfig in Heq. injection Heq as <-.
    change (Some (JStr name) = Some (JStr s)) in Hn. injection Hn as <-.
    apply andb_true_iff. split; apply Nat.leb_le; lia.
  - destruct ((1 <=? String.length name)%nat && (String.length name <=? 50)%nat)
      eqn:E; [|reflexivity].
    exfalso. apply andb_true_iff in E as [E1 E2].
    apply Nat.leb_le in E1, E2. unfold AppConfig in H.
    rewrite (safeParse_success_intro _ name) in H;
      [discriminate | reflexivity | lia | destruct description; reflexivity].
Qed.

Lemma writable_after_write (m : gmap path node) (p q : path) (c : content) :
  writable m q = true -> p <> q -> p <> dirname q ->
  writable (<[p := File c]> m) q = true.
Proof.
  unfold writable, writeFileSync. destruct q as [|seg q']; [discriminate|].
  intros Hw Hpq Hpd. rewrite lookup_insert_ne by congruence.
  destruct (m !! (seg :: q')) as [[c0|]|]; try exact Hw.
  destruct (has_nul (seg :: q')); [discriminate|].
  destruct (is_dir m (dirname (seg :: q'))) eqn:Hd;
    [|destruct (existsSync m _); discriminate].
  assert (Hd' : is_dir (<[p := File c]> m) (dirname (seg :: q')) = true).
  { unfold is_dir in *. destruct (dirname (seg :: q')); [reflexivity|].
    rewrite lookup_insert_ne by congruence. exact Hd. }
  rewrite Hd'. reflexivity.
Qed.

(** X12. [createConfig] never throws, also when the prompt is closed. It
    writes nothing when the prompt is closed or the trimmed name is empty
    or longer than 50 characters. When the trimmed name is valid, holds no
    [/], is not [current], and both its file and the pointer file can be
    written (which rules out a name with a NUL byte), the record with the
    trimmed name and description can be read back; it is the active one if
    that was asked for, and the active configuration is unchanged if not. *)
Theorem createConfig_creates_and_activates (configDir : path)
    (prompt : exn + CreateCommand.Answers) (w : world) :
  let w' := snd (CreateCommand.createConfig configDir prompt w) in
  fst (CreateCommand.createConfig configDir prompt w) = Ok tt
  /\ (forall e, prompt = inl e -> files w' = files w)
  /\ (forall answers,
        prompt = inr answers ->
        let n := JsString.trim (CreateCommand.name answers) in
        let record :=
          AppConfig n (JsString.trim <$> CreateCommand.description answers) in
        ((String.length n < 1 \/ 50 < String.length n)%nat -> files w' = files w)
        /\ ((1 <= String.length n <= 50)%nat ->
            JsString.includes n "/" = false -> n <> "current" ->
            writable (files w) (getConfigFilePath configDir n) = true ->
            writable (files w) (currentConfigFile configDir) = true ->
            fst (getConfig configDir n w') = Ok (Some record)
            /\ fst (getCurrentConfig configDir w')
               = if CreateCommand.setAsCurrent answers
                 then Ok (Some (JStr n))
                 else fst (getCurrentConfig configDir w))).
Proof.
  intros w'. subst w'.
  destruct (createConfig_run configDir prompt w) as [out ->].
  cbn [fst snd files logLevel].
  split; [reflexivity|]. split; [intros e ->; reflexivity|].
  intros answers ->. cbv zeta.
  set (n := JsString.trim (CreateCommand.name answers)).
  unfold save_effect. rewrite (AppConfig_valid n).
  set (record := AppConfig n _).
  split.
  - intros Hbad.
    replace ((1 <=? String.length n)%nat && (String.length n <=? 50)%nat)
      with false; [reflexivity|].
    symmetry. apply andb_false_iff.
    destruct Hbad; [left; apply Nat.leb_gt|right; apply Nat.leb_gt]; lia.
  - intros Hlen Hplain Hcur Hw Hptr.
    replace ((1 <=? String.length n)%nat && (String.length n <=? 50)%nat)
      with true
      by (symmetry; apply andb_true_iff; split; apply Nat.leb_le; lia).
    change (member record "name") with (@inr exn _ (Some (JStr n))).
    cbv iota.
    rewrite (writable_any_content _ _ _ Hw). cbn [fst snd].
    assert (Hp : getConfigFilePath configDir n <> [])
      by apply getConfigFilePath_nonempty.
    assert (Hne : getConfigFilePath configDir n <> currentConfigFile configDir)
      by (apply getConfigFilePath_plain_not_pointer; assumption).
    assert (Hq : currentConfigFile configDir <> [])
      by (rewrite currentConfigFile_path; destruct configDir; discriminate).
    assert (Hdir : getConfigFilePath configDir n
                   <> dirname (currentConfigFile configDir)).
    { rewrite currentConfigFile_path, getConfigFilePath_plain by exact Hplain.
      unfold dirname. rewrite removelast_last. intros E.
      apply (f_equal (@length string)) in E. rewrite length_app in E.
      simpl in E. lia. }
    assert (Hvalid : success (safeParse record) = true).
    { subst record. rewrite AppConfig_valid. apply andb_true_iff.
      split; apply Nat.leb_le; lia. }
    assert (Hn : n <> "").
    { intros E. rewrite E in Hlen. simpl in Hlen. lia. }
    destruct (getCurrentConfig_run configDir w) as [out0 ->]. cbn [fst].
    destruct (CreateCommand.setAsCurrent answers); cbn [andb].
    + unfold activate_effect.
      rewrite (existsSync_file _ _ (JSON_stringify record 2))
        by apply lookup_insert_eq.
      rewrite (writable_any_content _ _ _
                 (writable_after_write _ _ _ _ Hptr Hne Hdir)).
      cbn [fst snd]. split.
      * match goal with
        | |- context [getConfig configDir n ?w1] =>
            destruct (getConfig_run configDir n w1) as [out1 ->]
        end.
        simpl. f_equal.
        rewrite (stored_record_same_file
                   (<[getConfigFilePath configDir n
                      := File (JSON_stringify record 2)]> (files w)))
          by (apply lookup_insert_ne; congruence).
        apply stored_record_written; assumption.
      * match goal with
        | |- context [getCurrentConfig configDir ?w1] =>
            destruct (getCurrentConfig_run configDir w1) as [out1 ->]
        end.
        simpl. rewrite active_name_written by exact Hq.
        destruct (String.eqb_spec n ""); [contradiction|reflexivity].
    + split.
      * match goal with
        | |- context [getConfig configDir n ?w1] =>
            destruct (getConfig_run configDir n w1) as [out1 ->]
        end.
        simpl. f_equal. apply stored_record_written; assumption.
      * match goal with
        | |- context [getCurrentConfig configDir ?w1] =>
            destruct (getCurrentConfig_run configDir w1) as [out1 ->]
        end.
        simpl. f_equal.
        apply (active_name_other_path (files w) _ _
                 (Some (File (JSON_stringify record 2)))).
        congruence.
Qed.

Lemma createConfig_creates_and_activates_witness :
  let answers := CreateCommand.mkAnswers "  dev " (Some " local ") true in
  let w' := snd (CreateCommand.createConfig Example.dir (inr answers)
                   Example.fresh) in
  fst (getConfig Example.dir "dev" w') = Ok (Some (AppConfig "dev" (Some "local")))
  /\ fst (getCurrentConfig Example.dir w') = Ok (Some (JStr "dev")).
Proof.
  intros answers w'.
  destruct (createConfig_creates_and_activates Example.dir (inr answers)
              Example.fresh) as (_ & _ & Hcreated).
  destruct (Hcreated answers eq_refl) as [_ Hok].
  apply Hok.
  - vm_compute. lia.
  - vm_compute. reflexivity.
  - vm_compute. discriminate.
  - vm_compute. reflexivity.
  - vm_compute. reflexivity.
Defined.

(** ** Commands that only read *)

Section ReadOnly.

Variable configDir : path.

Lemma for_of_quiet {A : Type} (body : A -> M unit) (l : list A) :
  (forall x w, exists out, body x w = (Ok tt, mkWorld (files w) (logLevel w) out)) ->
  forall w, exists out,
    ListCommand.for_of l body w = (Ok tt, mkWorld (files w) (logLevel w) out).
Proof.
  intros Hbody. induction l as [|x l IH]; intros w.
  - exists (console w). destruct w; reflexivity.
  - simpl. destruct (Hbody x w) as [out1 H1].
    rewrite (bind_ok _ _ _ _ _ H1).
    destruct (IH (mkWorld (files w) (logLevel w) out1)) as [out2 ->]. eauto.
Qed.

Lemma name_of_valid (v : json) :
  success (safeParse v) = true ->
  exists s, member v "name" = inr (Some (JStr s)).
Proof.
  intros Hok. destruct (safeParse_success_inv v Hok) as (fields & s & -> & Hn & _).
  exists s. simpl. rewrite Hn. reflexivity.
Qed.

Lemma showCurrentConfig_run (w : world) :
  exists out,
    showCurrentConfig configDir w
    = (match active_name (files w) (currentConfigFile configDir) with
       | Some v => match ToString v with
                   | inr _ => Ok tt
                   | inl e => Throw e
                   end
       | None => Ok tt
       end,
       mkWorld (files w) (logLevel w) out).
Proof.
  unfold showCurrentConfig.
  destruct (getCurrentConfig_run configDir w) as [out0 H0].
  rewrite (bind_ok _ _ _ _ _ H0). clear H0.
  destruct (active_name (files w) (currentConfigFile configDir)) as [v|];
    [|run; eauto].
  destruct (ToString v) as [e|currentName]; [run; eauto|].
  unfold lift. rewrite (bind_ok _ _ _ _ currentName eq_refl).
  destruct (getConfig_run configDir currentName
              (mkWorld (files w) (logLevel w) out0)) as [out1 H1].
  rewrite (bind_ok _ _ _ _ _ H1). clear H1. cbn [files logLevel].
  destruct (stored_record (files w) _) as [data|] eqn:Hstored; [|run; eauto].
  apply stored_record_valid in Hstored as (Hok & _).
  destruct (name_of_valid data Hok) as [x Hx]. rewrite Hx.
  run. unfold console_log. simpl.
  match goal with
  | |- context [displayCurrentConfigDetails data ?w1] =>
      destruct (displayCurrentConfigDetails_run data w1 Hok) as [out2 ->]
  end.
  simpl. run. eauto.
Qed.

Lemma list_command_run (w : world) :
  exists out,
    ListCommand.listConfigs configDir w
    = (Ok tt, mkWorld (files w) (logLevel w) out).
Proof.
  unfold ListCommand.listConfigs.
  destruct (log_run INFO
              [LStr ("📋 Available configurations" ++ String "010" "")] w)
    as [out0 H0].
  rewrite (bind_ok _ _ _ _ _ H0). clear H0.
  destruct (listConfigs_run configDir (mkWorld (files w) (logLevel w) out0))
    as [out1 H1].
  rewrite (bind_ok _ _ _ _ _ H1). clear H1. cbn [files logLevel].
  destruct (getCurrentConfig_run configDir (mkWorld (files w) (logLevel w) out1))
    as [out2 H2].
  rewrite (bind_ok _ _ _ _ _ H2). clear H2. cbn [files logLevel].
  destruct (listed_names configDir (files w)) as [|first others]; [run; eauto|].
  match goal with
  | |- context [ListCommand.for_of ?l ?body] =>
      destruct (for_of_quiet body l) with
        (w := mkWorld (files w) (logLevel w) out2) as [out3 H3]
  end.
  { intros configName w0.
    destruct (getConfig_run configDir configName w0) as [out4 H4].
    rewrite (bind_ok _ _ _ _ _ H4). clear H4.
    destruct (stored_record (files w0) _) as [data|] eqn:Hstored; [|run; eauto].
    apply stored_record_valid in Hstored as (Hok & _).
    unfold console_log, bind. simpl.
    match goal with
    | |- context [ListCommand.displayConfigDetails data ?w1] =>
        destruct (displayConfigDetails_run data w1 Hok) as [out5 ->]
    end.
    simpl. eauto. }
  rewrite (bind_ok _ _ _ _ _ H3). clear H3.
  destruct (active_name (files w) (currentConfigFile configDir)); run; eauto.
Qed.

End ReadOnly.

(** X13. The commands [current] and [list] only read: on every state of
    the disk they leave every file and the logger level as they were. The
    [list] command always returns normally. The [current] command returns
    normally when there is no active name or the active name has a string
    form (every string, number, boolean and plain object has one), with or
    without a record behind it; when the pointer file names a value without
    a string form, such as an object with a [toString] key, it throws the
    [TypeError] of the conversion. *)
Theorem current_and_list_only_read (configDir : path) (w : world) :
  (files (snd (showCurrentConfig configDir w)) = files w
   /\ logLevel (snd (showCurrentConfig configDir w)) = logLevel w
   /\ ((forall v, fst (getCurrentConfig configDir w) = Ok (Some v) ->
                  exists name, to_string v = Some name) ->
       fst (showCurrentConfig configDir w) = Ok tt)
   /\ (forall v, fst (getCurrentConfig configDir w) = Ok (Some v) ->
                 to_string v = None ->
                 fst (showCurrentConfig configDir w)
                 = Throw (TypeError "Cannot convert object to primitive value")))
  /\ (fst (ListCommand.listConfigs configDir w) = Ok tt
      /\ files (snd (ListCommand.listConfigs configDir w)) = files w
      /\ logLevel (snd (ListCommand.listConfigs configDir w)) = logLevel w).
Proof.
  destruct (showCurrentConfig_run configDir w) as [out1 ->].
  destruct (list_command_run configDir w) as [out2 ->].
  destruct (getCurrentConfig_run configDir w) as [out3 ->].
  cbn [fst snd files logLevel]. repeat split.
  - intros Hname.
    destruct (active_name _ _) as [v|]; [|reflexivity].
    destruct (Hname v eq_refl) as [name Hv]. unfold ToString. rewrite Hv.
    reflexivity.
  - intros v [= ->] Hv. unfold ToString. rewrite Hv. reflexivity.
Qed.

Lemma current_and_list_only_read_witness :
  let odd := mkWorld (<[currentConfigFile Example.dir
                        := File (JSON_stringify
                                   (JObj [("name",
                                           JObj [("toString",
                                                  JNum (mkSafeInteger 1 eq_refl))])])
                                   0)]>
                        (files Example.fresh)) INFO [] in
  let dangling := mkWorld (<[currentConfigFile Example.dir
                             := File (JSON_stringify
                                        (JObj [("name", JStr "gone")]) 0)]>
                             (files Example.fresh)) INFO [] in
  fst (showCurrentConfig Example.dir dangling) = Ok tt
  /\ fst (showCurrentConfig Example.dir odd)
     = Throw (TypeError "Cannot convert object to primitive value").
Proof.
  intros odd dangling. split.
  - apply (proj1 (current_and_list_only_read Example.dir dangling)).
    intros v Hv. vm_compute in Hv. injection Hv as <-.
    exists "gone". reflexivity.
  - apply (proj1 (current_and_list_only_read Example.dir odd))
      with (v := JObj [("toString", JNum (mkSafeInteger 1 eq_refl))]).
    + vm_compute. reflexivity.
    + reflexivity.
Defined.

(** ** The name prompt of [create] *)

(** X14. [validateConfigName] refuses a blank input with "Configuration name
    is required". For an input whose trimmed form holds no [/] and no [.]
    and is not [current], in a store whose directory exists, it refuses
    with "A configuration with that name already exists" exactly when the
    file of the trimmed name exists, and accepts otherwise. *)
Theorem validateConfigName_checks_the_trimmed_name (configDir : path)
    (input : string) (w : world) :
  (JsString.trim input = "" ->
   fst (CreateCommand.validateConfigName configDir input w)
   = Ok (CreateCommand.Refused "Configuration name is required"))
  /\ (JsString.trim input <> "" ->
      is_dir (files w) configDir = true ->
      JsString.includes (JsString.trim input) "/" = false ->
      JsString.includes (JsString.trim input) "." = false ->
      JsString.trim input <> "current" ->
      fst (CreateCommand.validateConfigName configDir input w)
      = Ok (if existsSync (files w)
                 (getConfigFilePath configDir (JsString.trim input))
            then CreateCommand.Refused
                   "A configuration with that name already exists"
            else CreateCommand.Accepted)).
Proof.
  unfold CreateCommand.validateConfigName. split.
  - intros ->. reflexivity.
  - intros Hne Hd Hslash Hdot Hcur.
    destruct (String.eqb_spec (JsString.trim input) ""); [contradiction|].
    destruct (listConfigs_run configDir w) as [out H].
    rewrite (bind_ok _ _ _ _ _ H). clear H.
    destruct (existsb (String.eqb (JsString.trim input))
                (listed_names configDir (files w))) eqn:Hin.
    + apply existsb_exists in Hin as (x & Hx & Heq).
      apply String.eqb_eq in Heq as <-.
      apply (listed_names_plain configDir (files w) _ Hd Hslash Hdot Hcur) in Hx.
      rewrite Hx. reflexivity.
    + destruct (existsSync (files w) _) eqn:Hex; [|reflexivity].
      exfalso.
      apply (listed_names_plain configDir (files w) _ Hd Hslash Hdot Hcur) in Hex.
      assert (Hyes : existsb (String.eqb (JsString.trim input))
                       (listed_names configDir (files w)) = true).
      { apply existsb_exists. eexists. split; [exact Hex|apply String.eqb_refl]. }
      congruence.
Qed.

Lemma validateConfigName_checks_the_trimmed_name_witness :
  let w := snd (saveConfig Example.dir (AppConfig "dev" None) Example.fresh) in
  fst (CreateCommand.validateConfigName Example.dir " dev " w)
  = Ok (CreateCommand.Refused "A configuration with that name already exists")
  /\ fst (CreateCommand.validateConfigName Example.dir "   " w)
     = Ok (CreateCommand.Refused "Configuration name is required").
Proof.
  intros w. split.
  - rewrite (proj2 (validateConfigName_checks_the_trimmed_name Example.dir
                      " dev " w)).
    + vm_compute. reflexivity.
    + vm_compute. discriminate.
    + vm_compute. reflexivity.
    + vm_compute. reflexivity.
    + vm_compute. reflexivity.
    + vm_compute. discriminate.
  - apply (proj1 (validateConfigName_checks_the_trimmed_name Example.dir
                    "   " w)).
    vm_compute. reflexivity.
Defined.

(** ** [getVersion] *)

Lemma package_json_path (dirname_ : path) :
  join dirname_ "../../package.json"
  = (removelast (removelast dirname_) ++ ["package.json"])%list.
Proof. reflexivity. Qed.

(** X15. [getVersion] never throws and never returns the empty string or
    any other falsy value, and it leaves the files alone: it returns
    ["unknown"] when [package.json] is missing, and the [version] of
    [package.json] when that is a non-empty string. *)
Theorem getVersion_is_never_empty (dirname_ : path) (w : world) :
  exists v,
    fst (Version.getVersion dirname_ w) = Ok v
    /\ truthy v = true
    /\ v <> JStr ""
    /\ files (snd (Version.getVersion dirname_ w)) = files w
    /\ (files w !! join dirname_ "../../package.json" = None ->
        v = JStr "unknown")
    /\ (forall k fields s,
          files w !! join dirname_ "../../package.json"
          = Some (File (JsonText k (JObj fields))) ->
          field "version" fields = Some (JStr s) -> s <> "" ->
          v = JStr s).
Proof.
  assert (Hp : join dirname_ "../../package.json" <> []).
  { rewrite package_json_path. destruct (removelast _); discriminate. }
  unfold Version.getVersion. run.
  unfold readFileSync.
  destruct (join dirname_ "../../package.json") as [|seg rest] eqn:Hpath;
    [congruence|].
  destruct (files w !! (seg :: rest)) as [[c|]|] eqn:Hfile; simpl; run.
  - destruct c as [k pkg|raw]; simpl; run.
    + destruct (member pkg "version") as [e|version] eqn:Hversion; simpl; run.
      * exists (JStr "unknown"). repeat split; try discriminate.
        intros k' fields s [= -> ->]. simpl in Hversion. discriminate.
      * exists (match or_null version with Some v => v | None => JStr "unknown" end).
        assert (Htruthy : truthy (match or_null version with
                                  | Some v => v
                                  | None => JStr "unknown"
                                  end) = true).
        { unfold or_null. destruct version as [v|]; [|reflexivity].
          destruct (truthy v) eqn:Hv; [exact Hv|reflexivity]. }
        split; [destruct w; reflexivity|]. split; [exact Htruthy|].
        split; [intros E; rewrite E in Htruthy; discriminate|].
        split; [destruct w; reflexivity|]. split; [discriminate|].
        intros k' fields s [= -> ->] Hfield Hs.
        simpl in Hversion. injection Hversion as <-. rewrite Hfield. simpl.
        destruct (String.eqb_spec s ""); [contradiction|reflexivity].
    + exists (JStr "unknown"). repeat split; try discriminate.
  - exists (JStr "unknown"). repeat split; try discriminate.
  - exists (JStr "unknown"). repeat split; try discriminate.
Qed.

Lemma getVersion_is_never_empty_witness :
  fst (Version.getVersion ["app"; "dist"; "utils"]
         (mkWorld {[ ["app"; "package.json"]
                     := File (JsonText 2 (JObj [("name", JStr "demo-cli");
                                                ("version", JStr "1.2.0")])) ]}
                  INFO []))
  = Ok (JStr "1.2.0").
Proof.
  destruct (getVersion_is_never_empty ["app"; "dist"; "utils"]
              (mkWorld {[ ["app"; "package.json"]
                          := File (JsonText 2 (JObj [("name", JStr "demo-cli");
                                                     ("version", JStr "1.2.0")])) ]}
                       INFO []))
    as (v & Hv & _ & _ & _ & _ & Hversion).
  rewrite Hv. f_equal.
  apply (Hversion 2%nat [("name", JStr "demo-cli"); ("version", JStr "1.2.0")]).
  - vm_compute. reflexivity.
  - reflexivity.
  - discriminate.
Defined.

(** ** How a run of [retry] ends *)

Section RetryEndings.

Context {T E S : Type}.

Variable fn : S -> (E + T) * S.
Variables limit base cap : number.
Variable onRetry' : option (Z -> E -> S -> option E * S).



End RetryEndings.



(** X17. When a run of [retry] has ended, the [k]-th wait was
    [Math.min(baseDelay * 2 ** (k - 1), maxDelay)], and for a finite
    [maxAttempts] there were fewer waits than [maxAttempts], so at most
    [maxAttempts - 1] for an integer. For a positive [baseDelay]
    and a finite [maxDelay] every wait is finite, at most [maxDelay] and at
    least the smaller of [baseDelay] and [maxDelay]. For a [baseDelay] of 0
    the waits after attempt 1024 are [NaN]. *)
Theorem retry_delays_are_capped {T E S : Type}
    (fn : S -> (E + T) * S) (options : RetryOptions E S) (fuel : nat) (s : S)
    (out : settled T E) (s' : S) (trace : list (event T E)) :
  retry fuel fn options s = Some (out, s', trace) ->
  let limit := default (of_Z 3) (maxAttempts options) in
  let base := default (of_Z 1000) (baseDelay options) in
  let cap := default (of_Z 10000) (maxDelay options) in
  let waits := delays trace in
  waits = map (delayMs base cap) (seqZ 1 (Z.of_nat (length waits)))
  /\ (forall q, limit = Finite q ->
                waits = [] \/ (inject_Z (Z.of_nat (length waits)) < q)%Q)
  /\ (forall L, is_integer limit L -> Z.of_nat (length waits) <= Z.max 0 (L - 1))
  /\ (forall b c, base = Finite b -> cap = Finite c -> (0 < b)%Q ->
                  Forall (fun wait => exists d,
                                        wait = Finite d
                                        /\ (d <= c)%Q /\ (qmin b c <= d)%Q)
                         waits)
  /\ (forall b k, base = Finite b -> (b == 0)%Q ->
                  1025 <= k <= Z.of_nat (length waits) ->
                  waits !! Z.to_nat (k - 1) = Some NaN).
Proof.
  intros Hrun limit base cap waits. subst waits. unfold retry in Hrun.
  fold limit in Hrun. fold base in Hrun. fold cap in Hrun.
  apply retry_loop_classified in Hrun as (n & errors & Hlen & Hbefore & Hend).
  assert (Hwaits : delays trace
                   = map (delayMs base cap) (seqZ 1 (Z.of_nat (length errors)))).
  { unfold ending in Hend. simpl in Hend.
    destruct Hend as [(_ & _ & _ & ->)
                     |[(_ & v & s0 & _ & _ & ->)
                      |[(_ & _ & e & _ & ->)
                       |(_ & _ & e & t & cb & s3 & _ & _ & _ & ->)]]];
      rewrite ?delays_app, delays_failed_rounds; simpl;
      rewrite ?app_nil_r; reflexivity. }
  rewrite Hwaits, length_map, length_seqZ.
  replace (Z.of_nat (Z.to_nat (Z.of_nat (length errors))))
    with (Z.of_nat (length errors)) by lia.
  assert (Hlast : errors <> [] ->
                  le_int (n - 1) limit = true /\ eq_int (n - 1) limit = false).
  { intros Hne. apply Hbefore. destruct errors; [contradiction|].
    simpl length in Hlen. lia. }
  split; [reflexivity|]. split; [|split; [|split]].
  - intros q Hq. destruct errors as [|e errors]; [left; reflexivity|right].
    destruct Hlast as [Hle Hneq]; [discriminate|].
    rewrite Hq in Hle, Hneq. simpl in Hle, Hneq.
    apply Qle_bool_iff in Hle.
    assert (Hdiff : ~ (inject_Z (n - 1) == q)%Q).
    { intros Heq. apply Qeq_eq_bool in Heq. congruence. }
    rewrite Hlen. apply Qle_lteq in Hle as [Hlt|Heq];
      [exact Hlt|contradiction].
  - intros L Hint. destruct errors as [|e errors]; [simpl; lia|].
    destruct Hlast as [Hle Hneq]; [discriminate|].
    rewrite (le_int_integer _ L _ Hint) in Hle.
    rewrite (eq_int_integer _ L _ Hint) in Hneq. lia.
  - intros b c -> -> Hb. apply Forall_forall. intros wait Hwait.
    apply list_elem_of_In, in_map_iff in Hwait as (k & <- & Hk).
    apply list_elem_of_In, elem_of_seqZ in Hk.
    apply delayMs_bounds; [lia|exact Hb].
  - intros b k -> Hb Hk.
    rewrite list_lookup_fmap, lookup_seqZ_lt by lia. simpl.
    replace (1 + Z.of_nat (Z.to_nat (k - 1))) with k by lia.
    f_equal. apply delayMs_zero_base; [exact Hb|lia].
Qed.

Lemma retry_delays_are_capped_witness :
  let fn := fun calls : nat => (@inl string unit "busy", Datatypes.S calls) in
  let options :=
    mkOptions (S := nat) (Some (of_Z 4)) (Some (of_Z 400)) (Some (of_Z 1000))
      None in
  let trace := [Called 1 (inl "busy"); Slept (of_Z 400);
                Called 2 (inl "busy"); Slept (of_Z 800);
                Called 3 (inl "busy"); Slept (of_Z 1000);
                Called 4 (inl "busy")] in
  retry 4 fn options 0%nat = Some (Rejected (Some "busy"), 4%nat, trace)
  /\ Z.of_nat (length (delays trace)) <= Z.max 0 (4 - 1).
Proof.
  intros fn options trace.
  assert (Hrun : retry 4 fn options 0%nat
                 = Some (Rejected (Some "busy"), 4%nat, trace))
    by (vm_compute; reflexivity).
  split; [exact Hrun|].
  destruct (retry_delays_are_capped fn options 4 0%nat _ _ _ Hrun)
    as (_ & _ & Hcount & _).
  apply Hcount. simpl. reflexivity.
Defined.

(** ** Reading the pointer *)

(** X18. [getCurrentConfig()] returns the name [n] exactly when the pointer
    file holds a JSON object whose [name] is the non-empty string [n]; an
    empty name, like a missing or unreadable pointer file, reads as no
    active configuration. It never returns a falsy value. *)
Theorem getCurrentConfig_reads_the_pointer (configDir : path) (w : world) :
  (forall n,
     fst (getCurrentConfig configDir w) = Ok (Some (JStr n))
     <-> n <> ""
         /\ exists k fields,
              files w !! currentConfigFile configDir
              = Some (File (JsonText k (JObj fields)))
              /\ field "name" fields = Some (JStr n))
  /\ (forall v, fst (getCurrentConfig configDir w) = Ok (Some v) -> truthy v = true)
  /\ (files w !! currentConfigFile configDir = None ->
      fst (getCurrentConfig configDir w) = Ok None).
Proof.
  destruct (getCurrentConfig_run configDir w) as [out ->]. simpl.
  assert (Hq : currentConfigFile configDir <> []).
  { rewrite currentConfigFile_path. destruct configDir; discriminate. }
  split; [|split].
  - intros n. unfold active_name. split.
    + intros [= H].
      destruct (readFileSync (files w) (currentConfigFile configDir))
        as [e|c] eqn:Hread; [discriminate|].
      apply readFileSync_inr in Hread as [_ Hfile].
      destruct c as [k v|raw]; simpl in H; [|discriminate].
      destruct v as [| | | | |fields]; simpl in H; try discriminate.
      unfold or_null in H.
      destruct (field "name" fields) as [x|] eqn:Hx; [|discriminate].
      destruct (truthy x) eqn:Ht; [|discriminate].
      injection H as ->. simpl in Ht.
      split; [|eauto].
      intros ->. discriminate.
    + intros (Hn & k & fields & Hfile & Hfield).
      assert (Hread : readFileSync (files w) (currentConfigFile configDir)
                      = inr (JsonText k (JObj fields)))
        by (apply readFileSync_inr; auto).
      rewrite Hread. simpl. rewrite Hfield. simpl.
      destruct (String.eqb_spec n ""); [contradiction|reflexivity].
  - intros v [= H]. unfold active_name in H.
    destruct (readFileSync _ _) as [e|c]; [discriminate|].
    destruct (JSON_parse c) as [e|parsed]; [discriminate|].
    destruct (member parsed "name") as [e|[x|]]; try discriminate.
    simpl in H. destruct (truthy x) eqn:Ht; [|discriminate].
    injection H as <-. exact Ht.
  - intros Hnone. rewrite active_name_missing by exact Hnone. reflexivity.
Qed.

Lemma getCurrentConfig_reads_the_pointer_witness :
  fst (getCurrentConfig Example.dir Example.fresh) = Ok None
  /\ forall n, fst (getCurrentConfig Example.dir Example.fresh)
               = Ok (Some (JStr n)) -> n <> "".
Proof.
  split; [vm_compute; reflexivity|].
  intros n H.
  apply (proj1 (getCurrentConfig_reads_the_pointer Example.dir Example.fresh) n), H.
Defined.

Lemma strict_eq_string_true (v : json) (s : string) :
  strict_eq_string v s = true -> v = JStr s.
Proof.
  destruct v; simpl; try discriminate.
  intros H. apply String.eqb_eq in H as ->. reflexivity.
Qed.

(** X19. Deleting a record that is not the active one leaves the active
    configuration as it is: when the file of [name] is not the pointer file
    and [getCurrentConfig()] does not return [name], it returns the same
    after [deleteConfig(name)] as before. *)
Theorem deleteConfig_keeps_other_active (configDir : path) (name : string)
    (w : world) :
  getConfigFilePath configDir name <> currentConfigFile configDir ->
  fst (getCurrentConfig configDir w) <> Ok (Some (JStr name)) ->
  fst (getCurrentConfig configDir (snd (deleteConfig configDir name w)))
  = fst (getCurrentConfig configDir w).
Proof.
  intros Hpath Hother.
  destruct (getCurrentConfig_run configDir w) as [out0 Hbefore].
  rewrite Hbefore in *. simpl in Hother. clear Hbefore.
  destruct (deleteConfig_effect configDir name w) as [out ->]. cbn [fst snd].
  match goal with
  | |- context [getCurrentConfig configDir ?w1] =>
      destruct (getCurrentConfig_run configDir w1) as [o ->]
  end.
  cbn [fst files]. f_equal. unfold delete_effect.
  destruct (existsSync _ _); [|reflexivity].
  destruct (unlinkSync _ _) as [e|m1] eqn:Hunlink; [reflexivity|].
  apply unlinkSync_inr in Hunlink as (_ & _ & ->). cbn [snd].
  rewrite (active_name_other_path (files w) _ _ None) by congruence.
  destruct (active_name (files w) (currentConfigFile configDir)) as [v|] eqn:Hv.
  - destruct (strict_eq_string v name) eqn:Heq.
    + apply strict_eq_string_true in Heq as ->. contradiction.
    + rewrite (active_name_other_path (files w) _ _ None) by congruence.
      exact Hv.
  - rewrite (active_name_other_path (files w) _ _ None) by congruence.
    exact Hv.
Qed.

Lemma deleteConfig_keeps_other_active_witness :
  let w := snd (setCurrentConfig Example.dir "dev"
                  (snd (saveConfig Example.dir (AppConfig "prod" None)
                          (snd (saveConfig Example.dir (AppConfig "dev" None)
                                  Example.fresh))))) in
  fst (getCurrentConfig Example.dir (snd (deleteConfig Example.dir "prod" w)))
  = Ok (Some (JStr "dev")).
Proof.
  intros w.
  rewrite (deleteConfig_keeps_other_active Example.dir "prod" w).
  - vm_compute. reflexivity.
  - vm_compute. discriminate.
  - vm_compute. discriminate.
Defined.
